(** * Verification of the sample-data anonymizers

    Shallow embedding of [docs/sample_data/anonymize_mentors.py],
    [docs/sample_data/anonymize_portfolio.py] and
    [scripts/convert_csv_to_insert.py].

    Python [str] values are modelled as [string]; a character is one of the
    256 code points below U+0100 (Latin-1), and Python's Unicode character
    classes are restricted to that range.  Regular expressions are kept as
    syntax trees and run by a backtracking matcher that lists the ways a
    pattern can match in the order Python's engine tries them, so that the
    first element is the match [re] reports.  The [random] module is an
    oracle [rnd : nat -> N] read through a counter.  A record of
    [csv.DictReader] is a map from field names to texts or [None], and a
    run that ends in an exception has no result. *)

From Stdlib Require Import ZArith Ascii String List Bool Lia.
From Stdlib Require Import DecimalString Decimal.
From Stdlib Require Import Floats.SpecFloat.
From stdpp Require Import gmap strings list fin_maps fin_sets.

Local Open Scope nat_scope.

(** ** Characters *)

Module Chr.

Definition code (c : ascii) : N := N_of_ascii c.

Definition between (lo hi : N) (c : ascii) : bool :=
  ((lo <=? code c) && (code c <=? hi))%N.

Definition at_code (n : N) (c : ascii) : bool := (code c =? n)%N.

Definition is_upper_az (c : ascii) : bool := between 65 90 c.
Definition is_lower_az (c : ascii) : bool := between 97 122 c.
Definition is_digit09 (c : ascii) : bool := between 48 57 c.

(** [str.isspace] and the class [\s]: tab, LF, VT, FF, CR, the separators
    U+001C..U+001F, space, U+0085 and U+00A0. *)
Definition is_space (c : ascii) : bool :=
  between 9 13 c || between 28 32 c || at_code 133 c || at_code 160 c.

(** [str.isalpha] below U+0100. *)
Definition is_alpha (c : ascii) : bool :=
  is_upper_az c || is_lower_az c || at_code 170 c || at_code 181 c || at_code 186 c
  || between 192 214 c || between 216 246 c || between 248 255 c.

(** [str.isdecimal] and the class [\d]. *)
Definition is_decimal (c : ascii) : bool := is_digit09 c.

(** [str.isalnum]: letters, decimal digits, the superscripts 2, 3, 1 and the
    vulgar fractions. *)
Definition is_alnum (c : ascii) : bool :=
  is_alpha c || is_digit09 c || between 178 179 c || at_code 185 c
  || between 188 190 c.

(** The class [\w]. *)
Definition is_word (c : ascii) : bool := is_alnum c || at_code 95 c.

(** [str.isupper] on one character. *)
Definition is_upper (c : ascii) : bool :=
  is_upper_az c || between 192 214 c || between 216 222 c.

(** [str.islower] and [str.isdigit] on one character. *)
Definition is_lower (c : ascii) : bool :=
  is_lower_az c || at_code 170 c || at_code 181 c || at_code 186 c
  || between 223 246 c || between 248 255 c.

Definition is_digit (c : ascii) : bool :=
  is_digit09 c || between 178 179 c || at_code 185 c.

(** [str.lower] on one character. *)
Definition lower (c : ascii) : ascii :=
  if is_upper c then ascii_of_N (code c + 32) else c.

(** [str.upper] on one character whose upper case is again one character
    below U+0100: every character but U+00B5 and U+00FF, whose upper case
    lies beyond U+0100, and U+00DF, whose upper case is "SS".  These three
    are left alone here.  The code upper-cases the suffix of an amount,
    which is an ASCII letter, and the first letters of the words of a
    company name, where a word that starts with one of the three gets
    another acronym in the code than here. *)
Definition upper (c : ascii) : ascii :=
  if is_lower_az c || between 224 246 c || between 248 254 c
  then ascii_of_N (code c - 32) else c.

End Chr.

(** ** Text helpers *)

Definition chars : string -> list ascii := list_ascii_of_string.
Definition text : list ascii -> string := string_of_list_ascii.

Definition lower_l (s : list ascii) : list ascii := map Chr.lower s.
Definition upper_l (s : list ascii) : list ascii := map Chr.upper s.

(** [s.lstrip(chars)], [s.rstrip(chars)], [s.strip(chars)] for a predicate
    on characters. *)
Fixpoint lstrip_l (p : ascii -> bool) (s : list ascii) : list ascii :=
  match s with
  | c :: s' => if p c then lstrip_l p s' else s
  | [] => []
  end.

Definition rstrip_l (p : ascii -> bool) (s : list ascii) : list ascii :=
  reverse (lstrip_l p (reverse s)).

Definition strip_l (p : ascii -> bool) (s : list ascii) : list ascii :=
  rstrip_l p (lstrip_l p s).

(** [s.startswith(p)]; on success the rest of [s] is returned. *)
Fixpoint strip_prefix (p s : list ascii) : option (list ascii) :=
  match p, s with
  | [], _ => Some s
  | a :: p', b :: s' => if Ascii.eqb a b then strip_prefix p' s' else None
  | _ :: _, [] => None
  end.

(** [needle in s] for strings. *)
Fixpoint contains_l (needle s : list ascii) : bool :=
  match strip_prefix needle s with
  | Some _ => true
  | None => match s with
            | [] => false
            | _ :: s' => contains_l needle s'
            end
  end.

(** [s.split()]: the maximal runs of non-space characters.  [cur] is the
    run being read, reversed. *)
Fixpoint split_go (cur : list ascii) (s : list ascii) : list (list ascii) :=
  match s with
  | [] => match cur with [] => [] | _ => [reverse cur] end
  | c :: s' =>
      if Chr.is_space c
      then match cur with
           | [] => split_go [] s'
           | _ => reverse cur :: split_go [] s'
           end
      else split_go (c :: cur) s'
  end.

Definition split_l (s : list ascii) : list (list ascii) := split_go [] s.

(** [sep.join(parts)]. *)
Fixpoint join_l (sep : list ascii) (parts : list (list ascii)) : list ascii :=
  match parts with
  | [] => []
  | [p] => p
  | p :: ps => p ++ sep ++ join_l sep ps
  end.

(** [str(n)] for a non-negative integer and [int(s)] for a string of
    decimal digits. *)
Definition str_of_nat (n : nat) : string :=
  NilEmpty.string_of_uint (Nat.to_uint n).

Definition str_of_N (n : N) : string :=
  NilEmpty.string_of_uint (N.to_uint n).

(** The number a string of decimal digits denotes, most significant digit
    first. *)
Definition digit_value (c : ascii) : N := (Chr.code c - 48)%N.

Definition int_digits (s : list ascii) : N :=
  fold_left (fun acc c => (10 * acc + digit_value c)%N) s 0%N.

(** ** Regular expressions *)

Module Re.

(** Members of a bracketed character set. *)
Inductive citem : Type :=
  | One (c : ascii)            (* a literal character *)
  | Rng (lo hi : ascii)        (* lo-hi *)
  | Spc                        (* \s *)
  | Dig                        (* \d *)
  | Wrd.                       (* \w *)

Inductive regex : Type :=
  | Eps
  | Set_ (neg : bool) (items : list citem)   (* [...] or [^...] *)
  | Cat (r1 r2 : regex)
  | Alt (r1 r2 : regex)
  | Rep (lo : nat) (hi : option nat) (r : regex)  (* greedy r{lo,hi} *)
  | Bnd                                      (* \b *)
  | Bol                                      (* ^ *)
  | Eol                                      (* $ *)
  | Grp (n : nat) (r : regex).               (* capturing group number n *)

(** Pattern-building shorthands. *)
Definition chr (c : ascii) : regex := Set_ false [One c].
Definition cls (items : list citem) : regex := Set_ false items.
Definition ncls (items : list citem) : regex := Set_ true items.
Definition opt (r : regex) : regex := Rep 0 (Some 1) r.
Definition star (r : regex) : regex := Rep 0 None r.
Definition plus (r : regex) : regex := Rep 1 None r.
Definition atleast (n : nat) (r : regex) : regex := Rep n None r.
Definition times (n : nat) (r : regex) : regex := Rep n (Some n) r.

Fixpoint cat (rs : list regex) : regex :=
  match rs with
  | [] => Eps
  | [r] => r
  | r :: rs' => Cat r (cat rs')
  end.

Fixpoint alt (rs : list regex) : regex :=
  match rs with
  | [] => Set_ false []
  | [r] => r
  | r :: rs' => Alt r (alt rs')
  end.

(** A literal string; what [re.escape(s)] denotes. *)
Definition lit_l (s : list ascii) : regex := cat (map chr s).
Definition lit (s : string) : regex := lit_l (chars s).

Definition upper_az : citem := Rng "A" "Z".
Definition lower_az : citem := Rng "a" "z".
Definition digit09 : citem := Rng "0" "9".

(** Membership of a character in a set item; with [IGNORECASE] the
    character is lower-cased and compared with the lower-cased members,
    which is what [re] does for a subject below U+0100.  (Beyond it, [re]
    also lets i match U+0130 and U+0131, s match U+017F and k match U+212A;
    these are no characters of the model.) *)
Definition item_has (ic : bool) (it : citem) (c : ascii) : bool :=
  match it with
  | One d => if ic then Ascii.eqb (Chr.lower d) (Chr.lower c) else Ascii.eqb d c
  | Rng lo hi =>
      if ic
      then existsb (fun k => Ascii.eqb (Chr.lower (ascii_of_nat k)) (Chr.lower c))
                   (seq (nat_of_ascii lo) (S (nat_of_ascii hi) - nat_of_ascii lo))
      else Chr.between (Chr.code lo) (Chr.code hi) c
  | Spc => Chr.is_space c
  | Dig => Chr.is_decimal c
  | Wrd => Chr.is_word c
  end.

Definition set_has (ic neg : bool) (items : list citem) (c : ascii) : bool :=
  xorb neg (existsb (fun it => item_has ic it c) items).

(** A position in the subject: the character before it, the text from it
    on, and the groups captured so far. *)
Record mstate : Type := MState {
    ms_prev : option ascii;
    ms_rest : list ascii;
    ms_caps : list (nat * list ascii)
  }.

Definition word_at (o : option ascii) : bool :=
  match o with
  | Some c => Chr.is_word c
  | None => false
  end.

(** Greedy repetition: one more round of [step] first, stopping second.  A
    round has to consume text (no pattern of the program repeats a body that
    can match the empty string), which bounds the rounds by [fuel]. *)
Fixpoint rep (step : mstate -> list mstate) (fuel lo : nat) (hi : option nat)
    (st : mstate) : list mstate :=
  let stop := if lo =? 0 then [st] else [] in
  match fuel with
  | O => stop
  | S fuel' =>
      let more :=
        match hi with
        | Some O => []
        | _ =>
            flat_map
              (fun st' =>
                 if length (ms_rest st') <? length (ms_rest st)
                 then rep step fuel' (pred lo) (option_map pred hi) st'
                 else [])
              (step st)
        end in
      more ++ stop
  end.

Definition consumed (st st' : mstate) : list ascii :=
  firstn (length (ms_rest st) - length (ms_rest st')) (ms_rest st).

(** All the ways [r] matches at [st], in the order a backtracking engine
    finds them. *)
Fixpoint run (ic : bool) (r : regex) (st : mstate) : list mstate :=
  match r with
  | Eps => [st]
  | Set_ neg items =>
      match ms_rest st with
      | c :: s' =>
          if set_has ic neg items c
          then [MState (Some c) s' (ms_caps st)]
          else []
      | [] => []
      end
  | Cat r1 r2 => flat_map (run ic r2) (run ic r1 st)
  | Alt r1 r2 => run ic r1 st ++ run ic r2 st
  | Rep lo hi r' => rep (run ic r') (S (length (ms_rest st))) lo hi st
  | Bnd =>
      if xorb (word_at (ms_prev st)) (word_at (head (ms_rest st)))
      then [st] else []
  | Bol => match ms_prev st with None => [st] | Some _ => [] end
  | Eol =>
      match ms_rest st with
      | [] => [st]
      | [c] => if Chr.at_code 10 c then [st] else []
      | _ => []
      end
  | Grp n r' =>
      map (fun st' =>
             MState (ms_prev st') (ms_rest st')
                    ((n, consumed st st') :: ms_caps st'))
          (run ic r' st)
  end.

(** A match object: [group(0)] and the captured groups. *)
Record rmatch : Type := RMatch {
    group0 : list ascii;
    captures : list (nat * list ascii)
  }.

(** [m.group(n)] for [n >= 1]; [None] when the group took no part. *)
Definition group (n : nat) (m : rmatch) : option (list ascii) :=
  snd <$> List.find (fun p => fst p =? n) (captures m).

Definition matches_at (ic : bool) (r : regex) (prev : option ascii)
    (s : list ascii) : list rmatch :=
  let st := MState prev s [] in
  map (fun st' => RMatch (consumed st st') (ms_caps st')) (run ic r st).

(** [pattern.match]: the match at the start of the subject. *)
Definition match_start (ic : bool) (r : regex) (s : list ascii)
  : option rmatch := head (matches_at ic r None s).

(** [re.search]: the leftmost match. *)
Fixpoint search_from (ic : bool) (r : regex) (prev : option ascii)
    (s : list ascii) : option rmatch :=
  match matches_at ic r prev s with
  | m :: _ => Some m
  | [] => match s with
          | [] => None
          | c :: s' => search_from ic r (Some c) s'
          end
  end.

Definition search (ic : bool) (r : regex) (s : list ascii) : option rmatch :=
  search_from ic r None s.

(** The subject cut into the pieces [re.sub] and [re.finditer] see: matches,
    and the characters between them.  After an empty match the engine asks
    for a non-empty one at the same place before moving on. *)
Inductive token : Type :=
  | TChar (c : ascii)
  | TMatch (m : rmatch).

Definition nonempty (m : rmatch) : bool :=
  match group0 m with [] => false | _ => true end.

Fixpoint scan (ic : bool) (r : regex) (prev : option ascii) (skip : nat)
    (s : list ascii) : list token :=
  match skip with
  | S k =>
      match s with
      | [] => []
      | c :: s' => scan ic r (Some c) k s'
      end
  | O =>
      let ms := matches_at ic r prev s in
      match ms with
      | [] =>
          match s with
          | [] => []
          | c :: s' => TChar c :: scan ic r (Some c) 0 s'
          end
      | m1 :: _ =>
          match length (group0 m1), s with
          | S k, c :: s' => TMatch m1 :: scan ic r (Some c) k s'
          | S _, [] => [TMatch m1]
          | O, [] => [TMatch m1]
          | O, c :: s' =>
              match List.find nonempty ms with
              | Some m2 =>
                  TMatch m1 :: TMatch m2
                    :: scan ic r (Some c) (length (group0 m2) - 1) s'
              | None => TMatch m1 :: TChar c :: scan ic r (Some c) 0 s'
              end
          end
      end
  end.

Definition tokens (ic : bool) (r : regex) (s : list ascii) : list token :=
  scan ic r None 0 s.

(** [re.finditer]. *)
Definition finditer (ic : bool) (r : regex) (s : list ascii) : list rmatch :=
  flat_map (fun t => match t with TMatch m => [m] | TChar _ => [] end)
           (tokens ic r s).

(** [re.sub(pattern, function, s)]. *)
Definition render (f : rmatch -> list ascii) (t : token) : list ascii :=
  match t with
  | TChar c => [c]
  | TMatch m => f m
  end.

Definition sub_fn (ic : bool) (r : regex) (f : rmatch -> list ascii)
    (s : list ascii) : list ascii :=
  flat_map (render f) (tokens ic r s).

(** [re.sub(pattern, repl, s)] for a replacement string without
    backslashes, which stands for itself (the generated names, the
    placeholders and the substitute links have none). *)
Definition sub (ic : bool) (r : regex) (repl : list ascii)
    (s : list ascii) : list ascii :=
  sub_fn ic r (fun _ => repl) s.

(** [re.sub] with a callback that reads the random source: the callbacks
    run from left to right. *)
Fixpoint render_st {S : Type} (f : rmatch -> S -> list ascii * S)
    (ts : list token) (s : S) : list ascii * S :=
  match ts with
  | [] => ([], s)
  | TChar c :: ts' =>
      let (out, s') := render_st f ts' s in (c :: out, s')
  | TMatch m :: ts' =>
      let (piece, s1) := f m s in
      let (out, s2) := render_st f ts' s1 in
      (piece ++ out, s2)
  end.

Definition sub_st {S : Type} (ic : bool) (r : regex)
    (f : rmatch -> S -> list ascii * S) (s : list ascii) (st : S)
  : list ascii * S :=
  render_st f (tokens ic r s) st.

End Re.

(** ** Python string operations on [string] *)

Module Py.

Definition lower (s : string) : string := text (lower_l (chars s)).
Definition upper (s : string) : string := text (upper_l (chars s)).

(** [s.strip()] and [s.strip(c)]. *)
Definition strip (s : string) : string := text (strip_l Chr.is_space (chars s)).
Definition strip_char (c : ascii) (s : string) : string :=
  text (strip_l (Ascii.eqb c) (chars s)).

Definition split (s : string) : list string := map text (split_l (chars s)).
Definition join (sep : string) (parts : list string) : string :=
  text (join_l (chars sep) (map chars parts)).

(** [needle in s]. *)
Definition contains (needle s : string) : bool :=
  contains_l (chars needle) (chars s).

(** [x in collection] for a list or set literal of strings. *)
Definition member (x : string) (l : list string) : bool :=
  existsb (String.eqb x) l.

(** Truth value of a string: empty strings are false. *)
Definition truthy (s : string) : bool :=
  match s with
  | EmptyString => false
  | String _ _ => true
  end.

Definition re_sub (ic : bool) (r : Re.regex) (repl s : string) : string :=
  text (Re.sub ic r (chars repl) (chars s)).

Definition re_sub_fn (ic : bool) (r : Re.regex) (f : Re.rmatch -> string)
    (s : string) : string :=
  text (Re.sub_fn ic r (fun m => chars (f m)) (chars s)).

Definition re_search (ic : bool) (r : Re.regex) (s : string)
  : option Re.rmatch := Re.search ic r (chars s).

Definition group0 (m : Re.rmatch) : string := text (Re.group0 m).
Definition group (n : nat) (m : Re.rmatch) : option string :=
  text <$> Re.group n m.

(** [s.isupper()]: some cased character, and none of them lower case. *)
Definition isupper (s : string) : bool :=
  existsb Chr.is_upper (chars s) && negb (existsb Chr.is_lower (chars s)).

(** [s.isdigit()]. *)
Definition isdigit (s : string) : bool :=
  truthy s && forallb Chr.is_digit (chars s).

(** [s[:n]]. *)
Definition slice (n : nat) (s : string) : string := text (firstn n (chars s)).

(** [s.replace(old, new)] for one character and for a non-empty [old]. *)
Definition replace_char (old new : ascii) (s : string) : string :=
  text (map (fun c => if Ascii.eqb c old then new else c) (chars s)).

Definition replace_str (old new s : string) : string :=
  re_sub false (Re.lit old) new s.

(** [re.findall] for a pattern without a group, and with one group. *)
Definition findall (ic : bool) (r : Re.regex) (s : string) : list string :=
  map group0 (Re.finditer ic r (chars s)).

Definition findall_group (ic : bool) (r : Re.regex) (s : string)
  : list string :=
  map (fun m => default "" (group 1 m)) (Re.finditer ic r (chars s)).

(** [re.match]. *)
Definition re_match (ic : bool) (r : Re.regex) (s : string)
  : option Re.rmatch := Re.match_start ic r (chars s).

(** [r'\b' + re.escape(s) + r'\b']. *)
Definition whole_word (s : string) : Re.regex :=
  Re.Cat Re.Bnd (Re.Cat (Re.lit s) Re.Bnd).

(** A string with one character given by its code point. *)
Definition acc (pre : string) (c : ascii) (post : string) : string :=
  pre +:+ String c post.

End Py.

(** ** Run state and the [random] module *)

(** What a run threads through its calls: how many numbers were read from
    the random source, and the set [used_names]. *)
Record state : Type := State {
    draws : nat;
    used_names : gset string
  }.

Definition St (A : Type) : Type := state -> A * state.

Definition ret {A : Type} (a : A) : St A := fun s => (a, s).

Definition bind {A B : Type} (c : St A) (k : A -> St B) : St B :=
  fun s => let (a, s') := c s in k a s'.

Notation "x <~ c ; k" := (bind c (fun x => k))
  (at level 20, c at level 100, k at level 200, only parsing).
Notation "' p <~ c ; k" := (bind c (fun x => let 'p := x in k))
  (at level 20, p pattern, c at level 100, k at level 200, only parsing).

Module Random.
Section Oracle.

(** The random source: the n-th number it hands out. *)
Variable rnd : nat -> N.

Definition next : St N :=
  fun s => (rnd (draws s), State (S (draws s)) (used_names s)).

(** [random.choice(seq)] for a non-empty sequence. *)
Definition choice {A : Type} (d : A) (seq : list A) : St A :=
  k <~ next ; ret (nth (N.to_nat (k mod N.of_nat (length seq))) seq d).

(** [random.randint(a, b)] for [a <= b]. *)
Definition randint (a b : Z) : St Z :=
  k <~ next ; ret (a + Z.of_N k mod (b - a + 1))%Z.

(** [random.shuffle(x)]:
    for i in reversed(range(1, len(x))): j = randbelow(i + 1); swap. *)
Definition swap {A : Type} (i j : nat) (x : list A) : list A :=
  match x !! i, x !! j with
  | Some xi, Some xj => <[j := xi]> (<[i := xj]> x)
  | _, _ => x
  end.

Fixpoint shuffle_from {A : Type} (i : nat) (x : list A) : St (list A) :=
  match i with
  | O => ret x
  | S i' =>
    k <~ next ;
    shuffle_from i' (swap i (N.to_nat (k mod N.of_nat (i + 1))) x)
  end.

Definition shuffle {A : Type} (x : list A) : St (list A) :=
  shuffle_from (length x - 1) x.

End Oracle.
End Random.

(** ** The tabular reader and writer

    [csv.DictReader] reads the header [fieldnames] from the first line and
    hands each later line over as a dict with one entry per field name: the
    text of the field, or [None] (the reader's [restval]) where the line has
    fewer fields than the header.  A key that is not in the dict is a column
    the header does not have.  [csv.DictWriter] writes the header and then
    the records, a [None] as an empty field, and raises [ValueError] on a
    record with a key that is not in [fieldnames].  The input has a header
    line and no line with more fields than the header. *)

Module Csv.

Abbreviation row := (gmap string (option string)).

Definition writable (fieldnames : list string) (r : row) : bool :=
  bool_decide (dom r ⊆ list_to_set fieldnames).

(** [writer.writeheader(); writer.writerows(rows)]: the header and the
    records that are written, where a [None] stands for the empty field the
    writer puts for it; no result for the [ValueError]. *)
Definition write (fieldnames : list string) (rows : list row)
  : option (list string * list row) :=
  if forallb (writable fieldnames) rows then Some (fieldnames, rows)
  else None.

(** The entries of one column, record by record: nothing for a record
    without the key, and else its value, a text or [None]. *)
Definition column (key : string) (rows : list row)
  : list (option (option string)) :=
  map (fun r : row => r !! key) rows.

End Csv.

(** ** anonymize_mentors.py *)

Module Mentors.

Import Py.

Definition HONORIFICS : list string := [
  "Dr."; "Prof."; "Mr."; "Ms."; "Mrs."
  ].

Definition FIRST_NAMES : list (string * list string) := [
    ("us", [
      "Michael"; "Jennifer"; "Robert"; "Sarah"; "David"; "Lisa"; "James";
      "Emily"; "John"; "Amanda"
    ]);
    ("mexico", [
      "Carlos"; (acc "Mar" "237" "a");
      (acc "Jos" "233" ""); "Gabriela"; "Luis"; "Ana"; "Miguel";
      (acc "Sof" "237" "a"); "Diego"; "Isabella"
    ]);
    ("china", [
      "Wei"; "Li"; "Ming"; "Yan"; "Chen"; "Hua"; "Jun"; "Xin"; "Jian"; "Mei"
    ]);
    ("india", [
      "Raj"; "Priya"; "Amit"; "Anjali"; "Arjun"; "Kavya"; "Rohan"; "Neha";
      "Vikram"; "Sanya"
    ])
  ].

Definition LAST_NAMES : list (string * list string) := [
    ("us", [
      "Smith"; "Johnson"; "Williams"; "Brown"; "Jones"; "Garcia"; "Miller";
      "Davis"; "Martinez"; "Rodriguez"
    ]);
    ("mexico", [
      (acc "Garc" "237" "a"); (acc "Rodr" "237" "guez");
      (acc "Mart" "237" "nez"); (acc "L" "243" "pez");
      (acc "Gonz" "225" "lez"); (acc "Hern" "225" "ndez");
      (acc "P" "233" "rez"); (acc "S" "225" "nchez");
      (acc "Ram" "237" "rez"); "Torres"
    ]);
    ("china", [
      "Wang"; "Li"; "Zhang"; "Liu"; "Chen"; "Yang"; "Huang"; "Zhao"; "Wu";
      "Zhou"
    ]);
    ("india", [
      "Sharma"; "Patel"; "Singh"; "Kumar"; "Reddy"; "Gupta"; "Mehta"; "Rao";
      "Iyer"; "Nair"
    ])
  ].

Definition technology_companies : list string := [
  "Google"; "Facebook"; "Meta"; "Amazon"; "Microsoft"; "Apple"; "Netflix";
  "Tesla"; "IBM"; "Oracle"; "Salesforce"; "Adobe"; "Intel"; "NVIDIA";
  "Cisco"; "Twitter"; "LinkedIn"; "Uber"; "Lyft"; "Airbnb"; "Stripe";
  "PayPal"; "Square"; "Snapchat"; "Pinterest"; "Reddit"; "Zoom"; "Slack";
  "Dropbox"; "Box"; "Spotify"; "Shopify"; "Atlassian"; "ServiceNow";
  "Workday"; "Zendesk"; "HubSpot"; "Twilio"; "Okta"; "Splunk"; "Datadog";
  "Snowflake"; "Palantir"; "Cloudflare"; "MongoDB"; "Elastic"; "Confluent";
  "HashiCorp"; "GitLab"; "GitHub"; "Bitbucket"; "Jira"; "Confluence";
  "Asana"; "Monday"; "Notion"; "Airtable"; "Figma"; "Canva"; "Miro";
  "Tableau"; "Looker"; "Domo"; "Qlik"; "MicroStrategy"; "SAS"; "New Relic";
  "AppDynamics"; "PagerDuty"; "Opsgenie"; "VictorOps"; "Docker";
  "Kubernetes"; "Jenkins"; "CircleCI"; "Travis"; "Harness"; "LaunchDarkly";
  "Optimizely"; "Amplitude"; "Mixpanel"; "Segment"; "Heap"; "FullStory";
  "LogRocket"; "Sentry"; "Rollbar"; "Bugsnag"; "Honeybadger"; "Nielsen";
  "Gartner"; "Forrester"; "VMware"; "Dell"; "HP"; "Lenovo"; "Asus"; "Acer";
  "Samsung"; "LG"; "Sony"; "Panasonic"; "Toshiba"; "Hitachi"; "Fujitsu";
  "NEC"; "Sharp"; "Motorola"; "Nokia"; "Ericsson"; "Alcatel"; "Huawei";
  "ZTE"; "Xiaomi"; "Oppo"; "Vivo"; "OnePlus"; "Realme"; "Meizu";
  "Everfest"; "uShip"; "Matterport"; "WastePlace"; "ModuleMD"; "CustomInk";
  "BuyWithMe"; "FamilyID"; "WeWork"; "OpenDoor"; "HotelTonight";
  "GoFundMe"; "CrowdStrike"; "AppZen"; "MapMyFitness"; "MapMyRun";
  "SunGard"; "OrderMyGear"; "ProsperOps"; "RedBumper"; "FeedMagnet";
  "EdSight"; "ZeroBlock"; "WestExec"; "NovaCentrix"; "MachineCore";
  "BuildGroup"; "BreakingPoint"; "ThermoAI"; "SuperData"; "Seeoloz"; "NXP"
  ].

Definition financial_institutions : list string := [
  "Goldman Sachs"; "Morgan Stanley"; "JPMorgan"; "Citigroup";
  "Bank of America"; "Wells Fargo"; "Credit Suisse"; "Deutsche Bank";
  "Barclays"; "HSBC"; "UBS"; "Citi"; "Chase"; "Fidelity"; "Vanguard";
  "BlackRock"; "State Street"; "Charles Schwab"; "TD Ameritrade";
  "E-Trade"; "Robinhood"; "Coinbase"; "Kraken"; "Gemini"; "Binance";
  "Bitfinex"
  ].

Definition consulting_firms : list string := [
  "McKinsey"; "BCG"; "Bain"; "Deloitte"; "PwC"; "KPMG"; "EY"; "Accenture";
  "Booz Allen"; "Oliver Wyman"; "AT Kearney"; "Roland Berger"
  ].

Definition insurance_companies : list string := [
  "Aflac"; "Allstate"; "State Farm"; "Geico"; "Progressive"; "Farmers";
  "Liberty Mutual"; "Travelers"; "Nationwide"; "USAA"; "MetLife";
  "Prudential"; "AIG"; "Chubb"
  ].

Definition known_entities : list (string * string) :=
  map (fun e => (e, "[Technology Company]")) technology_companies
  ++ map (fun e => (e, "[Financial Institution]")) financial_institutions
  ++ map (fun e => (e, "[Consulting Firm]")) consulting_firms
  ++ map (fun e => (e, "[Insurance Company]")) insurance_companies.

(** [FIRST_NAMES[region]]. *)
Definition names_of (table : list (string * list string)) (region : string)
  : list string :=
  match List.find (fun p => String.eqb (fst p) region) table with
  | Some p => snd p
  | None => []
  end.

Definition extract_honorific (name : string) : option string * string :=
  let name := strip name in
  let fix go (hs : list string) : option string * string :=
    match hs with
    | [] => (None, name)
    | honorific :: hs' =>
        match strip_prefix (chars honorific) (chars name) with
        | Some rest => (Some honorific, strip (text rest))
        | None => go hs'
        end
    end in
  go HONORIFICS.

(** The pattern "\b[A-Z][a-z]+[A-Z][a-z]*" "(?:[A-Z][a-z]*" ")*\b" (written
    here in three pieces). *)
Definition camel_case_pattern : Re.regex :=
  Re.cat [Re.Bnd; Re.cls [Re.upper_az]; Re.plus (Re.cls [Re.lower_az]);
          Re.cls [Re.upper_az]; Re.star (Re.cls [Re.lower_az]);
          Re.star (Re.Cat (Re.cls [Re.upper_az])
                          (Re.star (Re.cls [Re.lower_az])));
          Re.Bnd].

Definition replace_camel_case (m : Re.rmatch) : string :=
  let entity := group0 m in
  if member entity ["PhD"; "MBA"; "CTO"; "CEO"; "CFO"] then entity
  else if member entity
            ["Technology"; "Company"; "Financial"; "Institution";
             "Consulting"; "Firm"; "Insurance"; "Investment"; "Network";
             "University"]
  then entity
  else "[Technology Company]".

(** "\b[A-Z]{3,}\b" *)
Definition acronym_pattern : Re.regex :=
  Re.cat [Re.Bnd; Re.atleast 3 (Re.cls [Re.upper_az]); Re.Bnd].

Definition common_acronyms : list string :=
  ["MBA"; "PhD"; "CEO"; "CFO"; "CTO"; "COO"; "VP"; "SVP"; "EVP";
   "CPA"; "CFA"; "JD"; "MD"; "RN"; "BS"; "BA"; "MS"; "MA";
   "USA"; "NYC"; "IT"; "AI"; "ML"; "API"; "AWS"; "SaaS"; "BI";
   "SEO"; "SQL"; "NoSQL"; "IoT"; "R&D"; "M&A"; "HR"; "PR";
   "STEM"; "SBIR"; "STTR"; "NSF"; "CBM"; "ASA"; "MAAA"; "CRM";
   "AUM"; "AVs"; "HVAC"; "DEC"; "HRTech"; "InsurTech"; "AgTech";
   "MAU"; "FTE"].

Definition replace_acronym (m : Re.rmatch) : string :=
  let entity := group0 m in
  if member entity common_acronyms then entity
  else "[Technology Company]".

(** "\b(?:[A-Z][a-z]+\s+){1,4}(?:[A-Z][a-z]+|[A-Z]{2,})\b" *)
Definition multiword_pattern : Re.regex :=
  Re.cat [Re.Bnd;
          Re.Rep 1 (Some 4)
            (Re.cat [Re.cls [Re.upper_az]; Re.plus (Re.cls [Re.lower_az]);
                     Re.plus (Re.cls [Re.Spc])]);
          Re.Alt (Re.Cat (Re.cls [Re.upper_az])
                         (Re.plus (Re.cls [Re.lower_az])))
                 (Re.atleast 2 (Re.cls [Re.upper_az]));
          Re.Bnd].

Definition stopwords : Re.regex :=
  Re.Grp 1 (Re.alt (map Re.lit
    ["the"; "a"; "an"; "in"; "on"; "at"; "to"; "for"; "of"; "and"; "or";
     "but"])).

(** "^(the|a|an|in|on|at|to|for|of|and|or|but)\s" and
    "\s(the|a|an|in|on|at|to|for|of|and|or|but)$" *)
Definition skip_patterns : list Re.regex :=
  [Re.cat [Re.Bol; stopwords; Re.cls [Re.Spc]];
   Re.cat [Re.cls [Re.Spc]; stopwords; Re.Eol]].

Definition any_in (words : list string) (s : string) : bool :=
  existsb (fun word => contains word s) words.

Definition replace_multiword (m : Re.rmatch) : string :=
  let entity := group0 m in
  let entity_lower := lower entity in
  if existsb (fun pattern => bool_decide (is_Some (re_search false pattern entity_lower)))
             skip_patterns
  then entity
  else if any_in ["university"; "college"; "school"; "institute"] entity_lower
  then "[University]"
  else if any_in ["bank"; "financial"; "capital"; "ventures"; "partners";
                  "investment"; "fund"; "equity"] entity_lower
  then "[Financial Institution]"
  else if any_in ["consulting"; "advisors"; "advisory"] entity_lower
  then "[Consulting Firm]"
  else if any_in ["insurance"; "life"] entity_lower
  then "[Insurance Company]"
  else if contains "angel" entity_lower && contains "network" entity_lower
  then "[Investment Network]"
  else "[Technology Company]".

(** "https?://[^\s,]+" and "www\.[^\s,]+" *)
Definition url_pattern : Re.regex :=
  Re.cat [Re.lit "http"; Re.opt (Re.chr "s"); Re.lit "://";
          Re.plus (Re.ncls [Re.Spc; Re.One ","])].
Definition www_pattern : Re.regex :=
  Re.cat [Re.lit "www."; Re.plus (Re.ncls [Re.Spc; Re.One ","])].

(** "\b[A-Za-z0-9._%+-]+@[A-Za-z0-9.-]+\.[A-Z|a-z]{2,}\b" *)
Definition email_pattern : Re.regex :=
  Re.cat [Re.Bnd;
          Re.plus (Re.cls [Re.upper_az; Re.lower_az; Re.digit09; Re.One ".";
                           Re.One "_"; Re.One "%"; Re.One "+"; Re.One "-"]);
          Re.chr "@";
          Re.plus (Re.cls [Re.upper_az; Re.lower_az; Re.digit09; Re.One ".";
                           Re.One "-"]);
          Re.chr ".";
          Re.atleast 2 (Re.cls [Re.upper_az; Re.One "|"; Re.lower_az]);
          Re.Bnd].

(** "\b\d{3}[-.]?\d{3}[-.]?\d{4}\b" and "\(\d{3}\)\s*\d{3}[-.]?\d{4}" *)
Definition dash_dot : Re.regex := Re.opt (Re.cls [Re.One "-"; Re.One "."]).
Definition phone_pattern : Re.regex :=
  Re.cat [Re.Bnd; Re.times 3 (Re.cls [Re.Dig]); dash_dot;
          Re.times 3 (Re.cls [Re.Dig]); dash_dot;
          Re.times 4 (Re.cls [Re.Dig]); Re.Bnd].
Definition phone_paren_pattern : Re.regex :=
  Re.cat [Re.chr "("; Re.times 3 (Re.cls [Re.Dig]); Re.chr ")";
          Re.star (Re.cls [Re.Spc]); Re.times 3 (Re.cls [Re.Dig]); dash_dot;
          Re.times 4 (Re.cls [Re.Dig])].

Definition anonymize_bio
    (bio original_name new_first_name new_last_name new_full_name : string)
  : string :=
  if negb (truthy bio) then bio else
  let text := bio in
  let '(_, name_without_honorific) := extract_honorific original_name in
  let name_parts := split name_without_honorific in
  let text :=
    match name_parts with
    | first_name :: _ :: _ =>
        let last_name := join " " (tail name_parts) in
        let text := re_sub true (whole_word name_without_honorific)
                           new_full_name text in
        let text := re_sub true (whole_word first_name) new_first_name text in
        re_sub true (whole_word last_name) new_last_name text
    | [single] => re_sub true (whole_word single) new_full_name text
    | [] => text
    end in
  let text :=
    fold_left (fun text '(entity, replacement) =>
                 re_sub true (whole_word entity) replacement text)
              known_entities text in
  let text := re_sub_fn false camel_case_pattern replace_camel_case text in
  let text := re_sub_fn false acronym_pattern replace_acronym text in
  let text := re_sub_fn false multiword_pattern replace_multiword text in
  let text := re_sub false url_pattern "[website]" text in
  let text := re_sub false www_pattern "[website]" text in
  let text := re_sub false email_pattern "[email]" text in
  let text := re_sub false phone_pattern "[phone]" text in
  let text := re_sub false phone_paren_pattern "[phone]" text in
  text.

Section WithOracle.

Variable rnd : nat -> N.

Definition name_in_use (name : string) : St bool :=
  fun s => (bool_decide (name ∈ used_names s), s).

Definition mark_used (name : string) : St unit :=
  fun s => (tt, State (draws s) ({[name]} ∪ used_names s)).

Definition count_used : St nat :=
  fun s => (size (used_names s), s).

(** The [for _ in range(max_attempts)] loop of [generate_random_name];
    [None] when it runs out of attempts. *)
Fixpoint random_name_attempts (attempts : nat)
  : St (option (string * string * string)) :=
  match attempts with
  | O => ret None
  | S attempts' =>
    region <~ Random.choice rnd "" (map fst FIRST_NAMES) ;
    first <~ Random.choice rnd "" (names_of FIRST_NAMES region) ;
    last <~ Random.choice rnd "" (names_of LAST_NAMES region) ;
    let full_name := first +:+ " " +:+ last in
    taken <~ name_in_use full_name ;
    if taken then random_name_attempts attempts'
    else _ <~ mark_used full_name ; ret (Some (first, last, full_name))
  end.

Definition max_attempts : nat := 1000.

Definition generate_random_name : St (string * string * string) :=
  found <~ random_name_attempts max_attempts ;
  match found with
  | Some name => ret name
  | None =>
    n <~ count_used ;
    let fallback := "Person " +:+ str_of_nat (n + 1) in
    ret (fallback, "", fallback)
  end.

(** The body of the [for row in reader] loop.  [row.get('Full Name', '')]
    is [None] for a record too short to have the field, and
    [extract_honorific] then raises [AttributeError] on [name.strip()]: the
    result is [None].  [anonymize_bio] returns a [None] bio as it is. *)
Definition anonymize_row (row : Csv.row) : St (option Csv.row) :=
  match default (Some "") (row !! "Full Name") with
  | None => ret None
  | Some original_name =>
  let '(honorific, name_without_honorific) :=
  extract_honorific original_name in
  '(new_first, new_last, new_full) <~ generate_random_name ;
  let new_name_with_honorific :=
  match honorific with
  | Some h => if truthy h then h +:+ " " +:+ new_full else new_full
  | None => new_full
  end in
  let row := <["Full Name" := Some new_name_with_honorific]> row in
  let row :=
  match row !! "Bio" with
  | Some bio =>
      <["Bio" := (fun bio => anonymize_bio bio original_name new_first
                                           new_last new_full) <$> bio]> row
  | None => row
  end in
  ret (Some row)
  end.

(** The loop; an exception in one record ends the run. *)
Fixpoint anonymize_rows (rows : list Csv.row) : St (option (list Csv.row)) :=
  match rows with
  | [] => ret (Some [])
  | row :: rows' =>
    result <~ anonymize_row row ;
    match result with
    | None => ret None
    | Some row' =>
      rest <~ anonymize_rows rows' ;
      ret (cons row' <$> rest)
    end
  end.

(** [used_names = set()] *)
Definition fresh_used_names : St unit :=
  fun s => (tt, State (draws s) ∅).

(** [anonymize_csv], from the records read to the records written;
    [None] when the run ends in an exception. *)
Definition anonymize_csv (fieldnames : list string) (records : list Csv.row)
  : St (option (list string * list Csv.row)) :=
  _ <~ fresh_used_names ;
  rows <~ anonymize_rows records ;
  ret (rows ≫= Csv.write fieldnames).

End WithOracle.

End Mentors.

(** ** Python floats

    IEEE 754 binary64 values with round-to-nearest-even, as the operations
    of [SpecFloat] give them. *)

Module Float.

Definition prec : Z := 53.
Definition emax : Z := 1024.

(** [float(n)] for an integer. *)
Definition of_Z (z : Z) : spec_float := binary_normalize prec emax z 0 false.

Definition mul : spec_float -> spec_float -> spec_float := SFmul prec emax.
Definition div : spec_float -> spec_float -> spec_float := SFdiv prec emax.
Definition add : spec_float -> spec_float -> spec_float := SFadd prec emax.
Definition sub : spec_float -> spec_float -> spec_float := SFsub prec emax.

(** [x >= y] *)
Definition geb (x y : spec_float) : bool := SFleb y x.

(** The float nearest to [num / den]. *)
Definition ratio (num den : positive) : spec_float :=
  div (S754_finite false num 0) (S754_finite false den 0).

(** The text before the first ".", and the text after it if there is one. *)
Fixpoint cut_dot (s : list ascii) : list ascii * option (list ascii) :=
  match s with
  | [] => ([], None)
  | c :: s' =>
      if Chr.at_code 46 c then ([], Some s')
      else let (ip, fp) := cut_dot s' in (c :: ip, fp)
  end.

(** [float(s)] for [s] made of decimal digits and ".", the only strings
    the amount pattern hands over once the commas are gone; [None] is
    [ValueError]. *)
Definition of_string (s : list ascii) : option spec_float :=
  let (ip, fp) := cut_dot s in
  let fp := default [] fp in
  if forallb Chr.is_digit09 ip && forallb Chr.is_digit09 fp
     && negb (length (ip ++ fp) =? 0)
  then Some match int_digits (ip ++ fp) with
            | N0 => S754_zero false
            | Npos p => ratio p (Z.to_pos (10 ^ Z.of_nat (length fp)))
            end
  else None.

Definition round_half_even (num den : Z) : Z :=
  let q := (num / den)%Z in
  match (2 * (num mod den) ?= den)%Z with
  | Lt => q
  | Gt => (q + 1)%Z
  | Eq => if Z.even q then q else (q + 1)%Z
  end.

(** [m * 2^e * 10^d] rounded to an integer. *)
Definition scaled (d : nat) (m : positive) (e : Z) : Z :=
  let n := (Z.pos m * 10 ^ Z.of_nat d)%Z in
  if (0 <=? e)%Z then (n * 2 ^ e)%Z else round_half_even n (2 ^ (- e))%Z.

Fixpoint zeros (n : nat) : string :=
  match n with
  | O => ""
  | S n' => String "0" (zeros n')
  end.

(** The digits of [n] with a decimal point before the last [d] of them. *)
Definition fixed_digits (d : nat) (n : Z) : string :=
  let unit := (10 ^ Z.of_nat d)%Z in
  let ip := str_of_N (Z.to_N (n / unit)) in
  match d with
  | O => ip
  | _ =>
      let fp := str_of_N (Z.to_N (n mod unit)) in
      ip +:+ "." +:+ zeros (d - String.length fp) +:+ fp
  end.

(** [f"{x:.{d}f}"] *)
Definition format_fixed (d : nat) (x : spec_float) : string :=
  let sign (s : bool) : string := if s then "-" else "" in
  match x with
  | S754_nan => "nan"
  | S754_infinity s => sign s +:+ "inf"
  | S754_zero s => sign s +:+ fixed_digits d 0
  | S754_finite s m e => sign s +:+ fixed_digits d (scaled d m e)
  end.

End Float.

Module RandomFloat.
Section Oracle.

Variable rnd : nat -> N.

(** [random.random()]: a multiple of 2^-53 in [0, 1). *)
Definition random : St spec_float :=
  k <~ Random.next rnd ;
  ret (binary_normalize Float.prec Float.emax
       (Z.of_N k mod 2 ^ 53)%Z (-53)%Z false).

(** [random.uniform(a, b)]: [a + (b - a) * random()]. *)
Definition uniform (a b : spec_float) : St spec_float :=
  r <~ random ;
  ret (Float.add a (Float.mul (Float.sub b a) r)).

End Oracle.
End RandomFloat.

(** ** anonymize_portfolio.py *)

Module Portfolio.

Import Py.

Definition PREFIXES : list string := [
  "Quantum"; "Stellar"; "Nexus"; "Apex"; "Vertex"; "Synergy"; "Fusion";
  "Pinnacle"; "Nova"; "Zenith"; "Prime"; "Atlas"; "Titan"; "Phoenix";
  "Orion"; "Echo"; "Pulse"; "Spark"; "Flux"; "Prism"; "Vortex"; "Ember";
  "Horizon"; "Catalyst"; "Lumina"; "Cipher"; "Matrix"; "Vector"; "Helix";
  "Nexum"; "Axiom"; "Zenon"
  ].

Definition SUFFIXES : list string := [
  "Tech"; "Labs"; "Systems"; "Solutions"; "Dynamics"; "Works";
  "Innovations"; "Digital"; "Analytics"; "Networks"; "Platform"; "Data";
  "Cloud"; "AI"; "Robotics"; "Energy"; "Medical"; "Health"; "Finance";
  "Security"; "Vision"; "Media"; "Logic"; "Flow"; "Core"; "Hub"; "Link";
  "Wave"; "Pulse"; "Sync"
  ].

Definition STANDALONE_NAMES : list string := [
  "Brightpath"; "Clearview"; "Swiftline"; "Truepoint"; "Mindshift";
  "Skyward"; "Groundwork"; "Firefly"; "Blueprint"; "Keystone"; "Milestone";
  "Touchstone"; "Cornerstone"; "Redwood"; "Bluestream"; "Greenfield";
  "Whitespace"; "Blackstone"; "Silverlake"; "Goldmine"; "Irongate";
  "Steelbridge"; "Copperleaf"; "Platinum"
  ].


(** "\bInc\.?", "\bLLC", "\bLtd\.?", "\bCorp\.?", "\bCo\.?", "\bGmbH",
    "\bPLC" *)
Definition dotted (word : string) : Re.regex :=
  Re.Cat (Re.lit word) (Re.opt (Re.chr ".")).

Definition suffixes : list Re.regex :=
  [Re.Cat Re.Bnd (dotted "Inc"); Re.Cat Re.Bnd (Re.lit "LLC");
   Re.Cat Re.Bnd (dotted "Ltd"); Re.Cat Re.Bnd (dotted "Corp");
   Re.Cat Re.Bnd (dotted "Co"); Re.Cat Re.Bnd (Re.lit "GmbH");
   Re.Cat Re.Bnd (Re.lit "PLC")].

Fixpoint first_match (patterns : list Re.regex) (s : string)
  : option string :=
  match patterns with
  | [] => None
  | suffix_pattern :: rest =>
      match re_search true suffix_pattern s with
      | Some m => Some (group0 m)
      | None => first_match rest s
      end
  end.

Definition preserve_suffix (original_name : string) : option string :=
  first_match suffixes original_name.

(** "\b(Inc\.?|LLC|Ltd\.?|Corp\.?|Co\.?|GmbH|PLC)\b" *)
Definition corporate_suffix : Re.regex :=
  Re.cat [Re.Bnd;
          Re.Grp 1 (Re.alt [dotted "Inc"; Re.lit "LLC"; dotted "Ltd";
                            dotted "Corp"; dotted "Co"; Re.lit "GmbH";
                            Re.lit "PLC"]);
          Re.Bnd].

(** "[^a-z0-9\s-]" *)
Definition not_slug_char : Re.regex :=
  Re.ncls [Re.lower_az; Re.digit09; Re.Spc; Re.One "-"].

Definition normalize_to_slug (name : string) : string :=
  let name := re_sub true corporate_suffix "" name in
  let slug := lower name in
  let slug := re_sub false not_slug_char "" slug in
  let slug := re_sub false (Re.plus (Re.cls [Re.Spc])) "-" slug in
  let slug := re_sub false (Re.plus (Re.chr "-")) "-" slug in
  let slug := strip_char "-" slug in
  slug.

(** "\$([0-9,]+(?:\.[0-9]+)?)\s*"
    "([BMKTbmkt]|[Mm]illion|[Bb]illion|[Tt]rillion)?" *)
Definition amount_pattern : Re.regex :=
  Re.cat [Re.chr "$";
          Re.Grp 1 (Re.Cat (Re.plus (Re.cls [Re.digit09; Re.One ","]))
                           (Re.opt (Re.Cat (Re.chr ".")
                                           (Re.plus (Re.cls [Re.digit09])))));
          Re.star (Re.cls [Re.Spc]);
          Re.opt (Re.Grp 2 (Re.alt
            [Re.cls [Re.One "B"; Re.One "M"; Re.One "K"; Re.One "T";
                     Re.One "b"; Re.One "m"; Re.One "k"; Re.One "t"];
             Re.Cat (Re.cls [Re.One "M"; Re.One "m"]) (Re.lit "illion");
             Re.Cat (Re.cls [Re.One "B"; Re.One "b"]) (Re.lit "illion");
             Re.Cat (Re.cls [Re.One "T"; Re.One "t"]) (Re.lit "rillion")]))].

(** [amount_str]: group 1 without its commas. *)
Definition amount_str (m : Re.rmatch) : list ascii :=
  List.filter (fun c => negb (Chr.at_code 44 c)) (default [] (Re.group 1 m)).

(** [suffix]: group 2, or the empty string. *)
Definition suffix_of (m : Re.rmatch) : string :=
  match group 2 m with
  | Some g => if truthy g then g else ""
  | None => ""
  end.

Definition multiplier_of (suffix : string) : Z :=
  let up := upper suffix in
  if String.eqb up "K" then 1000%Z
  else if String.eqb up "M" then 1000000%Z
  else if String.eqb up "B" then 1000000000%Z
  else if member up ["T"; "TRILLION"] then 1000000000000%Z
  else 1%Z.

(** The [if]/[elif] chain that renders [new_amount]. *)
Definition format_amount (new_amount : spec_float) : string :=
  let over (n : Z) := Float.geb new_amount (Float.of_Z n) in
  let scaled (n : Z) := Float.format_fixed 1 (Float.div new_amount (Float.of_Z n)) in
  if over 1000000000000%Z then "$" +:+ scaled 1000000000000%Z +:+ "T"
  else if over 1000000000%Z then "$" +:+ scaled 1000000000%Z +:+ "B"
  else if over 1000000%Z then "$" +:+ scaled 1000000%Z +:+ "M"
  else if over 1000%Z then "$" +:+ scaled 1000%Z +:+ "K"
  else "$" +:+ Float.format_fixed 0 new_amount.

Definition point67 : spec_float := Float.ratio 67 100.
Definition one33 : spec_float := Float.ratio 133 100.

(** "\b(20\d{2})\b" *)
Definition year_pattern : Re.regex :=
  Re.cat [Re.Bnd;
          Re.Grp 1 (Re.Cat (Re.lit "20") (Re.times 2 (Re.cls [Re.Dig])));
          Re.Bnd].

(** The window [random.randint] draws the new year from. *)
Definition year_window (year : Z) : Z * Z :=
  let min_year := Z.max 2010 (year - 5)%Z in
  let max_year := Z.min 2025 (year + 5)%Z in
  if (min_year >? max_year)%Z then (max_year, min_year)
  else (min_year, max_year).

Definition str_of_Z (z : Z) : string := str_of_N (Z.to_N z).

(** *** anonymize_description *)

Definition common_words : list string := [
  "A"; "An"; "The"; "In"; "On"; "At"; "To"; "For"; "Of"; "And"; "Or";
  "But"; "As"; "By"; "With"; "From"; "About"; "Into"; "Through"; "During";
  "Before"; "After"; "Above"; "Below"; "Up"; "Down"; "Out"; "Off"; "Over";
  "Under"; "Again"; "Further"; "Then"; "Once"; "Here"; "There"; "When";
  "Where"; "Why"; "How"; "All"; "Both"; "Each"; "Few"; "More"; "Most";
  "Other"; "Some"; "Such"; "No"; "Nor"; "Not"; "Only"; "Own"; "Same"; "So";
  "Than"; "Too"; "Very"; "Can"; "Will"; "Just"; "Should"; "Now"; "Our";
  "We"; "They"; "He"; "She"; "It"; "I"; "You"; "Your"; "Their"; "His";
  "Her"; "Its"; "My"; "This"; "That"; "These"; "Those"; "What"; "Which";
  "Who"; "Whom"; "CEO"; "CTO"; "CFO"; "COO"; "VP"; "Director"; "Manager";
  "President"; "Chief"; "Senior"; "Junior"; "Lead"; "Head"; "Executive";
  "Officer"; "Team"; "Company"; "Business"; "Product"; "Service";
  "Platform"; "Technology"; "Software"; "Hardware"; "System"; "Solution";
  "Tool"; "Application"; "App"; "Website"; "Site"; "Network"; "Digital";
  "Online"; "Mobile"; "Cloud"; "Data"; "AI"; "ML"; "Analytics"; "API";
  "SDK"; "SaaS"; "PaaS"; "IaaS"; "IoT"; "VR"; "AR"; "XR"; "B2B"; "B2C";
  "B2G"; "SEO"; "SEM"; "CRM"; "ERP"; "CMS"; "SQL"; "NoSQL"; "AWS"; "Azure";
  "GCP"; "Austin"; "Dallas"; "Houston"; "Texas"; "California"; "York";
  "America"; "US"; "USA"; "United"; "States"; "San"; "Francisco"; "Los";
  "Angeles"; "Seattle"; "Boston"; "Chicago"; "Denver"; "Atlanta"; "Miami";
  "Phoenix"; "Portland"; "First"; "Last"; "Next"; "New"; "Old"; "Good";
  "Better"; "Best"; "Great"; "Leading"; "Top"; "World"; "Global";
  "International"; "National"; "Local"; "Enterprise"; "Consumer";
  "Commercial"; "Industrial"; "Professional"; "Advanced"; "Modern";
  "Smart"; "Innovative"; "Revolutionary"; "Cutting"; "Edge"; "State";
  "Art"; "Industry"; "Market"; "Sector"; "Space"; "Field"; "Area";
  "Domain"; "Vertical"; "Horizontal"; "End"; "User"; "Customer"; "Client";
  "Partner"; "Vendor"; "Provider"; "Supplier"; "Developer"; "Year";
  "Years"; "Month"; "Months"; "Day"; "Days"; "Week"; "Weeks"; "January";
  "February"; "March"; "April"; "May"; "June"; "July"; "August";
  "September"; "October"; "November"; "December"; "Monday"; "Tuesday";
  "Wednesday"; "Thursday"; "Friday"; "Saturday"; "Sunday"; "Dr"; "Mr";
  "Ms"; "Mrs"; "Prof"; "Inc"; "LLC"; "Ltd"; "Corp"; "Co"
  ].

Definition sentence_starters : list string := [
  "Following"; "Often"; "Despite"; "Instead"; "Thus"; "Based";
  "Additionally"; "However"; "Therefore"; "Furthermore"; "Moreover";
  "Meanwhile"; "Currently"; "Recently"; "Finally"; "Initially";
  "Generally"; "Typically"; "Essentially"; "Specifically"; "Particularly";
  "Notably"; "Importantly"; "Fortunately"; "Unfortunately"; "Existing";
  "Since"; "While"; "Although"; "Because"; "Through"; "During"; "After";
  "Before"; "Within"; "Without"; "Beyond"; "Americans"; "People"; "Users";
  "Customers"; "Clients"; "Companies"; "Businesses"; "Organizations";
  "Individuals"; "Teams"; "Members"; "Force"; "Navy"; "Army"; "Marines";
  "Coast"; "Guard"; "Founded"
  ].

(** The double quote, and the class the source writes as three double
    quotes between brackets. *)
Definition dq : ascii := "034".
Definition quote_class : Re.regex := Re.cls [Re.One dq; Re.One dq; Re.One dq].

(** A pattern between two quote classes, and the string [f'"{s}"']. *)
Definition in_quotes (r : Re.regex) : Re.regex :=
  Re.cat [quote_class; r; quote_class].
Definition quoted (s : string) : string := String dq (s +:+ String dq "").

(** "https?://[^\s,)\]]+" and "www\.[^\s,)\]]+" *)
Definition link_char : Re.regex :=
  Re.ncls [Re.Spc; Re.One ","; Re.One ")"; Re.One "]"].
Definition url_pattern : Re.regex :=
  Re.cat [Re.lit "http"; Re.opt (Re.chr "s"); Re.lit "://"; Re.plus link_char].
Definition www_pattern : Re.regex :=
  Re.cat [Re.lit "www."; Re.plus link_char].

(** "\b([A-Z][a-z]+)/([a-z])" followed by the registered sign U+00AE. *)
Definition trademark_pattern : Re.regex :=
  Re.cat [Re.Bnd;
          Re.Grp 1 (Re.Cat (Re.cls [Re.upper_az]) (Re.plus (Re.cls [Re.lower_az])));
          Re.chr "/"; Re.Grp 2 (Re.cls [Re.lower_az]); Re.chr "174"].

(** "([A-Z][a-z]+(?:-[A-Z][a-z]+)?)" and the three patterns
    "^At\s+(...)," "^(...)\s+is\s+" "^(...)\s+was\s+" *)
Definition capitalized : Re.regex :=
  Re.Cat (Re.cls [Re.upper_az]) (Re.plus (Re.cls [Re.lower_az])).
Definition company_token : Re.regex :=
  Re.Grp 1 (Re.Cat capitalized (Re.opt (Re.Cat (Re.chr "-") capitalized))).
Definition spaces : Re.regex := Re.plus (Re.cls [Re.Spc]).
Definition beginning_patterns : list Re.regex :=
  [Re.cat [Re.Bol; Re.lit "At"; spaces; company_token; Re.chr ","];
   Re.cat [Re.Bol; company_token; spaces; Re.lit "is"; spaces];
   Re.cat [Re.Bol; company_token; spaces; Re.lit "was"; spaces]].

(** The quote class around "([A-Z0-9-]+)". *)
Definition quote_pattern : Re.regex :=
  in_quotes (Re.Grp 1 (Re.plus (Re.cls [Re.upper_az; Re.digit09; Re.One "-"]))).

(** The quote class around a group: "[A-Z]" then "[a-zA-Z0-9/-]" any
    number of times, a set that also holds the registered sign U+00AE and
    the trade mark sign U+2122; the latter is no character of the model. *)
Definition product_quote_pattern : Re.regex :=
  in_quotes
    (Re.Grp 1 (Re.Cat (Re.cls [Re.upper_az])
                      (Re.star (Re.cls [Re.lower_az; Re.upper_az; Re.digit09;
                                        Re.One "/"; Re.One "174";
                                        Re.One "-"])))).

(** What one word adds to an acronym: its first character when that is a
    digit (if digits are kept), its upper case when it is a letter. *)
Definition initial (keep_digits : bool) (word : string) : list ascii :=
  match chars word with
  | c :: _ =>
      if keep_digits && Chr.is_digit c then [c]
      else if Chr.is_alpha c then [Chr.upper c]
      else []
  | [] => []
  end.

Definition acronym_of (words : list string) : string :=
  text (flat_map (initial true) words).

(** The text without line breaks, runs of white space collapsed. *)
Definition flatten_whitespace (s : string) : string :=
  let s := replace_char "010" " " s in
  let s := replace_char "013" " " s in
  strip (re_sub false (Re.plus (Re.cls [Re.Spc])) " " s).

(** The name without corporate suffix: [base_original], [base_new]. *)
Definition base_name (name : string) : string :=
  strip (re_sub true corporate_suffix "" name).

(** One round of "for pattern in beginning_patterns". *)
Definition beginning_round (base_original base_new : string) (text : string)
    (pattern : Re.regex) : string :=
  let text :=
    match re_search false pattern text with
    | Some m =>
        let company_variant := default "" (group 1 m) in
        re_sub false (whole_word company_variant) base_new text
    | None => text
    end in
  let words := split base_original in
  let text :=
    if 2 <=? length words then
      let acronym := acronym_of words in
      if truthy acronym && (2 <=? String.length acronym) then
        let new_acronym := acronym_of (split base_new) in
        let shown := if truthy new_acronym then new_acronym else base_new in
        let text := re_sub false (whole_word acronym) shown text in
        re_sub false (in_quotes (Re.lit acronym)) (quoted shown) text
      else text
    else text in
  let matches := findall_group false quote_pattern (slice 200 text) in
  let text :=
    fold_left
      (fun text mt =>
         if (String.length mt <=? 10) && isupper mt then
           let new_abbrev_parts := flat_map (initial false) (split base_new) in
           let new_abbrev :=
             match new_abbrev_parts with
             | [] => upper (slice 3 base_new)
             | _ => string_of_list_ascii new_abbrev_parts
             end in
           let text := re_sub false (whole_word mt) new_abbrev text in
           re_sub false (in_quotes (Re.lit mt)) (quoted new_abbrev) text
         else text)
      matches text in
  let product_matches :=
    findall_group false product_quote_pattern (slice 300 text) in
  fold_left
    (fun text mt =>
       if isupper mt && (String.length mt <=? 10) then text
       else re_sub false (in_quotes (Re.lit mt)) (quoted "[Product]") text)
    product_matches text.

(** "^[A-Z][a-z]*[A-Z]" and "^[A-Z][a-z]+$" *)
Definition camel_start : Re.regex :=
  Re.cat [Re.Bol; Re.cls [Re.upper_az]; Re.star (Re.cls [Re.lower_az]);
          Re.cls [Re.upper_az]].
Definition plain_capitalized : Re.regex :=
  Re.cat [Re.Bol; Re.cls [Re.upper_az]; Re.plus (Re.cls [Re.lower_az]);
          Re.Eol].

Definition should_anonymize_word (word : string) : bool :=
  if member word common_words then false
  else if isdigit word then false
  else if String.length word <=? 2 then false
  else if negb (match chars word with
                | c :: _ => Chr.is_upper c
                | [] => false
                end) then false
  else if bool_decide (is_Some (re_match false camel_start word)) then true
  else if bool_decide (is_Some (re_match false plain_capitalized word))
          && (4 <=? String.length word)
  then negb (member word sentence_starters)
  else false.

(** "\b[A-Z][a-zA-Z0-9]*\b" *)
Definition capitalized_word : Re.regex :=
  Re.cat [Re.Bnd; Re.cls [Re.upper_az];
          Re.star (Re.cls [Re.lower_az; Re.upper_az; Re.digit09]); Re.Bnd].

Definition random_first_names : list string :=
  ["Alex"; "Jordan"; "Taylor"; "Morgan"; "Casey"; "Riley"; "Drew"; "Quinn";
   "Blake"; "Parker"].
Definition random_last_names : list string :=
  ["Smith"; "Johnson"; "Williams"; "Brown"; "Davis"; "Miller"; "Wilson";
   "Moore"; "Taylor"; "Anderson"].

(** "\b(Dr\.|Prof\.|Mr\.|Ms\.|Mrs\.)\s+" + re.escape(proper_noun) + "\b" *)
Definition title_pattern (proper_noun : string) : Re.regex :=
  Re.cat [Re.Bnd;
          Re.Grp 1 (Re.alt (map Re.lit ["Dr."; "Prof."; "Mr."; "Ms."; "Mrs."]));
          spaces; Re.lit proper_noun; Re.Bnd].

(** "\b(Angel|Pre-Seed|Seed|Series [A-Z])\b" *)
Definition round_pattern : Re.regex :=
  Re.cat [Re.Bnd;
          Re.Grp 1 (Re.alt [Re.lit "Angel"; Re.lit "Pre-Seed"; Re.lit "Seed";
                            Re.Cat (Re.lit "Series ") (Re.cls [Re.upper_az])]);
          Re.Bnd].

Definition rounds : list string :=
  ["Angel"; "Pre-Seed"; "Seed"; "Series A"; "Series B"; "Series C"].

(** The position of the first round whose lower-cased name occurs in the
    lower-cased match. *)
Fixpoint round_index (i : nat) (names : list string) (original : string)
  : option nat :=
  match names with
  | [] => None
  | round_name :: names' =>
      if contains (lower round_name) (lower original) then Some i
      else round_index (S i) names' original
  end.

Section WithOracle.

Variable rnd : nat -> N.

Definition name_in_use (name : string) : St bool :=
  fun s => (bool_decide (name ∈ used_names s), s).

Definition mark_used (name : string) : St unit :=
  fun s => (tt, State (draws s) ({[name]} ∪ used_names s)).

Definition count_used : St nat :=
  fun s => (size (used_names s), s).

(** The [for _ in range(max_attempts)] loop of [generate_company_name];
    [None] when it runs out of attempts. *)
Fixpoint company_name_attempts (attempts : nat) : St (option string) :=
  match attempts with
  | O => ret None
  | S attempts' =>
    style <~ Random.choice rnd "" ["prefix_suffix"; "standalone"] ;
    name <~ (if String.eqb style "prefix_suffix"
             then prefix <~ Random.choice rnd "" PREFIXES ;
                  suffix <~ Random.choice rnd "" SUFFIXES ;
                  ret (prefix +:+ " " +:+ suffix)
             else Random.choice rnd "" STANDALONE_NAMES) ;
    taken <~ name_in_use name ;
    if taken then company_name_attempts attempts'
    else _ <~ mark_used name ; ret (Some name)
  end.

Definition max_attempts : nat := 1000.

Definition generate_company_name : St string :=
  found <~ company_name_attempts max_attempts ;
  match found with
  | Some name => ret name
  | None =>
    n <~ count_used ;
    ret ("Company " +:+ str_of_nat (n + 1))
  end.

(** The callback of [randomize_amount]; the [try] body fails only in
    [float(amount_str)], and [except] then returns the match as it is. *)
Definition replace_amount (m : Re.rmatch) : St (list ascii) :=
  let suffix := suffix_of m in
  match Float.of_string (amount_str m) with
  | Some amount =>
    let multiplier := multiplier_of suffix in
    let amount := Float.mul amount (Float.of_Z multiplier) in
    factor <~ RandomFloat.uniform rnd point67 one33 ;
    let new_amount := Float.mul amount factor in
    ret (chars (format_amount new_amount))
  | None => ret (Re.group0 m)
  end.

Definition randomize_amount (s : string) : St string :=
  out <~ Re.sub_st true amount_pattern replace_amount (chars s) ;
  ret (text out).

(** The callback of [randomize_dates]. *)
Definition replace_year (m : Re.rmatch) : St (list ascii) :=
  let year := Z.of_N (int_digits (Re.group0 m)) in
  if ((2000 <=? year) && (year <=? 2025))%Z
  then let (min_year, max_year) := year_window year in
     new_year <~ Random.randint rnd min_year max_year ;
     ret (chars (str_of_Z new_year))
  else ret (Re.group0 m).

Definition randomize_dates (s : string) : St string :=
  out <~ Re.sub_st false year_pattern replace_year (chars s) ;
  ret (text out).

(** What [anonymize_description] returns for a description, the original
    and the new name and the new website.  It reads and changes nothing
    of the run but the random source, so it is left open here. *)
Variable anonymize_description :
  string -> string -> string -> string -> nat -> string * nat.

Definition describe (description original_name new_name new_website : string)
  : St string :=
  fun s =>
  let (d, n) := anonymize_description description original_name new_name
                                      new_website (draws s) in
  (d, State n (used_names s)).

(** First pass, "if row.get(key): values.append(row[key])": the non-empty
    values of one column. *)
Definition collect (key : string) (records : list Csv.row) : list string :=
  flat_map (fun row : Csv.row =>
            match row !! key with
            | Some (Some v) => if truthy v then [v] else []
            | _ => []
            end) records.

(** "if key in row and values and index < len(values):
    row[key] = values[index]; index += 1"; a record too short for the
    column has the key, with [None]. *)
Definition reassign (key : string) (values : list string) (index : nat)
  (row : Csv.row) : Csv.row * nat :=
  match row !! key, values !! index with
  | Some _, Some v => (<[key := Some v]> row, S index)
  | _, _ => (row, index)
  end.

Record cursors : Type := Cursors {
  loc_index : nat;
  stage_index : nat;
  sales_index : nat
  }.

Section Rows.

Variables locations stages sales_models : list string.

(** The body of the second [for row in reader] loop.
    [row.get('Name', '')] is [None] for a record too short to have the
    field, and [re.search] in [preserve_suffix] then raises [TypeError]:
    the result is [None].  [anonymize_description] returns a [None]
    description as it is. *)
Definition anonymize_row (cur : cursors) (row : Csv.row)
    : St (option (Csv.row * cursors)) :=
    let original_name := default (Some "") (row !! "Name") in
    new_base_name <~ generate_company_name ;
    match original_name with
    | None => ret None
    | Some original_name =>
    let suffix := preserve_suffix original_name in
    let new_name :=
  match suffix with
  | Some sfx => if truthy sfx then new_base_name +:+ ", " +:+ sfx
            else new_base_name
  | None => new_base_name
  end in
    let row := <["Name" := Some new_name]> row in
    let slug := normalize_to_slug new_name in
    let new_website := "https://" +:+ slug +:+ ".example" in
    let row := <["Website" := Some new_website]> row in
    let row :=
  <["Pitch" := Some ("https://pitch.vc/companies/" +:+ slug)]> row in
    row <~ match row !! "Description" with
   | Some (Some description) =>
       d <~ describe description original_name new_name new_website ;
       ret (<["Description" := Some d]> row)
   | _ => ret row
   end ;
    let (row, li) := reassign "Location" locations (loc_index cur) row in
    let (row, sti) := reassign "Stage" stages (stage_index cur) row in
    let (row, sai) :=
  reassign "Sales Model" sales_models (sales_index cur) row in
    ret (Some (row, Cursors li sti sai))
    end.

(** The loop; an exception in one record ends the run. *)
Fixpoint anonymize_rows (cur : cursors) (records : list Csv.row)
    : St (option (list Csv.row)) :=
    match records with
    | [] => ret (Some [])
    | row :: records' =>
    result <~ anonymize_row cur row ;
    match result with
    | None => ret None
    | Some (row', cur') =>
      rest <~ anonymize_rows cur' records' ;
      ret (cons row' <$> rest)
    end
    end.

End Rows.

(** [used_names = set()] *)
Definition fresh_used_names : St unit :=
  fun s => (tt, State (draws s) ∅).

(** [anonymize_csv], from the records read to the records written;
    [None] when the run ends in an exception. *)
Definition anonymize_csv (fieldnames : list string) (records : list Csv.row)
  : St (option (list string * list Csv.row)) :=
  locations <~ Random.shuffle rnd (collect "Location" records) ;
  stages <~ Random.shuffle rnd (collect "Stage" records) ;
  sales_models <~ Random.shuffle rnd (collect "Sales Model" records) ;
  _ <~ fresh_used_names ;
  rows <~ anonymize_rows locations stages sales_models (Cursors 0 0 0)
                       records ;
  ret (rows ≫= Csv.write fieldnames).

End WithOracle.

(** ** The description pass *)

Section Describing.

Variable rnd : nat -> N.

(** The order in which Python iterates over a set of strings. *)
Variable set_order : list string -> list string.

(** The callback of [randomize_funding_round]. *)
Definition replace_round (m : Re.rmatch) : St (list ascii) :=
  let original := group0 m in
  match round_index 0 rounds original with
  | Some i =>
      step <~ Random.randint rnd (-1)%Z 1%Z ;
      let new_index :=
        Z.max 0 (Z.min (Z.of_nat (length rounds) - 1) (Z.of_nat i + step)) in
      ret (chars (nth (Z.to_nat new_index) rounds ""))
  | None => ret (chars original)
  end.

Definition randomize_funding_round (s : string) : St string :=
  out <~ Re.sub_st true round_pattern replace_round (chars s) ;
  ret (text out).

(** The loop "for proper_noun in unique_proper_nouns". *)
Fixpoint replace_proper_nouns (nouns : list string) (text : string)
  : St string :=
  match nouns with
  | [] => ret text
  | proper_noun :: nouns' =>
      text <~ (if bool_decide
                    (is_Some (re_search false (title_pattern proper_noun) text))
               then
                 random_name <~
                   Random.choice rnd ""
                     (if String.length proper_noun <? 8
                      then random_first_names else random_last_names) ;
                 ret (re_sub false (whole_word proper_noun) random_name text)
               else
                 ret (re_sub false (whole_word proper_noun) "[Product]" text)) ;
      replace_proper_nouns nouns' text
  end.

Definition anonymize_description
    (description original_name new_name new_website : string) : St string :=
  if negb (truthy description) then ret description else
  let text := flatten_whitespace description in
  let text :=
    if truthy new_website then
      let text := re_sub false url_pattern new_website text in
      re_sub false www_pattern (replace_str "https://" "" new_website) text
    else text in
  let text := re_sub false trademark_pattern "[Product]" text in
  let base_original := base_name original_name in
  let base_new := base_name new_name in
  let text := re_sub true (whole_word original_name) new_name text in
  let text :=
    if truthy base_original
    then re_sub true (whole_word base_original) base_new text
    else text in
  let text :=
    fold_left (beginning_round base_original base_new) beginning_patterns
              text in
  let words := findall false capitalized_word text in
  let unique_proper_nouns :=
    set_order (remove_dups (List.filter should_anonymize_word words)) in
  text <~ replace_proper_nouns unique_proper_nouns text ;
  text <~ randomize_amount rnd text ;
  text <~ randomize_dates rnd text ;
  text <~ randomize_funding_round text ;
  ret text.

End Describing.

End Portfolio.

(** ** scripts/convert_csv_to_insert.py *)

Module Convert.

Import Py.

(** [value.replace("'", "''")] *)
Definition escape_l (value : list ascii) : list ascii :=
  flat_map (fun c => if Ascii.eqb c "'" then ["'"; "'"]%char else [c]) value.

Definition escape (value : string) : string := text (escape_l (chars value)).

(** [row[col]] for a column of the header, for which every record of the
    reader has an entry: the text of the field, or [None] where the record
    is too short for it. *)
Definition field (row : Csv.row) (col : string) : option string :=
  mjoin (row !! col).

(** One entry of [values]. *)
Definition sql_value (value : option string) : string :=
  match value with
  | None => "NULL"
  | Some v => if String.eqb v "" then "NULL" else "'" +:+ escape v +:+ "'"
  end.

Definition values_str (columns : list string) (row : Csv.row) : string :=
  join ", " (map (fun col => sql_value (field row col)) columns).

Definition insert_sql (table_name : string) (columns : list string)
    (row : Csv.row) : string :=
  "INSERT INTO " +:+ table_name +:+ " (" +:+ join ", " columns
    +:+ ") VALUES (" +:+ values_str columns row +:+ ");".

(** The list [insert_statements] that is returned; [None] when the file
    has no columns. *)
Definition convert_csv_to_insert (columns : list string)
    (records : list Csv.row) (table_name : string) : option (list string) :=
  match columns with
  | [] => None
  | _ => Some (map (insert_sql table_name columns) records)
  end.

End Convert.

(** ** Reference functions for the proofs *)

(** The number of leading characters of [s] that satisfy [p]. *)
Fixpoint leading (p : ascii -> bool) (s : list ascii) : nat :=
  match s with
  | c :: s' => if p c then S (leading p s') else 0
  | [] => 0
  end.

(** [s] with every maximal run of [p]-characters replaced by [repl];
    [inrun] says that the character before [s] belongs to such a run. *)
Fixpoint squeeze (p : ascii -> bool) (repl : list ascii) (inrun : bool)
    (s : list ascii) : list ascii :=
  match s with
  | [] => []
  | c :: s' =>
      if p c then (if inrun then [] else repl) ++ squeeze p repl true s'
      else c :: squeeze p repl false s'
  end.

(** The characters a slug is made of. *)
Definition slug_char (c : ascii) : bool :=
  Chr.is_lower_az c || Chr.is_digit09 c || Ascii.eqb c "-".


(** Two records agree outside the fields 'Full Name' and 'Bio'. *)
Definition same_elsewhere (rin rout : Csv.row) : Prop :=
  forall key : string,
    key <> "Full Name" -> key <> "Bio" -> rout !! key = rin !! key.

(** Every full name the pools can make. *)
Definition all_names : list string :=
  flat_map
    (fun region =>
       flat_map (fun first =>
                   map (fun last => first +:+ " " +:+ last)
                       (Mentors.names_of Mentors.LAST_NAMES region))
                (Mentors.names_of Mentors.FIRST_NAMES region))
    (map fst Mentors.FIRST_NAMES).

(** The names that [n] calls of [Mentors.generate_random_name] return, in order. *)
Fixpoint issue (rnd : nat -> N) (n : nat) : St (list string) :=
  match n with
  | O => ret []
  | S n' =>
      '(_, _, full_name) <~ Mentors.generate_random_name rnd ;
      rest <~ issue rnd n' ;
      ret (full_name :: rest)
  end.

Definition fallback_name (s : state) : string :=
  "Person " +:+ str_of_nat (size (used_names s) + 1).

(** The year a match of the year pattern stands for. *)
Definition year_of (m : Re.rmatch) : Z := Z.of_N (int_digits (Re.group0 m)).

(** A text that is one year token is one match of the year pattern. *)
Definition one_year_token (y : Z) : bool :=
  match Re.tokens false Portfolio.year_pattern (chars (Portfolio.str_of_Z y)) with
  | [Re.TMatch m] =>
      bool_decide (Re.group0 m = chars (Portfolio.str_of_Z y))
      && (year_of m =? y)%Z
  | _ => false
  end.

(** What the second pass does to one column: an entry that is there,
    whatever it holds, takes the next value while values are left, and
    keeps its own afterwards. *)
Fixpoint assign (values : list string) (index : nat)
    (cells : list (option (option string))) : list (option (option string)) :=
  match cells with
  | [] => []
  | None :: cells' => None :: assign values index cells'
  | Some v :: cells' =>
      match values !! index with
      | Some w => Some (Some w) :: assign values (S index) cells'
      | None => Some v :: assign values index cells'
      end
  end.

(** One step of [assign] on the entry of a record. *)
Definition assign_cell (values : list string) (index : nat)
    (cell : option (option string)) : option (option string) * nat :=
  match cell, values !! index with
  | Some _, Some w => (Some (Some w), S index)
  | _, _ => (cell, index)
  end.

(** The texts a pattern can take, whatever stands around them: the
    language of the pattern with its anchors and word boundaries read as
    the empty text. *)
Fixpoint lang (ic : bool) (r : Re.regex) (w : list ascii) : Prop :=
  match r with
  | Re.Eps | Re.Bnd | Re.Bol | Re.Eol => w = []
  | Re.Set_ neg items =>
      exists c, w = [c] /\ Re.set_has ic neg items c = true
  | Re.Cat r1 r2 =>
      exists w1 w2, w = w1 ++ w2 /\ lang ic r1 w1 /\ lang ic r2 w2
  | Re.Alt r1 r2 => lang ic r1 w \/ lang ic r2 w
  | Re.Rep lo hi r' =>
      exists ws, w = concat ws /\ Forall (lang ic r') ws /\ lo <= length ws
                 /\ match hi with Some h => length ws <= h | None => True end
  | Re.Grp _ r' => lang ic r' w
  end.

(** A text that starts with an upper-case letter and a lower-case letter
    and has another upper-case letter further on. *)
Definition two_capitals (w : list ascii) : bool :=
  match w with
  | u :: l :: rest =>
      Chr.is_upper_az u && Chr.is_lower_az l && existsb Chr.is_upper_az rest
  | _ => false
  end.

(** The name handed out when the attempts run out: a fixed word and a
    number. *)
Definition placeholder (prefix name : string) : Prop :=
  exists k : nat, name = prefix +:+ str_of_nat k.

(** The new name behind the honorific of the original one. *)
Definition with_honorific (original_name full : string) : string :=
  match (Mentors.extract_honorific original_name).1 with
  | Some h => h +:+ " " +:+ full
  | None => full
  end.

(** Every name the company pools can make. *)
Definition all_company_names : list string :=
  flat_map (fun prefix =>
              map (fun suffix => prefix +:+ " " +:+ suffix) Portfolio.SUFFIXES)
           Portfolio.PREFIXES
  ++ Portfolio.STANDALONE_NAMES.

(** The name a record gets: the generated name, and behind it the suffix
    found in the original name. *)
Definition with_suffix (original_name base : string) : string :=
  match Portfolio.preserve_suffix original_name with
  | Some sfx => base +:+ ", " +:+ sfx
  | None => base
  end.

(** The links a record gets for its new name. *)
Definition website_of (name : string) : string :=
  "https://" +:+ Portfolio.normalize_to_slug name +:+ ".example".
Definition pitch_of (name : string) : string :=
  "https://pitch.vc/companies/" +:+ Portfolio.normalize_to_slug name.

(** What the second pass makes of a column: the entries that are there
    are overwritten in order, as far as they go, by the non-empty values
    read in some order.  So it keeps the length of the column, the records
    without the key, and, where every record has a non-empty value, the
    values themselves up to their order. *)
Definition column_kept (key : string) (records rows : list Csv.row) : Prop :=
  (exists values,
     values ≡ₚ Portfolio.collect key records
     /\ Csv.column key rows = assign values 0 (Csv.column key records))
  /\ length (Csv.column key rows) = length records
  /\ (forall i, Csv.column key records !! i = Some None ->
                Csv.column key rows !! i = Some None)
  /\ (Forall (fun r : Csv.row =>
                exists v, r !! key = Some (Some v) /\ Py.truthy v = true)
             records ->
      Csv.column key rows ≡ₚ Csv.column key records).

(** Two positions in the list of rounds that are at most one apart. *)
Definition adjacent (i j : nat) : Prop := j = i \/ j = S i \/ S j = i.

(** The description pass as the second pass of the run calls it: on the
    counter of the random source. *)
Definition description_pass (rnd : nat -> N)
    (set_order : list string -> list string)
    (description original_name new_name new_website : string) (k : nat)
  : string * nat :=
  let (d, s) := Portfolio.anonymize_description rnd set_order description original_name
                                      new_name new_website (State k ∅) in
  (d, draws s).

(** No white space but the space itself. *)
Definition plain_space (c : ascii) : Prop := Chr.is_space c = true -> c = " "%char.
Definition one_line (s : string) : Prop := Forall plain_space (chars s).

(** The description a record gets from the second pass: the description
    pass run on some description, the name read and the new name and
    website. *)
Definition described
    (anonymize_description : string -> string -> string -> string -> nat -> string * nat)
    (rin rout : Csv.row) : Prop :=
  forall d, rout !! "Description" = Some (Some d) ->
    exists d0 name base k,
      default (Some "") (rin !! "Name") = Some name
      /\ (In base all_company_names \/ placeholder "Company " base)
      /\ d = (anonymize_description d0 name (with_suffix name base)
                (website_of (with_suffix name base)) k).1.

(** Reading SQL values back.  [read_literal] reads the text behind an
    opening quote up to the closing one, a doubled quote standing for a
    quote; it returns the text and what follows. *)
Fixpoint read_literal (s : list ascii) : option (list ascii * list ascii) :=
  match s with
  | [] => None
  | c :: s' =>
      if Ascii.eqb c "'" then
        match s' with
        | d :: s'' =>
            if Ascii.eqb d "'"
            then (fun p : list ascii * list ascii => ("'"%char :: p.1, p.2))
                   <$> read_literal s''
            else Some ([], s')
        | [] => Some ([], [])
        end
      else (fun p : list ascii * list ascii => (c :: p.1, p.2))
             <$> read_literal s'
  end.

(** One value, NULL or a literal, and what follows it. *)
Definition read_value (s : list ascii)
  : option (option (list ascii) * list ascii) :=
  match s with
  | "'"%char :: s' =>
      (fun p : list ascii * list ascii => (Some p.1, p.2)) <$> read_literal s'
  | "N"%char :: "U"%char :: "L"%char :: "L"%char :: s' => Some (None, s')
  | _ => None
  end.

(** Values separated by a comma and a space. *)
Fixpoint read_values (fuel : nat) (s : list ascii)
  : option (list (option (list ascii))) :=
  match fuel with
  | O => None
  | S fuel' =>
      match read_value s with
      | Some (v, []) => Some [v]
      | Some (v, ","%char :: " "%char :: s') => cons v <$> read_values fuel' s'
      | _ => None
      end
  end.

(** What a statement says of a field: nothing for a missing or empty
    field, its text otherwise. *)
Definition stored (value : option string) : option (list ascii) :=
  match value with
  | Some (String c v) => Some (c :: chars v)
  | _ => None
  end.

(** The corporate suffixes in lower case, with and without their period. *)
Definition suffix_forms : list string :=
  ["inc"; "inc."; "llc"; "ltd"; "ltd."; "corp"; "corp."; "co"; "co.";
   "gmbh"; "plc"].

(** * Properties *)

(** ** Strings as lists of characters *)

Lemma chars_text (l : list ascii) : chars (text l) = l.
Proof. apply list_ascii_of_string_of_list_ascii. Qed.

Lemma text_chars (s : string) : text (chars s) = s.
Proof. apply string_of_list_ascii_of_string. Qed.

Lemma chars_app (s t : string) : chars (s +:+ t) = chars s ++ chars t.
Proof. induction s as [|c s IH]; simpl; [done | by rewrite IH]. Qed.

Lemma chars_inj (s t : string) : chars s = chars t -> s = t.
Proof. intros H. rewrite <- (text_chars s), <- (text_chars t). by rewrite H. Qed.

(** ** Results that are there *)

Lemma run_is_Some {A B} (d : A) (r : option A * B) :
  bool_decide (is_Some r.1) = true -> r = (Some (default d r.1), r.2).
Proof.
  intros H. apply bool_decide_eq_true in H. destruct r as [[a|] b]; [done|].
  by destruct H.
Qed.

Lemma option_is_Some {A} (d : A) (o : option A) :
  bool_decide (is_Some o) = true -> o = Some (default d o).
Proof.
  intros H. apply bool_decide_eq_true in H. by destruct H as [a ->].
Qed.

Lemma field_is_Some {A} (d : A) (o : option (option A)) :
  bool_decide (is_Some (mjoin o)) = true ->
  o = Some (Some (default d (default None o))).
Proof.
  intros H. apply bool_decide_eq_true in H. destruct o as [[a|]|]; [done| |];
    by destruct H.
Qed.

(** ** The writer *)

Lemma Forall2_Forall_iff {A B} (R : A -> B -> Prop) (P : A -> Prop)
    (Q : B -> Prop) l k :
  Forall2 R l k -> (forall x y, R x y -> (P x <-> Q y)) ->
  (Forall P l <-> Forall Q k).
Proof.
  intros H HR. induction H as [|x y l k Hxy _ IH]; [by split|].
  rewrite !Forall_cons, IH, (HR x y Hxy). done.
Qed.

Lemma write_is_Some fieldnames (rows : list Csv.row) :
  is_Some (Csv.write fieldnames rows)
  <-> Forall (fun r : Csv.row => dom r ⊆ list_to_set fieldnames) rows.
Proof.
  unfold Csv.write. destruct (forallb (Csv.writable fieldnames) rows) eqn:E.
  - split; [intros _ | by eauto]. rewrite forallb_forall in E.
    apply Forall_forall. intros r Hr. apply list_elem_of_In in Hr.
    specialize (E r Hr). by apply bool_decide_eq_true in E.
  - split; [by intros [? ?]|]. intros H. exfalso.
    assert (forallb (Csv.writable fieldnames) rows = true); [|congruence].
    apply forallb_forall. intros r Hr. apply bool_decide_eq_true.
    rewrite Forall_forall in H. by apply H, list_elem_of_In.
Qed.

(** ** The matcher *)

Module ReFacts.

Import Re.

(** [group(0)] is the text the match starts at, cut at its own length. *)
Lemma group0_prefix ic r prev s m :
  In m (matches_at ic r prev s) ->
  group0 m = firstn (length (group0 m)) s.
Proof.
  unfold matches_at. rewrite in_map_iff. intros (st' & <- & _).
  unfold consumed. simpl.
  set (n := length s - length (ms_rest st')).
  rewrite length_take. destruct (Nat.le_ge_cases n (length s)) as [Hn|Hn].
  - by rewrite Nat.min_l.
  - rewrite Nat.min_r by done. by rewrite !take_ge.
Qed.

Lemma group0_of_nil ic r prev m :
  In m (matches_at ic r prev []) -> group0 m = [].
Proof. intros H. apply group0_prefix in H. by rewrite take_nil in H. Qed.

Lemma find_nonempty_length (ms : list rmatch) m :
  List.find nonempty ms = Some m -> In m ms /\ exists k, length (group0 m) = S k.
Proof.
  intros H. apply find_some in H as [Hin Hne]. split; [done|].
  unfold nonempty in Hne. destruct (group0 m); [done | eauto].
Qed.

(** Putting every match back in place of itself gives the subject back.
    [skip] characters of an earlier match are still to be passed over. *)
Lemma scan_identity ic r s : forall prev skip,
  flat_map (render group0) (scan ic r prev skip s) = drop skip s.
Proof.
  induction s as [|c s IH]; intros prev skip.
  - destruct skip as [|k]; simpl; [|done].
    destruct (matches_at ic r prev []) as [|m1 ms] eqn:E; [done|].
    assert (G : group0 m1 = []).
    { apply (group0_of_nil ic r prev). rewrite E. by left. }
    rewrite G. simpl. by rewrite G.
  - destruct skip as [|k]; simpl; [|apply IH].
    destruct (matches_at ic r prev (c :: s)) as [|m1 ms] eqn:E.
    { simpl. by rewrite IH. }
    assert (G : group0 m1 = firstn (length (group0 m1)) (c :: s)).
    { apply (group0_prefix ic r prev). rewrite E. by left. }
    destruct (length (group0 m1)) as [|k] eqn:L.
    + apply nil_length_inv in L.
      destruct (List.find nonempty (m1 :: ms)) as [m2|] eqn:F.
      * apply find_nonempty_length in F as [Hin [k Hk]].
        rewrite <- E in Hin. apply group0_prefix in Hin.
        simpl. rewrite L, IH, Hk. simpl. rewrite Nat.sub_0_r.
        rewrite Hin, Hk. simpl. by rewrite take_drop.
      * simpl. by rewrite L, IH.
    + simpl. rewrite IH, G. simpl. by rewrite take_drop.
Qed.

Lemma sub_fn_identity ic r s : sub_fn ic r group0 s = s.
Proof. unfold sub_fn, tokens. by rewrite scan_identity. Qed.

(** A callback is only consulted on the matches [finditer] lists. *)
Lemma in_finditer ic r s m :
  In (TMatch m) (tokens ic r s) -> In m (finditer ic r s).
Proof.
  unfold finditer. intros H. apply in_flat_map. exists (TMatch m).
  split; [done | by left].
Qed.

Lemma render_st_identity {S : Type} (f : rmatch -> S -> list ascii * S)
    (ts : list token) (st : S) :
  (forall m, In (TMatch m) ts -> f m st = (group0 m, st)) ->
  render_st f ts st = (flat_map (render group0) ts, st).
Proof.
  induction ts as [|[c|m] ts IH]; intros H; simpl; [done | |].
  - rewrite IH; [done|]. intros m Hm. apply H. by right.
  - rewrite (H m) by (by left). rewrite IH; [done|].
    intros m' Hm. apply H. by right.
Qed.

(** If the callback hands every match of the subject back unchanged, and
    leaves the state alone, so does [re.sub]. *)
Lemma sub_st_identity {S : Type} ic r (f : rmatch -> S -> list ascii * S)
    (s : list ascii) (st : S) :
  (forall m, In m (finditer ic r s) -> f m st = (group0 m, st)) ->
  sub_st ic r f s st = (s, st).
Proof.
  intros H. unfold sub_st. rewrite render_st_identity.
  - unfold tokens. by rewrite scan_identity.
  - intros m Hm. apply H. by apply in_finditer.
Qed.

(** *** Runs of one character set *)

Lemma rep_succ step fuel lo hi st :
  rep step (S fuel) lo hi st =
    match hi with
    | Some O => []
    | _ =>
        flat_map
          (fun st' =>
             if length (ms_rest st') <? length (ms_rest st)
             then rep step fuel (pred lo) (option_map pred hi) st'
             else [])
          (step st)
    end ++ (if lo =? 0 then [st] else []).
Proof. reflexivity. Qed.

Lemma run_rep ic lo hi r st :
  run ic (Rep lo hi r) st = rep (run ic r) (S (length (ms_rest st))) lo hi st.
Proof. reflexivity. Qed.

Section Runs.

Variable p : ascii -> bool.

Lemma leading_length (s : list ascii) :
  length (lstrip_l p s) + leading p s = length s.
Proof.
  induction s as [|c s IH]; simpl; [done|].
  destruct (p c); simpl; lia.
Qed.

Lemma take_leading (s : list ascii) :
  length (firstn (length s - length (lstrip_l p s)) s) = leading p s.
Proof. pose proof (leading_length s). rewrite length_take. lia. Qed.

(** A step that reads one character of the set. *)
Variable step : mstate -> list mstate.
Hypothesis step_reads : forall prev s caps,
  step (MState prev s caps) =
  match s with
  | c :: s' => if p c then [MState (Some c) s' caps] else []
  | [] => []
  end.

(** Greedy repetition of a set goes to the end of the run first. *)
Lemma star_head fuel : forall s prev caps,
  length s < fuel ->
  exists st' tl,
  rep step fuel 0 None (MState prev s caps) = st' :: tl
  /\ ms_rest st' = lstrip_l p s /\ ms_caps st' = caps.
Proof.
  induction fuel as [|fuel IH]; intros s prev caps Hlen; [lia|].
  rewrite rep_succ, step_reads.
  destruct s as [|c s].
  { exists (MState prev [] caps), []. by simpl. }
  simpl lstrip_l. destruct (p c) eqn:Hc.
  - cbn [flat_map ms_rest]. rewrite app_nil_r.
  assert (Hlt : (length s <? length (c :: s)) = true).
  { apply Nat.ltb_lt. simpl. lia. }
  rewrite Hlt.
  destruct (IH s (Some c) caps) as (st' & tl & E & Hr & Hcaps).
  { simpl in Hlen. lia. }
  cbn [pred option_map]. rewrite E. simpl.
  by exists st', (tl ++ [MState prev (c :: s) caps]).
  - by exists (MState prev (c :: s) caps), [].
Qed.

Lemma plus_head prev c (s : list ascii) caps :
  p c = true ->
  exists st' tl,
  rep step (S (length (c :: s))) 1 None (MState prev (c :: s) caps) = st' :: tl
  /\ ms_rest st' = lstrip_l p (c :: s) /\ ms_caps st' = caps.
Proof.
  intros Hc. rewrite rep_succ, step_reads, Hc.
  cbn [flat_map ms_rest]. rewrite !app_nil_r.
  assert (Hlt : (length s <? length (c :: s)) = true).
  { apply Nat.ltb_lt. simpl. lia. }
  rewrite Hlt. cbn [pred option_map].
  destruct (star_head (length (c :: s)) s (Some c) caps) as (st' & tl & E & Hr & Hk).
  { simpl. lia. }
  exists st', tl. simpl lstrip_l. by rewrite Hc.
Qed.

Lemma plus_stuck prev (s : list ascii) caps :
  match s with c :: _ => p c = false | [] => True end ->
  rep step (S (length s)) 1 None (MState prev s caps) = [].
Proof.
  intros H. rewrite rep_succ, step_reads.
  destruct s as [|c s]; [done|]. by rewrite H.
Qed.

End Runs.

Section ClassRuns.

Variables (ic neg : bool) (items : list citem).

Abbreviation p := (set_has ic neg items).

Lemma set_reads prev s caps :
  run ic (Set_ neg items) (MState prev s caps) =
  match s with
  | c :: s' => if p c then [MState (Some c) s' caps] else []
  | [] => []
  end.
Proof. reflexivity. Qed.

Lemma plus_matches prev (s : list ascii) :
  match s with
  | c :: _ =>
    if p c
    then exists m ms, matches_at ic (plus (Set_ neg items)) prev s = m :: ms
                      /\ length (group0 m) = leading p s
    else matches_at ic (plus (Set_ neg items)) prev s = []
  | [] => matches_at ic (plus (Set_ neg items)) prev s = []
  end.
Proof.
  unfold matches_at, plus. rewrite run_rep. cbn [ms_rest].
  destruct s as [|c s].
  { by rewrite (plus_stuck p _ set_reads). }
  destruct (p c) eqn:Hc.
  - destruct (plus_head p _ set_reads prev c s [] Hc) as (st' & tl & E & Hr & _).
  rewrite E. cbn [map]. eexists _, _. split; [done|].
  cbn [group0]. unfold consumed. cbn [ms_rest]. rewrite Hr.
  apply take_leading.
  - by rewrite (plus_stuck p _ set_reads).
Qed.

(** [re.sub] of a run pattern squeezes the runs. *)
Lemma scan_plus repl (s : list ascii) : forall prev,
  flat_map (render (fun _ => repl)) (scan ic (plus (Set_ neg items)) prev 0 s)
  = squeeze p repl false s
  /\ flat_map (render (fun _ => repl))
            (scan ic (plus (Set_ neg items)) prev (leading p s) s)
  = squeeze p repl true s.
Proof.
  induction s as [|c s IH]; intros prev.
  - pose proof (plus_matches prev []) as E. cbn beta iota in E.
  cbn [leading scan]. by rewrite E.
  - pose proof (plus_matches prev (c :: s)) as E.
  assert (A : flat_map (render (fun _ => repl))
                (scan ic (plus (Set_ neg items)) prev 0 (c :: s))
              = squeeze p repl false (c :: s)).
  { cbn [scan squeeze]. cbn beta iota in E. destruct (p c) eqn:Hc.
    - destruct E as (m & ms & -> & L). rewrite L. cbn [leading]. rewrite Hc.
      cbn [flat_map render]. f_equal. apply IH.
    - rewrite E. cbn [flat_map render]. simpl. f_equal. apply IH. }
  split; [exact A|].
  cbn [leading]. destruct (p c) eqn:Hc.
  + cbn [scan squeeze]. rewrite Hc. simpl. apply IH.
  + rewrite A. cbn [squeeze]. by rewrite Hc.
Qed.

Lemma sub_plus repl (s : list ascii) :
  sub ic (plus (Set_ neg items)) repl s = squeeze p repl false s.
Proof. unfold sub, sub_fn, tokens. apply scan_plus. Qed.

(** [re.sub] of a single set with the empty string drops its
    characters. *)
Lemma set_matches prev (s : list ascii) :
  matches_at ic (Set_ neg items) prev s =
  match s with
  | c :: _ => if p c then [RMatch [c] []] else []
  | [] => []
  end.
Proof.
  destruct s as [|c s]; [done|].
  unfold matches_at. rewrite set_reads. destruct (p c); [|done].
  cbn [map]. unfold consumed. cbn [ms_rest ms_caps].
  replace (length (c :: s) - length s) with 1 by (simpl; lia). done.
Qed.

Lemma scan_set (s : list ascii) : forall prev,
  flat_map (render (fun _ => [])) (scan ic (Set_ neg items) prev 0 s)
  = List.filter (fun c => negb (p c)) s.
Proof.
  induction s as [|c s IH]; intros prev.
  - cbn [scan]. by rewrite set_matches.
  - cbn [scan]. rewrite set_matches. cbn [List.filter].
  destruct (p c); simpl; [apply IH|]. f_equal. apply IH.
Qed.

Lemma sub_set (s : list ascii) :
  sub ic (Set_ neg items) [] s = List.filter (fun c => negb (p c)) s.
Proof. unfold sub, sub_fn, tokens. apply scan_set. Qed.

End ClassRuns.

End ReFacts.

(** ** Squeezing and stripping *)

Section ListShapes.

Variable p : ascii -> bool.

Lemma squeeze_Forall (Q : ascii -> Prop) repl inrun s :
  Forall Q repl ->
  Forall (fun c => p c = false -> Q c) s ->
  Forall Q (squeeze p repl inrun s).
Proof.
  intros Hrepl Hs. revert inrun.
  induction Hs as [|c s Hc Hs IH]; intros inrun; simpl; [done|].
  destruct (p c) eqn:E.
  - destruct inrun; simpl; [apply IH|].
    apply Forall_app. split; [done | apply IH].
  - constructor; [by apply Hc | apply IH].
Qed.

Lemma lstrip_suffix s : exists pre, s = pre ++ lstrip_l p s.
Proof.
  induction s as [|c s [pre IH]]; simpl; [by exists []|].
  destruct (p c); [|by exists []].
  exists (c :: pre). simpl. by rewrite <- IH.
Qed.

Lemma lstrip_head s c : head (lstrip_l p s) = Some c -> p c = false.
Proof.
  induction s as [|a s IH]; simpl; [done|].
  destruct (p a) eqn:E; [done|]. simpl. by intros [= <-].
Qed.

Lemma rstrip_prefix s : exists post, s = rstrip_l p s ++ post.
Proof.
  unfold rstrip_l. destruct (lstrip_suffix (reverse s)) as [pre H].
  exists (reverse pre). rewrite <- reverse_app, <- H. by rewrite reverse_involutive.
Qed.

Lemma rstrip_last s c : last (rstrip_l p s) = Some c -> p c = false.
Proof.
  unfold rstrip_l. rewrite last_reverse. apply lstrip_head.
Qed.

Lemma rstrip_head s c :
  head s = Some c -> p c = false -> head (rstrip_l p s) = Some c.
Proof.
  intros Hh Hc. destruct s as [|a s]; [done|]. simpl in Hh. injection Hh as ->.
  unfold rstrip_l. rewrite reverse_cons.
  assert (G : forall l, lstrip_l p (l ++ [c]) = lstrip_l p l ++ [c]).
  { induction l as [|b l IH]; simpl; [by rewrite Hc|].
    destruct (p b); [done | done]. }
  rewrite G, reverse_app. done.
Qed.

Lemma strip_infix s : exists pre post, s = pre ++ strip_l p s ++ post.
Proof.
  unfold strip_l. destruct (lstrip_suffix s) as [pre H1].
  destruct (rstrip_prefix (lstrip_l p s)) as [post H2].
  exists pre, post. by rewrite <- H2.
Qed.

Lemma strip_head s c : head (strip_l p s) = Some c -> p c = false.
Proof.
  unfold strip_l. intros H.
  destruct (head (lstrip_l p s)) as [a|] eqn:E.
  - pose proof (lstrip_head _ _ E) as Ha.
    rewrite (rstrip_head _ _ E Ha) in H. by injection H as <-.
  - destruct (lstrip_l p s); [|done]. by unfold rstrip_l in H.
Qed.

Lemma strip_last s c : last (strip_l p s) = Some c -> p c = false.
Proof. apply rstrip_last. Qed.

End ListShapes.





(** ** normalize_to_slug *)

Module SlugFacts.

Import Re ReFacts Portfolio Py.

Lemma not_slug_char_set c :
  negb (set_has false true [lower_az; digit09; Spc; One "-"] c) = true ->
  Chr.is_space c = false -> slug_char c = true.
Proof.
  unfold set_has, slug_char, lower_az, digit09. cbn [existsb item_has xorb].
  change (Chr.between (Chr.code "a") (Chr.code "z") c) with (Chr.is_lower_az c).
  change (Chr.between (Chr.code "0") (Chr.code "9") c) with (Chr.is_digit09 c).
  rewrite (Ascii.eqb_sym c).
  destruct (Chr.is_lower_az c), (Chr.is_digit09 c), (Chr.is_space c),
    (Ascii.eqb "-" c); simpl; done.
Qed.

Lemma space_set c : set_has false false [Spc] c = Chr.is_space c.
Proof. unfold set_has. cbn [existsb item_has xorb]. by rewrite orb_false_r. Qed.


Lemma slug_chars (name : string) :
  chars (normalize_to_slug name) =
    strip_l (Ascii.eqb "-")
      (squeeze (set_has false false [One "-"]) ["-"%char] false
         (squeeze (set_has false false [Spc]) ["-"%char] false
            (List.filter
               (fun c => negb (set_has false true
                                 [lower_az; digit09; Spc; One "-"] c))
               (lower_l (sub true corporate_suffix [] (chars name)))))).
Proof.
  unfold normalize_to_slug, re_sub, lower, strip_char.
  rewrite !chars_text.
  change (chars "") with (@nil ascii). change (chars "-") with ["-"%char].
  unfold not_slug_char, ncls, chr, cls.
  by rewrite sub_set, !sub_plus.
Qed.

Lemma Forall_infix {A} (P : A -> Prop) (pre s post : list A) :
  Forall P (pre ++ s ++ post) -> Forall P s.
Proof. rewrite !Forall_app. tauto. Qed.



End SlugFacts.

(** ** anonymize_mentors.py: what a run leaves alone *)

Module MentorsFacts.

Import Mentors Py.

Section Frame.

Variable rnd : nat -> N.

(** A record gets through the loop body unless its 'Full Name' is [None];
    the record that comes out differs in 'Full Name' and 'Bio' at most. *)
Lemma anonymize_row_frame (row : Csv.row) st :
  match (anonymize_row rnd row st).1 with
  | Some rout =>
      row !! "Full Name" <> Some None
      /\ same_elsewhere row rout
      /\ dom rout = {["Full Name"]} ∪ dom row
  | None => row !! "Full Name" = Some None
  end.
Proof.
  unfold anonymize_row.
  destruct (row !! "Full Name") as [[original_name|]|] eqn:Hname;
    cbn [from_option id]; [| done |].
  all: match goal with
       | |- context [extract_honorific ?n] =>
           destruct (extract_honorific n) as [honorific rest]
       end.
  all: unfold bind, ret.
  all: destruct (generate_random_name rnd st)
         as [[[new_first new_last] new_full] st1].
  all: cbn [fst].
  all: match goal with
       | |- context [<["Full Name" := Some ?x]> _] => set (shown := x)
       end.
  all: split; [done|].
  all: destruct (<["Full Name" := Some shown]> row !! "Bio") as [bio|] eqn:Hbio.
  all: split; [intros key H1 H2; by rewrite ?lookup_insert_ne|].
  all: rewrite ?dom_insert_L; try done.
  all: assert (Hin : "Bio" ∈ dom (<["Full Name" := Some shown]> row))
         by (apply elem_of_dom; eauto).
  all: rewrite dom_insert_L in Hin.
  all: by apply subseteq_union_1_L, singleton_subseteq_l.
Qed.

Lemma anonymize_rows_frame (records : list Csv.row) : forall st,
  match (anonymize_rows rnd records st).1 with
  | Some rows =>
      Forall (fun r : Csv.row => r !! "Full Name" <> Some None) records
      /\ Forall2 (fun rin rout =>
                    same_elsewhere rin rout
                    /\ dom rout = {["Full Name"]} ∪ dom rin)
                 records rows
  | None => Exists (fun r : Csv.row => r !! "Full Name" = Some None) records
  end.
Proof.
  induction records as [|row records IH]; intros st; simpl.
  - by split.
  - unfold bind, ret.
    pose proof (anonymize_row_frame row st) as Hrow.
    destruct (anonymize_row rnd row st) as [[row'|] st1]; cbn [fst] in *.
    + specialize (IH st1).
      destruct (anonymize_rows rnd records st1) as [[rest|] st2];
        cbn [fst fmap option_fmap option_map] in *.
      * destruct Hrow as (Hn & Hrow). destruct IH as [IH1 IH2].
        split; by constructor.
      * by apply Exists_cons_tl.
    + by apply Exists_cons_hd.
Qed.

(** What holds of every record the loop body gets through holds of the
    records of a run, one by one. *)
Lemma mentors_rows_Forall2 (P : Csv.row -> Csv.row -> Prop) :
  (forall row st rout st',
     anonymize_row rnd row st = (Some rout, st') -> P row rout) ->
  forall records st rows st',
    anonymize_rows rnd records st = (Some rows, st') ->
    Forall2 P records rows.
Proof.
  intros HP. induction records as [|row records IH]; intros st rows st'.
  - cbn. unfold ret. intros [= <- <-]. constructor.
  - cbn [anonymize_rows]. unfold bind, ret.
    pose proof (HP row st) as Hrow.
    destruct (anonymize_row rnd row st) as [[row'|] st1]; [|done].
    specialize (IH st1).
    destruct (anonymize_rows rnd records st1) as [[rest|] st2];
      cbn [fmap option_fmap option_map]; [|done].
    intros [= <- <-]. constructor; [by eapply Hrow | by eapply IH].
Qed.

End Frame.

(** Whether a run comes to write its output. *)
Lemma mentors_csv_written (rnd : nat -> N) (fieldnames : list string)
    (records : list Csv.row) (st : state) :
  is_Some (anonymize_csv rnd fieldnames records st).1
  <-> Forall (fun r : Csv.row =>
                r !! "Full Name" <> Some None
                /\ "Full Name" ∈ fieldnames
                /\ dom r ⊆ list_to_set fieldnames) records.
Proof.
  unfold anonymize_csv, bind, ret, fresh_used_names.
  pose proof (anonymize_rows_frame rnd records (State (draws st) ∅)) as Hrows.
  destruct (anonymize_rows rnd records (State (draws st) ∅)) as [[rows|] st1];
    cbn [fst mbind option_bind] in *.
  - destruct Hrows as [Hnames Hrows]. rewrite write_is_Some.
    rewrite <- (Forall2_Forall_iff _
                  (fun r : Csv.row => "Full Name" ∈ fieldnames
                                      /\ dom r ⊆ list_to_set fieldnames)
                  _ _ _ Hrows).
    + rewrite !Forall_and. tauto.
    + intros rin rout [_ ->]. rewrite union_subseteq, singleton_subseteq_l.
      by rewrite elem_of_list_to_set.
  - split; [by intros [? ?]|]. intros H. exfalso.
    apply Exists_exists in Hrows as (r & Hin & Hr).
    rewrite Forall_forall in H. by destruct (H r Hin) as [Hn _].
Qed.

(** C9: a run of the mentors anonymizer writes the header it read, and in
    every record it writes only the fields 'Full Name' and 'Bio' can differ
    from the record it read.  The run does write its output whenever the
    header has a 'Full Name' column and every record has its keys in the
    header and is long enough to have a 'Full Name'. *)
Theorem mentors_csv_frame (rnd : nat -> N) (fieldnames : list string)
    (records : list Csv.row) (st : state) :
  (forall out st',
     anonymize_csv rnd fieldnames records st = (Some out, st') ->
     fst out = fieldnames
     /\ Forall2 same_elsewhere records (snd out))
  /\ ("Full Name" ∈ fieldnames ->
      Forall (fun r : Csv.row =>
                dom r ⊆ list_to_set fieldnames
                /\ r !! "Full Name" <> Some None) records ->
      exists rows st',
        anonymize_csv rnd fieldnames records st = (Some (fieldnames, rows), st')).
Proof.
  split.
  - unfold anonymize_csv, bind, ret, fresh_used_names.
    pose proof (anonymize_rows_frame rnd records (State (draws st) ∅)) as Hrows.
    destruct (anonymize_rows rnd records (State (draws st) ∅)) as [[rows|] st1];
      cbn [fst mbind option_bind] in *; [|done].
    intros out st'. unfold Csv.write.
    destruct (forallb (Csv.writable fieldnames) rows); [|done].
    intros [= <- <-]. split; [done|]. destruct Hrows as [_ Hrows].
    eapply Forall2_impl; [exact Hrows|]. by intros rin rout [H _].
  - intros Hname Hdom.
    assert (Hw : is_Some (anonymize_csv rnd fieldnames records st).1).
    { apply mentors_csv_written. eapply Forall_impl; [exact Hdom|].
      by intros r [? ?]. }
    revert Hw. unfold anonymize_csv, bind, ret, fresh_used_names.
    destruct (anonymize_rows rnd records (State (draws st) ∅)) as [[rows|] st1];
      cbn [fst mbind option_bind]; [|by intros [? ?]].
    unfold Csv.write. destruct (forallb (Csv.writable fieldnames) rows);
      [eauto | by intros [? ?]].
Qed.

(** The theorem on a file with two records, the second too short to have an
    'Industry Expertise'. *)
Lemma mentors_csv_frame_witness :
  exists rows st',
    anonymize_csv (fun _ => 0%N) ["Full Name"; "Bio"; "Industry Expertise"]
      [ {["Full Name" := Some "Dr. Jane Carter";
          "Bio" := Some "Jane Carter founded the firm";
          "Industry Expertise" := Some "Fintech"]};
        {["Full Name" := Some "Raj Patel"; "Bio" := Some "";
          "Industry Expertise" := None]} ]
      (State 0 ∅)
    = (Some (["Full Name"; "Bio"; "Industry Expertise"], rows), st').
Proof.
  apply mentors_csv_frame.
  - set_solver.
  - repeat (constructor; [split; [rewrite !dom_insert_L; set_solver | done]|]).
    constructor.
Defined.

End MentorsFacts.

Module NameFacts.

Import Mentors Py.




Lemma not_NoDup_repeats {A} `{EqDecision A} (l : list A) :
  ~ NoDup l ->
  exists i j x, i < j /\ l !! i = Some x /\ l !! j = Some x.
Proof.
  induction l as [|a l IH]; intros H.
  - destruct H. constructor.
  - destruct (decide (a ∈ l)) as [Hin|Hnin].
    + apply list_elem_of_lookup in Hin as [k Hk].
      exists 0, (S k), a. split; [lia|]. by split.
    + destruct IH as (i & j & x & Hij & Hi & Hj).
      { intros Hl. apply H. by constructor. }
      exists (S i), (S j), x. split; [lia|]. by split.
Qed.

Section Issue.

Variable rnd : nat -> N.

Lemma choice_elem {A} (d : A) (l : list A) st :
  l <> [] ->
  In (fst (Random.choice rnd d l st)) l
  /\ used_names (snd (Random.choice rnd d l st)) = used_names st.
Proof.
  intros Hl. unfold Random.choice, bind, ret, Random.next. cbn [fst snd].
  split; [|done]. apply nth_In.
  assert (0 < length l) by (destruct l; [done | simpl; lia]).
  pose proof (N.mod_upper_bound (rnd (draws st)) (N.of_nat (length l))). lia.
Qed.

Lemma attempts_outcome k : forall st,
  match random_name_attempts rnd k st with
  | (Some (_, _, full_name), st') =>
      In full_name all_names /\ (full_name ∉ used_names st)
      /\ used_names st' = {[full_name]} ∪ used_names st
  | (None, st') => used_names st' = used_names st
  end.
Proof.
  induction k as [|k IH]; intros st; [done|].
  cbn [random_name_attempts]. unfold bind at 1.
  destruct (choice_elem "" (map fst FIRST_NAMES) st) as [Hr Hu1]; [done|].
  destruct (Random.choice rnd "" (map fst FIRST_NAMES) st) as [region st1].
  cbn [fst snd] in Hr, Hu1. unfold bind at 1.
  assert (Hf : names_of FIRST_NAMES region <> [] /\ names_of LAST_NAMES region <> []).
  { cbn in Hr. destruct Hr as [<-|[<-|[<-|[<-|[]]]]]; by split. }
  destruct Hf as [Hf Hl].
  destruct (choice_elem "" (names_of FIRST_NAMES region) st1 Hf) as [Hfirst Hu2].
  destruct (Random.choice rnd "" (names_of FIRST_NAMES region) st1) as [first st2].
  cbn [fst snd] in Hfirst, Hu2. unfold bind at 1.
  destruct (choice_elem "" (names_of LAST_NAMES region) st2 Hl) as [Hlast Hu3].
  destruct (Random.choice rnd "" (names_of LAST_NAMES region) st2) as [last st3].
  cbn [fst snd] in Hlast, Hu3.
  unfold bind at 1, name_in_use. cbn beta iota.
  assert (Hst : used_names st3 = used_names st) by congruence.
  destruct (bool_decide_reflect (first +:+ " " +:+ last ∈ used_names st3)) as [Hin|Hnin].
  - specialize (IH st3). destruct (random_name_attempts rnd k st3) as [[[[f l] full]|] st4].
    + rewrite <- Hst. exact IH.
    + by rewrite <- Hst.
  - unfold bind, mark_used, ret. cbn [used_names].
    split; [|by rewrite <- Hst].
    unfold all_names. apply in_flat_map. exists region. split; [done|].
    apply in_flat_map. exists first. split; [done|].
    apply in_map_iff. by exists last.
Qed.

(** A call either issues an unused name of the pools and records it, or
    returns the placeholder numbered after the size of [used_names] and
    records nothing. *)
Lemma generate_outcome st :
  let '(_, _, full_name, st') := generate_random_name rnd st in
  (In full_name all_names /\ (full_name ∉ used_names st)
   /\ used_names st' = {[full_name]} ∪ used_names st)
  \/ (full_name = fallback_name st /\ used_names st' = used_names st).
Proof.
  unfold generate_random_name, bind.
  pose proof (attempts_outcome max_attempts st) as H.
  destruct (random_name_attempts rnd max_attempts st) as [[[[f l] full]|] st1].
  - by left.
  - right. unfold count_used, ret, fallback_name. cbn. by rewrite H.
Qed.

Lemma used_bound (X : gset string) :
  X ⊆ list_to_set all_names -> size X <= 400.
Proof.
  intros H. apply subseteq_size in H.
  assert (size (list_to_set all_names : gset string) <= length all_names).
  { clear. induction all_names as [|a l IH]; [done|].
    cbn [list_to_set length]. rewrite size_union_alt, size_singleton.
    assert (size (list_to_set l ∖ {[a]} : gset string) <= size (list_to_set l : gset string)).
    { apply subseteq_size, subseteq_difference_l. done. }
    lia. }
  change (length all_names) with 400 in H0. lia.
Qed.

Lemma issue_succ n st :
  issue rnd (S n) st =
    let '(_, _, full_name, st1) := generate_random_name rnd st in
    let (rest, st2) := issue rnd n st1 in
    (full_name :: rest, st2).
Proof.
  cbn [issue]. unfold bind, ret.
  destruct (generate_random_name rnd st) as [[[f l] full] st1].
  by destruct (issue rnd n st1).
Qed.

Lemma issue_bound n : forall st,
  used_names st ⊆ list_to_set all_names ->
  NoDup (fst (issue rnd n st)) ->
  n <= 2 * (400 - size (used_names st)) + 1
  /\ (fallback_name st ∉ fst (issue rnd n st) ->
      n <= 2 * (400 - size (used_names st))).
Proof.
  induction n as [|n IH]; intros st Hsub Hnd; [lia|].
  rewrite issue_succ in *.
  pose proof (generate_outcome st) as Hgen.
  destruct (generate_random_name rnd st) as [[[f l] full] st1].
  specialize (IH st1).
  destruct (issue rnd n st1) as [rest st2]. cbn [fst] in *.
  apply NoDup_cons in Hnd as [Hhead Hrest].
  pose proof (used_bound _ Hsub) as Hu.
  destruct Hgen as [(Hin & Hfresh & Hused)|[-> Hused]].
  - assert (Hsub1 : used_names st1 ⊆ list_to_set all_names).
    { rewrite Hused. apply union_subseteq. split; [|done].
      apply singleton_subseteq_l, elem_of_list_to_set. by apply list_elem_of_In. }
    pose proof (used_bound _ Hsub1) as Hu1.
    assert (Hsz : size (used_names st1) = S (size (used_names st))).
    { rewrite Hused, size_union, size_singleton; [done|].
      by apply disjoint_singleton_l. }
    destruct (IH Hsub1 Hrest) as [IH1 _]. lia.
  - rewrite Hused in IH.
    assert (Hfb : fallback_name st1 = fallback_name st).
    { unfold fallback_name. by rewrite Hused. }
    rewrite Hfb in IH.
    destruct (IH Hsub Hrest) as [_ IH2]. specialize (IH2 Hhead).
    split; [lia|]. intros Hne. exfalso. apply Hne. by left.
Qed.

End Issue.

(** C2: the placeholder returned when the attempts run out is not recorded
    in [used_names], so it is handed out again by the next call that runs
    out: whatever the random source, 802 calls that start from an empty
    set return some name twice. *)
Theorem issued_names_repeat (rnd : nat -> N) (n : nat) (st : state) :
  used_names st = ∅ ->
  802 <= n ->
  exists i j name,
    i < j /\ fst (issue rnd n st) !! i = Some name
    /\ fst (issue rnd n st) !! j = Some name.
Proof.
  intros Hempty Hn. apply not_NoDup_repeats. intros Hnd.
  destruct (issue_bound rnd n st) as [H _]; [|done|].
  - rewrite Hempty. apply empty_subseteq.
  - rewrite Hempty, size_empty in H. lia.
Qed.

(** The theorem at a run of 802 calls. *)
Lemma issued_names_repeat_witness :
  exists i j name,
    i < j
    /\ fst (issue (fun _ => 0%N) 802 (State 0 ∅)) !! i = Some name
    /\ fst (issue (fun _ => 0%N) 802 (State 0 ∅)) !! j = Some name.
Proof. apply issued_names_repeat; [reflexivity | lia]. Defined.

End NameFacts.

(** ** anonymize_portfolio.py: amounts and years *)

Module ValueFacts.

Import Re ReFacts Portfolio Py.

Section Values.

Variable rnd : nat -> N.

Lemma randint_range (a b : Z) st :
  (a <= b)%Z ->
  exists r, Random.randint rnd a b st = (r, State (S (draws st)) (used_names st))
            /\ (a <= r <= b)%Z.
Proof.
  intros Hab. unfold Random.randint, bind, ret, Random.next.
  eexists. split; [reflexivity|].
  pose proof (Z.mod_pos_bound (Z.of_N (rnd (draws st))) (b - a + 1)). lia.
Qed.

Lemma year_window_bounds (y : Z) :
  let lo := Z.max 2010 (y - 5) in
  let hi := Z.min 2025 (y + 5) in
  year_window y = (Z.min lo hi, Z.max lo hi).
Proof.
  cbv zeta. unfold year_window.
  destruct (Z.gtb_spec (Z.max 2010 (y - 5)) (Z.min 2025 (y + 5))); f_equal; lia.
Qed.


Lemma replace_year_in_range m st :
  (2000 <= year_of m <= 2025)%Z ->
  exists y',
    replace_year rnd m st
      = (chars (str_of_Z y'), State (S (draws st)) (used_names st))
    /\ (Z.min (Z.max 2010 (year_of m - 5)) (Z.min 2025 (year_of m + 5)) <= y'
        <= Z.max (Z.max 2010 (year_of m - 5)) (Z.min 2025 (year_of m + 5)))%Z.
Proof.
  intros Hy. unfold replace_year. fold (year_of m).
  assert (E : ((2000 <=? year_of m) && (year_of m <=? 2025))%Z = true).
  { apply andb_true_intro. split; apply Z.leb_le; lia. }
  rewrite E, year_window_bounds. cbv zeta.
  unfold bind, ret.
  destruct (randint_range
              (Z.min (Z.max 2010 (year_of m - 5)) (Z.min 2025 (year_of m + 5)))
              (Z.max (Z.max 2010 (year_of m - 5)) (Z.min 2025 (year_of m + 5)))
              st) as (r & Hr & Hb); [lia|].
  rewrite Hr. by exists r.
Qed.


Lemma replace_year_out_of_range m st :
  ~ (2000 <= year_of m <= 2025)%Z ->
  replace_year rnd m st = (Re.group0 m, st).
Proof.
  intros Hy. unfold replace_year. fold (year_of m).
  assert (E : ((2000 <=? year_of m) && (year_of m <=? 2025))%Z = false).
  { apply andb_false_iff.
    destruct (Z.leb_spec 2000 (year_of m)); [right|by left].
    apply Z.leb_gt. lia. }
  by rewrite E.
Qed.


Lemma year_tokens_checked :
  forallb one_year_token (map Z.of_nat (seq 2000 100)) = true.
Proof. vm_compute. reflexivity. Qed.

Lemma year_token (y : Z) :
  (2000 <= y <= 2099)%Z ->
  exists m, tokens false year_pattern (chars (str_of_Z y)) = [TMatch m]
            /\ Re.group0 m = chars (str_of_Z y) /\ year_of m = y.
Proof.
  intros Hy. pose proof year_tokens_checked as H.
  rewrite forallb_forall in H. specialize (H y).
  assert (Hin : In y (map Z.of_nat (seq 2000 100))).
  { apply in_map_iff. exists (Z.to_nat y). split; [lia|]. apply in_seq. lia. }
  specialize (H Hin). unfold one_year_token in H.
  destruct (tokens false year_pattern (chars (str_of_Z y))) as [|[c|m] [|t ts]];
    try discriminate.
  apply andb_prop in H as [H1 H2]. exists m.
  apply bool_decide_eq_true in H1. apply Z.eqb_eq in H2. done.
Qed.

Lemma randomize_dates_token (y : Z) st :
  (2000 <= y <= 2099)%Z ->
  exists m, year_of m = y /\ Re.group0 m = chars (str_of_Z y)
    /\ randomize_dates rnd (str_of_Z y) st
       = (text (fst (replace_year rnd m st)), snd (replace_year rnd m st)).
Proof.
  intros Hy. destruct (year_token y Hy) as (m & Ht & Hg & Hm).
  exists m. split; [done|]. split; [done|].
  unfold randomize_dates, bind, ret, sub_st. rewrite Ht. cbn [render_st].
  destruct (replace_year rnd m st) as [piece st1]. cbn [fst snd].
  by rewrite app_nil_r.
Qed.

End Values.

(** A year token from 2000 to 2025 becomes a year of the window from
    max(2010, y - 5) to min(2025, y + 5), its bounds swapped when they are
    inverted, so for y >= 2005 a year from 2010 to 2025 at most five away
    from y; year tokens outside 2000..2025 and all other text stay as they
    are; 2024 becomes a year from 2019 to 2025 and 1999 stays 1999. *)
Lemma randomize_dates_window (rnd : nat -> N) :
  (forall (y : Z) st,
     (2000 <= y <= 2025)%Z ->
     exists y',
       randomize_dates rnd (str_of_Z y) st
         = (str_of_Z y', State (S (draws st)) (used_names st))
       /\ (Z.min (Z.max 2010 (y - 5)) (Z.min 2025 (y + 5)) <= y'
           <= Z.max (Z.max 2010 (y - 5)) (Z.min 2025 (y + 5)))%Z
       /\ ((2005 <= y)%Z ->
           (2010 <= y' <= 2025)%Z /\ (y - 5 <= y' <= y + 5)%Z))
  /\ (forall m st,
        (2000 <= year_of m <= 2025)%Z ->
        exists y',
          replace_year rnd m st
            = (chars (str_of_Z y'), State (S (draws st)) (used_names st))
          /\ (Z.min (Z.max 2010 (year_of m - 5)) (Z.min 2025 (year_of m + 5))
              <= y'
              <= Z.max (Z.max 2010 (year_of m - 5))
                       (Z.min 2025 (year_of m + 5)))%Z)
  /\ (forall (s : string) st,
        (forall m, In m (finditer false year_pattern (chars s)) ->
                   ~ (2000 <= year_of m <= 2025)%Z) ->
        randomize_dates rnd s st = (s, st))
  /\ (forall st, exists y',
        fst (randomize_dates rnd "2024" st) = str_of_Z y'
        /\ (2019 <= y' <= 2025)%Z)
  /\ (forall st, randomize_dates rnd "1999" st = ("1999", st)).
Proof.
  assert (A : forall (y : Z) st,
     (2000 <= y <= 2025)%Z ->
     exists y',
       randomize_dates rnd (str_of_Z y) st
         = (str_of_Z y', State (S (draws st)) (used_names st))
       /\ (Z.min (Z.max 2010 (y - 5)) (Z.min 2025 (y + 5)) <= y'
           <= Z.max (Z.max 2010 (y - 5)) (Z.min 2025 (y + 5)))%Z
       /\ ((2005 <= y)%Z ->
           (2010 <= y' <= 2025)%Z /\ (y - 5 <= y' <= y + 5)%Z)).
  { intros y st Hy.
    destruct (randomize_dates_token rnd y st) as (m & Hm & Hg & ->); [lia|].
    destruct (replace_year_in_range rnd m st) as (y' & -> & Hb); [lia|].
    rewrite Hm in Hb. exists y'. cbn [fst snd]. rewrite text_chars.
    split; [done|]. split; [done|]. lia. }
  assert (B : forall (s : string) st,
        (forall m, In m (finditer false year_pattern (chars s)) ->
                   ~ (2000 <= year_of m <= 2025)%Z) ->
        randomize_dates rnd s st = (s, st)).
  { intros s st H. unfold randomize_dates, bind, ret.
    rewrite sub_st_identity; [by rewrite text_chars|].
    intros m Hm. apply replace_year_out_of_range. by apply H. }
  split; [exact A|]. split; [apply replace_year_in_range|].
  split; [exact B|]. split.
  - intros st. destruct (A 2024%Z st) as (y' & E & _ & Hb); [lia|].
    exists y'. change (str_of_Z 2024) with "2024" in E. rewrite E.
    split; [done | lia].
  - intros st. apply B. intros m Hm. vm_compute in Hm. done.
Qed.



(** C8: when [float] fails on the numeric part of a match of the amount
    pattern, the callback returns the matched text as it is and reads
    nothing from the random source; a text all of whose amounts fail to
    parse comes back unchanged. *)
Theorem randomize_amount_malformed (rnd : nat -> N) :
  (forall m st,
     Float.of_string (amount_str m) = None ->
     replace_amount rnd m st = (Re.group0 m, st))
  /\ (forall (s : string) st,
        (forall m, In m (finditer true amount_pattern (chars s)) ->
                   Float.of_string (amount_str m) = None) ->
        randomize_amount rnd s st = (s, st)).
Proof.
  assert (A : forall m st,
     Float.of_string (amount_str m) = None ->
     replace_amount rnd m st = (Re.group0 m, st)).
  { intros m st H. unfold replace_amount. by rewrite H. }
  split; [exact A|].
  intros s st H. unfold randomize_amount, bind, ret.
  rewrite sub_st_identity; [by rewrite text_chars|].
  intros m Hm. apply A. by apply H.
Qed.

(** The theorem at a text with two amounts that have no digits. *)
Lemma randomize_amount_malformed_witness :
  randomize_amount (fun _ => 7%N) "costs $, or $,,, more" (State 0 ∅)
    = ("costs $, or $,,, more", State 0 ∅).
Proof.
  apply (randomize_amount_malformed (fun _ => 7%N)).
  intros m Hm. vm_compute in Hm.
  destruct Hm as [<-|[<-|[]]]; reflexivity.
Defined.

(** C4: the amount pattern takes the first letter of the word after an
    amount for a magnitude suffix.  "$500 to expand" is read as 500
    trillion and comes back as "$335.0To expand" under the smallest factor;
    of "$5 million" only "$5 m" is replaced, which leaves "illion" behind
    the new suffix. *)
Theorem randomize_amount_reads_next_word :
  map (fun m => (Py.group0 m, multiplier_of (suffix_of m)))
      (finditer true amount_pattern (chars "$500 to expand"))
    = [("$500 t", 1000000000000%Z)]
  /\ fst (randomize_amount (fun _ => 0%N) "$500 to expand" (State 0 ∅))
      = "$335.0To expand"
  /\ map Py.group0 (finditer true amount_pattern (chars "$5 million"))
      = ["$5 m"]
  /\ fst (randomize_amount (fun _ => 0%N) "$5 million" (State 0 ∅))
      = "$3.4Million"
  /\ fst (randomize_amount (fun _ => 0%N) "$1,000,000" (State 0 ∅))
      = "$670.0K".
Proof. vm_compute. done. Qed.

(** C7: the suffix patterns have no word boundary behind them and are
    searched anywhere in the name, so a name that merely begins with the
    letters of a suffix gets that suffix attached to its substitute. *)
Theorem preserve_suffix_inside_word :
  preserve_suffix "Incredible Foods" = Some "Inc"
  /\ preserve_suffix "Cocoa Labs" = Some "Co"
  /\ preserve_suffix "Acme, Inc." = Some "Inc."
  /\ preserve_suffix "Acme" = None
  /\ (fun out : Csv.row * cursors => out.1 !! "Name")
       <$> (anonymize_row (fun _ => 0%N) (fun d _ _ _ n => (d, n)) [] [] []
              (Cursors 0 0 0) {["Name" := Some "Incredible Foods"]}
              (State 0 ∅)).1
     = Some (Some (Some "Quantum Tech, Inc")).
Proof. vm_compute. done. Qed.

End ValueFacts.

Module ShuffleFacts.

Import Portfolio Py.

Section Shuffle.

Variable rnd : nat -> N.
Variable anonymize_description :
  string -> string -> string -> string -> nat -> string * nat.

Lemma swap_Permutation {A} (i j : nat) (x : list A) :
  Random.swap i j x ≡ₚ x.
Proof.
  unfold Random.swap.
  destruct (x !! i) as [xi|] eqn:Hi; [|done].
  destruct (x !! j) as [xj|] eqn:Hj; [|done].
  by apply Permutation_insert_swap.
Qed.

Lemma shuffle_from_Permutation {A} (i : nat) : forall (x : list A) st,
  fst (Random.shuffle_from rnd i x st) ≡ₚ x.
Proof.
  induction i as [|i IH]; intros x st; [done|].
  cbn [Random.shuffle_from]. unfold bind, Random.next.
  rewrite IH. apply swap_Permutation.
Qed.

Lemma shuffle_Permutation {A} (x : list A) st :
  fst (Random.shuffle rnd x st) ≡ₚ x.
Proof. apply shuffle_from_Permutation. Qed.

Lemma reassign_other key values index (row : Csv.row) other :
  other <> key ->
  (reassign key values index row).1 !! other = row !! other.
Proof.
  intros H. unfold reassign.
  destruct (row !! key), (values !! index); cbn [fst]; try done.
  by rewrite lookup_insert_ne.
Qed.

Lemma reassign_key key values index (row : Csv.row) :
  match row !! key, values !! index with
  | Some _, Some w =>
      reassign key values index row = (<[key := Some w]> row, S index)
  | _, _ => reassign key values index row = (row, index)
  end.
Proof. unfold reassign. by destruct (row !! key), (values !! index). Qed.

Lemma assign_cons values index cell cells :
  assign values index (cell :: cells) =
    (assign_cell values index cell).1
      :: assign values (assign_cell values index cell).2 cells.
Proof.
  unfold assign_cell. destruct cell as [v|]; [|done]. cbn [assign].
  by destruct (values !! index).
Qed.

Lemma reassign_cell key values index (row : Csv.row) :
  (reassign key values index row).1 !! key
    = (assign_cell values index (row !! key)).1
  /\ (reassign key values index row).2
     = (assign_cell values index (row !! key)).2.
Proof.
  unfold reassign, assign_cell.
  destruct (row !! key) eqn:E, (values !! index); cbn [fst snd]; try done.
  by rewrite lookup_insert_eq.
Qed.

Lemma reassign_dom key values index (row : Csv.row) :
  dom (reassign key values index row).1 = dom row.
Proof.
  unfold reassign.
  destruct (row !! key) eqn:E, (values !! index); cbn [fst]; try done.
  rewrite dom_insert_L. apply subseteq_union_1_L, singleton_subseteq_l.
  apply elem_of_dom. eauto.
Qed.

Variables locations stages sales_models : list string.

Lemma default_None (o : option (option string)) :
  default (Some "") o = None <-> o = Some None.
Proof. by destruct o as [[v|]|]. Qed.

(** The loop body ends in an exception exactly on a record whose 'Name'
    is [None]. *)
Lemma anonymize_row_None cur (row : Csv.row) st :
  (anonymize_row rnd anonymize_description locations stages sales_models
                 cur row st).1 = None
  <-> row !! "Name" = Some None.
Proof.
  rewrite <- default_None. unfold anonymize_row, bind, ret. cbv zeta.
  destruct (generate_company_name rnd st) as [new_base_name st1].
  destruct (default (Some "") (row !! "Name")) as [original_name|]; [|done].
  set (step := match _ !! "Description" with Some _ => _ | None => _ end).
  destruct (step st1) as [row4 st2].
  destruct (reassign "Location" _ _ _) as [row5 li].
  destruct (reassign "Stage" _ _ _) as [row6 sti].
  destruct (reassign "Sales Model" _ _ _) as [row7 sai].
  done.
Qed.

(** What the loop body makes of a record it gets through: the name, the
    links, the description, the three shuffled columns, the cursors, the
    keys, and every other field. *)
Lemma anonymize_row_Some cur (row : Csv.row) st rout cur' st' :
  anonymize_row rnd anonymize_description locations stages sales_models
                cur row st = (Some (rout, cur'), st') ->
  exists original_name,
    default (Some "") (row !! "Name") = Some original_name
    /\ let base := (generate_company_name rnd st).1 in
       let st1 := (generate_company_name rnd st).2 in
       let new_name :=
         match preserve_suffix original_name with
         | Some sfx => if truthy sfx then base +:+ ", " +:+ sfx else base
         | None => base
         end in
       let new_website :=
         "https://" +:+ normalize_to_slug new_name +:+ ".example" in
       used_names st' = used_names st1
       /\ rout !! "Name" = Some (Some new_name)
       /\ rout !! "Website" = Some (Some new_website)
       /\ rout !! "Pitch"
          = Some (Some ("https://pitch.vc/companies/"
                          +:+ normalize_to_slug new_name))
       /\ rout !! "Description"
          = match row !! "Description" with
            | Some (Some d) =>
                Some (Some (anonymize_description d original_name new_name
                              new_website (draws st1)).1)
            | other => other
            end
       /\ (rout !! "Location", loc_index cur')
          = assign_cell locations (loc_index cur) (row !! "Location")
       /\ (rout !! "Stage", stage_index cur')
          = assign_cell stages (stage_index cur) (row !! "Stage")
       /\ (rout !! "Sales Model", sales_index cur')
          = assign_cell sales_models (sales_index cur) (row !! "Sales Model")
       /\ dom rout = {["Pitch"]} ∪ ({["Website"]} ∪ ({["Name"]} ∪ dom row))
       /\ forall key,
            key ∉ ["Name"; "Website"; "Pitch"; "Description"; "Location";
                   "Stage"; "Sales Model"] ->
            rout !! key = row !! key.
Proof.
  unfold anonymize_row, bind, ret. cbv zeta.
  destruct (generate_company_name rnd st) as [new_base_name st1].
  destruct (default (Some "") (row !! "Name")) as [original_name|]; [|done].
  cbn [fst snd].
  set (new_name := match preserve_suffix _ with Some _ => _ | None => _ end).
  set (row3 := <["Pitch" := _]> (<["Website" := _]> (<["Name" := _]> row))).
  assert (H3 : forall k, k <> "Name" -> k <> "Website" -> k <> "Pitch" ->
                 row3 !! k = row !! k).
  { intros k ? ? ?. unfold row3. by rewrite !lookup_insert_ne. }
  assert (D3 : dom row3 = {["Pitch"]} ∪ ({["Website"]} ∪ ({["Name"]} ∪ dom row))).
  { unfold row3. by rewrite !dom_insert_L. }
  set (step := match row3 !! "Description" with Some _ => _ | None => _ end).
  assert (H4 : used_names (step st1).2 = used_names st1
               /\ dom (step st1).1 = dom row3
               /\ (forall k, k <> "Description" ->
                      (step st1).1 !! k = row3 !! k)
               /\ (step st1).1 !! "Description"
                  = match row !! "Description" with
                    | Some (Some d) =>
                        Some (Some (anonymize_description d original_name
                                      new_name
                                      ("https://" +:+ normalize_to_slug new_name
                                         +:+ ".example") (draws st1)).1)
                    | other => other
                    end).
  { unfold step. rewrite (H3 "Description") by done.
    destruct (row !! "Description") as [[d|]|] eqn:E.
    - unfold describe. destruct (anonymize_description _ _ _ _ _) as [d1 n1].
      cbn [fst snd used_names]. split; [done|]. split; [|split].
      + rewrite dom_insert_L.
        apply subseteq_union_1_L, singleton_subseteq_l, elem_of_dom.
        rewrite (H3 "Description") by done. eauto.
      + intros k Hk. by rewrite lookup_insert_ne.
      + by rewrite lookup_insert_eq.
    - cbn [fst snd]. by rewrite (H3 "Description").
    - cbn [fst snd]. by rewrite (H3 "Description"). }
  destruct (step st1) as [row4 st2]. cbn [fst snd] in H4.
  destruct H4 as (Hu & D4 & H4 & Hd).
  destruct (reassign_cell "Location" locations (loc_index cur) row4) as [Lc Li].
  pose proof (fun k => reassign_other "Location" locations (loc_index cur) row4 k) as Lo.
  pose proof (reassign_dom "Location" locations (loc_index cur) row4) as D5.
  destruct (reassign "Location" locations (loc_index cur) row4) as [row5 li].
  destruct (reassign_cell "Stage" stages (stage_index cur) row5) as [Sc Si].
  pose proof (fun k => reassign_other "Stage" stages (stage_index cur) row5 k) as So.
  pose proof (reassign_dom "Stage" stages (stage_index cur) row5) as D6.
  destruct (reassign "Stage" stages (stage_index cur) row5) as [row6 sti].
  destruct (reassign_cell "Sales Model" sales_models (sales_index cur) row6) as [Mc Mi].
  pose proof (fun k => reassign_other "Sales Model" sales_models (sales_index cur) row6 k) as Mo.
  pose proof (reassign_dom "Sales Model" sales_models (sales_index cur) row6) as D7.
  destruct (reassign "Sales Model" sales_models (sales_index cur) row6) as [row7 sai].
  cbn [fst snd] in *.
  intros [= <- <- <-]. exists original_name. split; [done|].
  cbn [loc_index stage_index sales_index].
  split; [done|].
  assert (O : forall k, k <> "Location" -> k <> "Stage" ->
                k <> "Sales Model" -> row7 !! k = row4 !! k).
  { intros k ? ? ?. by rewrite Mo, So, Lo. }
  repeat split.
  - rewrite O, H4 by done. unfold row3.
    rewrite !lookup_insert_ne by done. by rewrite lookup_insert_eq.
  - rewrite O, H4 by done. unfold row3.
    rewrite lookup_insert_ne by done. by rewrite lookup_insert_eq.
  - rewrite O, H4 by done. unfold row3. by rewrite lookup_insert_eq.
  - by rewrite O, Hd.
  - rewrite Mo, So, Lc, Li, H4, H3 by done. symmetry. apply surjective_pairing.
  - rewrite Mo, Sc, Si, Lo, H4, H3 by done. symmetry. apply surjective_pairing.
  - rewrite Mc, Mi, So, Lo, H4, H3 by done. symmetry. apply surjective_pairing.
  - congruence.
  - intros key Hkey. rewrite !not_elem_of_cons in Hkey.
    destruct Hkey as (? & ? & ? & ? & ? & ? & ? & _).
    by rewrite O, H4, H3.
Qed.

Lemma anonymize_rows_None (records : list Csv.row) : forall cur st,
  (anonymize_rows rnd anonymize_description locations stages sales_models
                  cur records st).1 = None
  <-> Exists (fun r : Csv.row => r !! "Name" = Some None) records.
Proof.
  induction records as [|row records IH]; intros cur st.
  - cbn. rewrite Exists_nil. by split.
  - cbn [anonymize_rows]. unfold bind, ret. rewrite Exists_cons.
    pose proof (anonymize_row_None cur row st) as Hrow.
    destruct (anonymize_row _ _ _ _ _ cur row st) as [[[row' cur']|] st1];
      cbn [fst] in Hrow.
    + specialize (IH cur' st1).
      destruct (anonymize_rows _ _ _ _ _ cur' records st1) as [[rest|] st2];
        cbn [fst fmap option_fmap option_map] in *.
      * split; [done|]. intros [H|H]; [by apply Hrow in H | by apply IH in H].
      * split; [intros _; right; by apply IH | done].
    + cbn [fst]. split; [intros _; left; by apply Hrow | done].
Qed.

(** What holds of every record the loop body gets through holds of the
    records of a run, one by one. *)
Lemma portfolio_rows_Forall2 (P : Csv.row -> Csv.row -> Prop) :
  (forall cur row st rout cur' st',
     anonymize_row rnd anonymize_description locations stages sales_models
                   cur row st = (Some (rout, cur'), st') ->
     P row rout) ->
  forall records cur st rows st',
    anonymize_rows rnd anonymize_description locations stages sales_models
                   cur records st = (Some rows, st') ->
    Forall2 P records rows.
Proof.
  intros HP. induction records as [|row records IH]; intros cur st rows st'.
  - cbn. unfold ret. intros [= <- <-]. constructor.
  - cbn [anonymize_rows]. unfold bind, ret.
    pose proof (HP cur row st) as Hrow.
    destruct (anonymize_row _ _ _ _ _ cur row st) as [[[row' cur']|] st1];
      [|done].
    specialize (IH cur' st1).
    destruct (anonymize_rows _ _ _ _ _ cur' records st1) as [[rest|] st2];
      cbn [fmap option_fmap option_map]; [|done].
    intros [= <- <-]. constructor; [by eapply Hrow | by eapply IH].
Qed.

(** The three shuffled columns of a run. *)
Lemma anonymize_rows_cells (records : list Csv.row) :
  forall cur st rows st',
    anonymize_rows rnd anonymize_description locations stages sales_models
                   cur records st = (Some rows, st') ->
    Csv.column "Location" rows
      = assign locations (loc_index cur) (Csv.column "Location" records)
    /\ Csv.column "Stage" rows
       = assign stages (stage_index cur) (Csv.column "Stage" records)
    /\ Csv.column "Sales Model" rows
       = assign sales_models (sales_index cur)
                (Csv.column "Sales Model" records).
Proof.
  induction records as [|row records IH]; intros cur st rows st'.
  - cbn. unfold ret. by intros [= <- <-].
  - cbn [anonymize_rows]. unfold bind, ret.
    pose proof (anonymize_row_Some cur row st) as Hrow.
    destruct (anonymize_row _ _ _ _ _ cur row st) as [[[row' cur']|] st1];
      [|done].
    destruct (Hrow row' cur' st1 eq_refl)
      as (name & _ & _ & _ & _ & _ & _ & HL & HS & HM & _).
    specialize (IH cur' st1).
    destruct (anonymize_rows _ _ _ _ _ cur' records st1) as [[rest|] st2];
      cbn [fmap option_fmap option_map]; [|done].
    intros [= <- <-]. destruct (IH rest st2 eq_refl) as (IL & IS & IM).
    unfold Csv.column in *. cbn [map]. rewrite !assign_cons, IL, IS, IM.
    rewrite <- HL, <- HS, <- HM. done.
Qed.

Lemma anonymize_rows_dom (records : list Csv.row) cur st rows st' :
  anonymize_rows rnd anonymize_description locations stages sales_models
                 cur records st = (Some rows, st') ->
  Forall2 (fun rin rout : Csv.row =>
             dom rout = {["Pitch"]} ∪ ({["Website"]} ∪ ({["Name"]} ∪ dom rin)))
          records rows.
Proof.
  apply portfolio_rows_Forall2. intros c row s rout c' s' H.
  by destruct (anonymize_row_Some c row s rout c' s' H)
    as (name & _ & _ & _ & _ & _ & _ & _ & _ & _ & Hd & _).
Qed.

End Shuffle.

(** Whether a run comes to write its output. *)
Lemma portfolio_csv_written rnd anonymize_description
    (fieldnames : list string) (records : list Csv.row) st :
  is_Some (anonymize_csv rnd anonymize_description fieldnames records st).1
  <-> Forall (fun r : Csv.row =>
                r !! "Name" <> Some None
                /\ "Name" ∈ fieldnames /\ "Website" ∈ fieldnames
                /\ "Pitch" ∈ fieldnames /\ dom r ⊆ list_to_set fieldnames)
             records.
Proof.
  unfold anonymize_csv, bind, ret, fresh_used_names.
  destruct (Random.shuffle rnd _ st) as [locations st1].
  destruct (Random.shuffle rnd _ st1) as [stages st2].
  destruct (Random.shuffle rnd _ st2) as [sales st3].
  pose proof (anonymize_rows_None rnd anonymize_description locations
                stages sales records (Cursors 0 0 0) (State (draws st3) ∅))
    as Hnone.
  pose proof (anonymize_rows_dom rnd anonymize_description locations
                stages sales records (Cursors 0 0 0) (State (draws st3) ∅))
    as Hrows.
  destruct (anonymize_rows _ _ _ _ _ _ records _) as [[rows|] st4];
    cbn [fst mbind option_bind] in *.
  - specialize (Hrows rows st4 eq_refl).
    assert (Hnames : Forall (fun r : Csv.row => r !! "Name" <> Some None)
                            records).
    { apply Forall_forall. intros r Hr Hn.
      assert (E : Exists (fun r : Csv.row => r !! "Name" = Some None) records)
        by (apply Exists_exists; eauto).
      by apply Hnone in E. }
    rewrite write_is_Some.
    rewrite <- (Forall2_Forall_iff _
                  (fun r : Csv.row =>
                     "Name" ∈ fieldnames /\ "Website" ∈ fieldnames
                     /\ "Pitch" ∈ fieldnames /\ dom r ⊆ list_to_set fieldnames)
                  _ _ _ Hrows).
    + rewrite !Forall_and. tauto.
    + intros rin rout ->. rewrite !union_subseteq, !singleton_subseteq_l.
      rewrite !elem_of_list_to_set. tauto.
  - split; [by intros [? ?]|]. intros H. exfalso.
    pose proof (proj1 Hnone eq_refl) as E.
    apply Exists_exists in E as (r & Hin & Hr).
    rewrite Forall_forall in H. by destruct (H r Hin) as [Hn _].
Qed.

(** The run writes its output when the header has the three generated
    columns and every record has its keys in the header and is long enough
    to have a 'Name'; the Location column it writes is the one read,
    reassigned from a permutation of its non-empty cells. *)
Lemma portfolio_csv_location rnd anonymize_description
    (fieldnames : list string) (records : list Csv.row) st :
  "Name" ∈ fieldnames -> "Website" ∈ fieldnames -> "Pitch" ∈ fieldnames ->
  Forall (fun r : Csv.row =>
            dom r ⊆ list_to_set fieldnames /\ r !! "Name" <> Some None)
         records ->
  exists locations rows st',
    locations ≡ₚ collect "Location" records
    /\ anonymize_csv rnd anonymize_description fieldnames records st
       = (Some (fieldnames, rows), st')
    /\ Csv.column "Location" rows
       = assign locations 0 (Csv.column "Location" records).
Proof.
  intros Hn Hw Hp Hdom.
  assert (Hsome : is_Some (anonymize_csv rnd anonymize_description fieldnames
                             records st).1).
  { apply portfolio_csv_written. eapply Forall_impl; [exact Hdom|].
    by intros r [? ?]. }
  revert Hsome. unfold anonymize_csv, bind, ret, fresh_used_names.
  pose proof (shuffle_Permutation rnd (collect "Location" records) st) as Hperm.
  destruct (Random.shuffle rnd (collect "Location" records) st) as [locations st1].
  destruct (Random.shuffle rnd (collect "Stage" records) st1) as [stages st2].
  destruct (Random.shuffle rnd (collect "Sales Model" records) st2) as [sales st3].
  cbn [fst] in Hperm.
  pose proof (anonymize_rows_cells rnd anonymize_description locations
                stages sales records (Cursors 0 0 0) (State (draws st3) ∅)) as Hcol.
  destruct (anonymize_rows _ _ _ _ _ _ records _) as [[rows|] st4];
    cbn [fst mbind option_bind]; [|by intros [? ?]].
  destruct (Hcol rows st4 eq_refl) as (HL & _).
  unfold Csv.write. destruct (forallb (Csv.writable fieldnames) rows);
    [|by intros [? ?]].
  intros _. by exists locations, rows, st4.
Qed.

Lemma Permutation_pair {A} (a b x y : A) :
  [a; b] ≡ₚ [x; y] -> (a = x /\ b = y) \/ (a = y /\ b = x).
Proof.
  intros H.
  assert (Ha : a ∈ [x; y]) by (rewrite <- H; by left).
  apply elem_of_cons in Ha as [->|Ha].
  - left. split; [done|]. apply (inj (x ::.)) in H.
    by apply Permutation_singleton_inj.
  - apply list_elem_of_singleton in Ha as ->. right. split; [done|].
    rewrite <- (Permutation_swap x y []) in H. apply (inj (y ::.)) in H.
    by apply Permutation_singleton_inj.
Qed.

Lemma assign_filled (values : list string) (cells : list string) :
  forall index,
    index + length cells <= length values ->
    assign values index (map (fun v => Some (Some v)) cells)
      = map (fun v => Some (Some v)) (take (length cells) (drop index values)).
Proof.
  induction cells as [|v cells IH]; intros index Hlen; [done|].
  cbn [map assign length] in *.
  destruct (values !! index) as [w|] eqn:E.
  - rewrite IH by lia. rewrite (drop_S _ _ _ E). done.
  - apply lookup_ge_None in E. lia.
Qed.

Lemma assign_nothing (cells : list (option (option string))) index :
  assign [] index cells = cells.
Proof.
  induction cells as [|[v|] cells IH]; cbn [assign]; [done| |]; by rewrite IH.
Qed.

Lemma collect_filled key (records : list Csv.row) :
  Forall (fun r : Csv.row =>
            exists v, r !! key = Some (Some v) /\ truthy v = true) records ->
  Csv.column key records = map (fun v => Some (Some v)) (collect key records).
Proof.
  induction 1 as [|r records (v & Hv & Ht) _ IH]; [done|].
  unfold Csv.column, collect in *. cbn [map flat_map].
  rewrite Hv, Ht. cbn [app map]. by rewrite IH.
Qed.

(** Where every record has a non-empty Location the column written is a
    permutation of the column read, and where no record has one the column
    is written as it was read. *)
Lemma shuffle_preserves_filled_column rnd anonymize_description
    (fieldnames : list string) (records : list Csv.row) st :
  "Name" ∈ fieldnames -> "Website" ∈ fieldnames -> "Pitch" ∈ fieldnames ->
  Forall (fun r : Csv.row =>
            dom r ⊆ list_to_set fieldnames /\ r !! "Name" <> Some None)
         records ->
  exists rows st',
    anonymize_csv rnd anonymize_description fieldnames records st
      = (Some (fieldnames, rows), st')
    /\ (Forall (fun r : Csv.row =>
                  exists v, r !! "Location" = Some (Some v) /\ truthy v = true)
               records ->
        Csv.column "Location" rows ≡ₚ Csv.column "Location" records)
    /\ (collect "Location" records = [] ->
        Csv.column "Location" rows = Csv.column "Location" records).
Proof.
  intros Hn Hw Hp Hdom.
  destruct (portfolio_csv_location rnd anonymize_description fieldnames
              records st Hn Hw Hp Hdom)
    as (locations & rows & st' & Hperm & Hrun & Hcol).
  exists rows, st'. split; [exact Hrun|]. rewrite Hcol. split.
  - intros Hfull. rewrite (collect_filled _ _ Hfull).
    pose proof (Permutation_length Hperm) as Hlen.
    rewrite assign_filled by (rewrite Hlen; lia).
    rewrite drop_0, <- Hlen, firstn_all. by rewrite Hperm.
  - intros Hnone. rewrite Hnone in Hperm. apply Permutation_nil_r in Hperm.
    rewrite Hperm. apply assign_nothing.
Qed.

(** C3: the first pass skips blank cells, the second pass hands the
    shuffled values to the first records whatever their cell holds.  Of the
    Location column Austin, blank, Boston the run writes Austin, Boston,
    Boston or Boston, Austin, Boston: the blank is gone and Boston is there
    twice, whatever the random source and the description pass do. *)
Theorem shuffle_overwrites_blank_cells rnd anonymize_description st :
  exists rows st',
    anonymize_csv rnd anonymize_description
      ["Name"; "Website"; "Pitch"; "Location"]
      [ {["Name" := Some "Acme"; "Website" := Some ""; "Pitch" := Some "";
          "Location" := Some "Austin"]};
        {["Name" := Some "Bolt"; "Website" := Some ""; "Pitch" := Some "";
          "Location" := Some ""]};
        {["Name" := Some "Core"; "Website" := Some ""; "Pitch" := Some "";
          "Location" := Some "Boston"]} ] st
    = (Some (["Name"; "Website"; "Pitch"; "Location"], rows), st')
    /\ (Csv.column "Location" rows
          = [Some (Some "Austin"); Some (Some "Boston"); Some (Some "Boston")]
        \/ Csv.column "Location" rows
          = [Some (Some "Boston"); Some (Some "Austin"); Some (Some "Boston")]).
Proof.
  destruct (portfolio_csv_location rnd anonymize_description
              ["Name"; "Website"; "Pitch"; "Location"]
              [ {["Name" := Some "Acme"; "Website" := Some "";
                  "Pitch" := Some ""; "Location" := Some "Austin"]};
                {["Name" := Some "Bolt"; "Website" := Some "";
                  "Pitch" := Some ""; "Location" := Some ""]};
                {["Name" := Some "Core"; "Website" := Some "";
                  "Pitch" := Some ""; "Location" := Some "Boston"]} ] st)
    as (locations & rows & st' & Hperm & Hrun & Hcol).
  - set_solver.
  - set_solver.
  - set_solver.
  - repeat (constructor; [split; [rewrite !dom_insert_L; set_solver | done]|]).
    constructor.
  - exists rows, st'. split; [exact Hrun|]. rewrite Hcol.
    change (collect "Location" _) with ["Austin"; "Boston"] in Hperm.
    change (Csv.column "Location" _)
      with [Some (Some "Austin"); Some (Some ""); Some (Some "Boston")].
    pose proof (Permutation_length Hperm) as Hlen.
    destruct locations as [|a [|b [|c l]]]; try done.
    apply Permutation_pair in Hperm as [[-> ->]|[-> ->]]; [by left | by right].
Qed.

End ShuffleFacts.

(** ** anonymize_mentors.py: later passes and inserted text *)

Module BioFacts.

Import Mentors Py.

(** C1: the multi-word pass runs over the text the earlier passes wrote.
    It takes the substitute name "Sarah Johnson" for an entity and replaces
    it, and it matches the words inside the placeholder
    "[Technology Company]" and wraps them in a second pair of brackets. *)
Theorem bio_rewrites_inserted_text :
  re_sub_fn false multiword_pattern replace_multiword
    "Sarah Johnson founded the firm"
    = "[Technology Company] founded the firm"
  /\ anonymize_bio "Jane Carter founded the firm; Carter later sold it"
       "Dr. Jane Carter" "Sarah" "Johnson" "Sarah Johnson"
     = "[Technology Company] founded the firm; Johnson later sold it"
  /\ re_sub_fn false multiword_pattern replace_multiword
       "Worked at [Technology Company]."
     = "Worked at [[Technology Company]]."
  /\ anonymize_bio "Worked at Google."
       "Dr. Jane Carter" "Sarah" "Johnson" "Sarah Johnson"
     = "Worked at [[Technology Company]]."
  /\ (fun rout : Csv.row => rout !! "Bio")
       <$> (anonymize_row (fun _ => 0%N)
              {["Full Name" := Some "Dr. Jane Carter";
                "Bio" := Some "Jane Carter founded the firm"]}
              (State 0 ∅)).1
     = Some (Some (Some "[Technology Company] founded the firm")).
Proof. vm_compute. done. Qed.

(** C6: "CEO", "API" and "AI" are on the allow-list of the acronym pass,
    but the multi-word pass takes an acronym that follows a capitalized
    word into its match and replaces both; "SaaS", also on the list, is
    replaced by the CamelCase pass before the acronym pass runs. *)
Theorem bio_replaces_allowed_acronyms :
  forallb (fun a => member a common_acronyms) ["CEO"; "API"; "AI"; "SaaS"]
    = true
  /\ anonymize_bio "Former CEO of a startup"
       "Dr. Jane Carter" "Sarah" "Johnson" "Sarah Johnson"
     = "[Technology Company] of a startup"
  /\ anonymize_bio "Built a Public API"
       "Dr. Jane Carter" "Sarah" "Johnson" "Sarah Johnson"
     = "Built a [Technology Company]"
  /\ anonymize_bio "Chief AI Officer"
       "Dr. Jane Carter" "Sarah" "Johnson" "Sarah Johnson"
     = "[Technology Company] Officer"
  /\ anonymize_bio "Sells SaaS tools"
       "Dr. Jane Carter" "Sarah" "Johnson" "Sarah Johnson"
     = "Sells [[Technology Company]] tools"
  /\ anonymize_bio "our CEO likes the API and AI"
       "Dr. Jane Carter" "Sarah" "Johnson" "Sarah Johnson"
     = "our CEO likes the API and AI".
Proof. vm_compute. done. Qed.

End BioFacts.

(** ** What a match can be *)

Module LangFacts.

Import Re ReFacts.

Lemma run_cat ic r1 r2 st :
  run ic (Cat r1 r2) st = flat_map (run ic r2) (run ic r1 st).
Proof. reflexivity. Qed.

Lemma lang_cat ic r rs w :
  lang ic (cat (r :: rs)) w <->
  exists w1 w2, w = w1 ++ w2 /\ lang ic r w1 /\ lang ic (cat rs) w2.
Proof.
  destruct rs as [|r' rs]; [|done]. simpl. split.
  - intros H. exists w, []. by rewrite app_nil_r.
  - intros (w1 & w2 & -> & H & ->). by rewrite app_nil_r.
Qed.

(** The rounds of a repetition, one text each. *)
Lemma rep_sound (P : list ascii -> Prop) (step : mstate -> list mstate) :
  (forall st st', In st' (step st) ->
     exists w, ms_rest st = w ++ ms_rest st' /\ P w) ->
  forall fuel lo hi st st',
    In st' (rep step fuel lo hi st) ->
    exists ws, ms_rest st = concat ws ++ ms_rest st' /\ Forall P ws
               /\ lo <= length ws
               /\ match hi with Some h => length ws <= h | None => True end.
Proof.
  intros Hstep. induction fuel as [|fuel IH]; intros lo hi st st' Hin.
  - simpl in Hin. destruct (Nat.eqb_spec lo 0) as [->|]; [|done].
    destruct Hin as [<-|[]]. exists []. repeat split; [constructor | done |].
    destruct hi; [simpl; lia | done].
  - rewrite rep_succ in Hin. apply in_app_or in Hin as [Hin|Hin].
    + assert (Hin' : In st' (flat_map
          (fun st1 => if length (ms_rest st1) <? length (ms_rest st)
                      then rep step fuel (pred lo) (option_map pred hi) st1
                      else []) (step st))).
      { destruct hi as [[|h]|]; done. }
      assert (Hhi : hi <> Some 0) by (intros ->; done).
      clear Hin. apply in_flat_map in Hin' as (st1 & H1 & H2).
      destruct (length (ms_rest st1) <? length (ms_rest st)); [|done].
      destruct (Hstep _ _ H1) as (w & Hw & Pw).
      destruct (IH _ _ _ _ H2) as (ws & Hws & Fws & Hlo & Hh).
      exists (w :: ws). simpl. rewrite Hw, Hws, app_assoc.
      repeat split; [by constructor | lia |].
      destruct hi as [[|h]|]; simpl in *; [done | lia | done].
    + destruct (Nat.eqb_spec lo 0) as [->|]; [|done].
      destruct Hin as [<-|[]]. exists []. repeat split; [constructor | done |].
      destruct hi; [simpl; lia | done].
Qed.

(** Every way the matcher gets through a pattern reads a text of the
    pattern's language off the front of the subject. *)
Lemma run_sound ic r : forall st st',
  In st' (run ic r st) ->
  exists w, ms_rest st = w ++ ms_rest st' /\ lang ic r w.
Proof.
  induction r as [|neg items|r1 IH1 r2 IH2|r1 IH1 r2 IH2|lo hi r IH| | | |n r IH];
    intros st st' Hin.
  - destruct Hin as [<-|[]]. by exists [].
  - simpl in Hin. destruct (ms_rest st) as [|c s] eqn:E; [done|].
    destruct (set_has ic neg items c) eqn:Hc; [|done].
    destruct Hin as [<-|[]]. exists [c]. split; [done|]. by exists c.
  - rewrite run_cat in Hin. apply in_flat_map in Hin as (st1 & H1 & H2).
    destruct (IH1 _ _ H1) as (w1 & E1 & L1).
    destruct (IH2 _ _ H2) as (w2 & E2 & L2).
    exists (w1 ++ w2). rewrite E1, E2, app_assoc. split; [done|].
    by exists w1, w2.
  - simpl in Hin. apply in_app_or in Hin as [Hin|Hin].
    + destruct (IH1 _ _ Hin) as (w & E & L). exists w. split; [done | by left].
    + destruct (IH2 _ _ Hin) as (w & E & L). exists w. split; [done | by right].
  - rewrite run_rep in Hin.
    destruct (rep_sound (lang ic r) (run ic r) IH _ _ _ _ _ Hin)
      as (ws & E & F & Hlo & Hhi).
    exists (concat ws). split; [done|]. by exists ws.
  - simpl in Hin. destruct (xorb _ _); [|done]. destruct Hin as [<-|[]]. by exists [].
  - simpl in Hin. destruct (ms_prev st); [done|]. destruct Hin as [<-|[]]. by exists [].
  - simpl in Hin. destruct (ms_rest st) as [|c [|d s]] eqn:E;
      [| destruct (Chr.at_code 10 c) |]; try done;
      destruct Hin as [<-|[]]; exists []; by rewrite E.
  - simpl in Hin. apply in_map_iff in Hin as (st1 & <- & H1).
    destruct (IH _ _ H1) as (w & E & L). by exists w.
Qed.

Lemma consumed_app prev prev' w rest caps caps' :
  consumed (MState prev (w ++ rest) caps) (MState prev' rest caps') = w.
Proof.
  unfold consumed. cbn [ms_rest]. rewrite length_app.
  replace (length w + length rest - length rest) with (length w) by lia.
  by rewrite take_app_length.
Qed.

Lemma matches_at_sound ic r prev s m :
  In m (matches_at ic r prev s) ->
  lang ic r (group0 m) /\ exists rest, s = group0 m ++ rest.
Proof.
  unfold matches_at. rewrite in_map_iff. intros (st' & <- & Hin).
  destruct (run_sound _ _ _ _ Hin) as (w & E & L). cbn [ms_rest] in E.
  cbn [group0]. destruct st' as [p' rest' caps']. cbn [ms_rest] in E. subst s.
  rewrite consumed_app. split; [done | by exists rest'].
Qed.

(** A match among the pieces of a subject was found at one of its
    positions. *)
Lemma scan_matches ic r m s : forall prev skip,
  In (TMatch m) (scan ic r prev skip s) ->
  exists prev' pre s', s = pre ++ s' /\ In m (matches_at ic r prev' s').
Proof.
  induction s as [|c s IH]; intros prev skip Hin.
  - destruct skip as [|k]; [|done]. simpl in Hin.
    destruct (matches_at ic r prev []) as [|m1 ms] eqn:E; [done|].
    assert (Hm : m = m1).
    { destruct (length (group0 m1)); destruct Hin as [[= ->]|[]]; done. }
    subst. exists prev, [], []. split; [done|]. rewrite E. by left.
  - assert (Hrec : forall prev' skip', In (TMatch m) (scan ic r prev' skip' s) ->
        exists prev' pre s', c :: s = pre ++ s' /\ In m (matches_at ic r prev' s')).
    { intros p' k' H. destruct (IH _ _ H) as (p2 & pre & s' & -> & Hm).
      by exists p2, (c :: pre), s'. }
    destruct skip as [|k]; [|by apply (Hrec (Some c) k)].
    simpl in Hin.
    destruct (matches_at ic r prev (c :: s)) as [|m1 ms] eqn:E.
    { destruct Hin as [|Hin]; [done|]. by apply (Hrec _ _ Hin). }
    assert (H1 : In m1 (matches_at ic r prev (c :: s))) by (rewrite E; by left).
    destruct (length (group0 m1)) as [|k].
    + destruct (List.find nonempty (m1 :: ms)) as [m2|] eqn:F.
      * destruct Hin as [[= ->]|[[= ->]|Hin]].
        -- by exists prev, [], (c :: s).
        -- apply find_some in F as [F _]. rewrite <- E in F.
           by exists prev, [], (c :: s).
        -- by apply (Hrec _ _ Hin).
      * destruct Hin as [[= ->]|[|Hin]]; [|done|].
        -- by exists prev, [], (c :: s).
        -- by apply (Hrec _ _ Hin).
    + destruct Hin as [[= ->]|Hin].
      * by exists prev, [], (c :: s).
      * by apply (Hrec _ _ Hin).
Qed.

Lemma finditer_sound ic r s m :
  In m (finditer ic r s) ->
  lang ic r (group0 m) /\ exists pre post, s = pre ++ group0 m ++ post.
Proof.
  unfold finditer. rewrite in_flat_map. intros ([c|m'] & Hin & Hm); [done|].
  destruct Hm as [->|[]].
  apply scan_matches in Hin as (prev & pre & s' & -> & Hin).
  apply matches_at_sound in Hin as [L [rest ->]]. split; [done|]. by exists pre, rest.
Qed.

Lemma search_from_sound ic r s : forall prev m,
  search_from ic r prev s = Some m ->
  lang ic r (group0 m) /\ exists pre post, s = pre ++ group0 m ++ post.
Proof.
  induction s as [|c s IH]; intros prev m H; simpl in H.
  - destruct (matches_at ic r prev []) as [|m1 ms] eqn:E; [done|].
    injection H as ->.
    assert (Hin : In m (matches_at ic r prev [])) by (rewrite E; by left).
    apply matches_at_sound in Hin as [L [rest Hr]]. split; [done|]. by exists [], rest.
  - destruct (matches_at ic r prev (c :: s)) as [|m1 ms] eqn:E.
    + destruct (IH _ _ H) as [L (pre & post & ->)]. split; [done|].
      by exists (c :: pre), post.
    + injection H as ->.
      assert (Hin : In m (matches_at ic r prev (c :: s))) by (rewrite E; by left).
      apply matches_at_sound in Hin as [L [rest Hr]]. split; [done|]. by exists [], rest.
Qed.

(** The characters between the matches are characters of the subject. *)
Lemma scan_chars ic r (P : ascii -> Prop) s : Forall P s ->
  forall prev skip c, In (TChar c) (scan ic r prev skip s) -> P c.
Proof.
  induction 1 as [|a s Ha Hs IH]; intros prev skip c Hin.
  - destruct skip; simpl in Hin; [|done].
    destruct (matches_at ic r prev []) as [|m1 ms]; [done|].
    destruct (length (group0 m1)); by destruct Hin as [|[]].
  - destruct skip as [|k]; [|by apply (IH _ _ _ Hin)].
    simpl in Hin. destruct (matches_at ic r prev (a :: s)) as [|m1 ms].
    { destruct Hin as [[= <-]|Hin]; [done | by apply (IH _ _ _ Hin)]. }
    destruct (length (group0 m1)).
    + destruct (List.find nonempty (m1 :: ms)).
      * destruct Hin as [|[|Hin]]; [done | done | by apply (IH _ _ _ Hin)].
      * destruct Hin as [|[[= <-]|Hin]]; [done | done | by apply (IH _ _ _ Hin)].
    + destruct Hin as [|Hin]; [done | by apply (IH _ _ _ Hin)].
Qed.

Lemma sub_fn_Forall ic r f (P : ascii -> Prop) s :
  Forall P s ->
  (forall m, In m (finditer ic r s) -> Forall P (f m)) ->
  Forall P (sub_fn ic r f s).
Proof.
  intros Hs Hf. unfold sub_fn. apply Forall_forall. intros c Hc.
  apply list_elem_of_In, in_flat_map in Hc as ([a|m] & Hin & Hr).
  - destruct Hr as [<-|[]]. by apply (scan_chars ic r P s Hs None 0).
  - simpl in Hr. specialize (Hf m (in_finditer _ _ _ _ Hin)).
    rewrite Forall_forall in Hf. by apply Hf, list_elem_of_In.
Qed.

Lemma sub_Forall ic r repl (P : ascii -> Prop) s :
  Forall P s -> Forall P repl -> Forall P (sub ic r repl s).
Proof. intros Hs Hr. apply sub_fn_Forall; [done|]. by intros. Qed.

(** Two callbacks that agree on the matches of the subject give the same
    text. *)
Lemma sub_fn_ext ic r f g s :
  (forall m, In m (finditer ic r s) -> f m = g m) ->
  sub_fn ic r f s = sub_fn ic r g s.
Proof.
  intros H. unfold sub_fn.
  assert (G : forall ts, (forall m, In (TMatch m) ts -> f m = g m) ->
              flat_map (render f) ts = flat_map (render g) ts).
  { induction ts as [|[c|m] ts IH]; intros Hts; simpl; [done| |].
    - f_equal. apply IH. intros m Hm. apply Hts. by right.
    - rewrite (Hts m) by (by left). f_equal. apply IH.
      intros m' Hm. apply Hts. by right. }
  apply G. intros m Hm. by apply H, in_finditer.
Qed.

Lemma upper_set c : set_has false false [upper_az] c = Chr.is_upper_az c.
Proof. unfold set_has. cbn [existsb item_has xorb]. by rewrite orb_false_r. Qed.

Lemma lower_set c : set_has false false [lower_az] c = Chr.is_lower_az c.
Proof. unfold set_has. cbn [existsb item_has xorb]. by rewrite orb_false_r. Qed.

Lemma one_set_ic d c :
  set_has true false [One d] c = true -> Chr.lower c = Chr.lower d.
Proof.
  unfold set_has. cbn [existsb item_has xorb]. rewrite orb_false_r.
  intros H. by apply Ascii.eqb_eq in H.
Qed.

(** Under IGNORECASE a literal takes the texts that lower-case to it. *)
Lemma lang_lit_ic (l : list ascii) : forall w,
  lang true (lit_l l) w -> lower_l w = lower_l l.
Proof.
  unfold lit_l. induction l as [|d l IH]; intros w H.
  - simpl in H. by subst.
  - cbn [map] in H. apply lang_cat in H as (w1 & w2 & -> & (c & -> & Hc) & H2).
    apply one_set_ic in Hc. unfold lower_l in *. cbn [app map].
    rewrite Hc. f_equal. by apply IH.
Qed.

Lemma lang_opt_ic d w :
  lang true (opt (chr d)) w -> lower_l w = [] \/ lower_l w = [Chr.lower d].
Proof.
  intros (ws & -> & Hws & _ & Hlen).
  destruct ws as [|w1 [|w2 ws]]; [by left | | simpl in Hlen; lia].
  apply Forall_cons in Hws as [(c & -> & Hc) _]. apply one_set_ic in Hc.
  right. simpl. by rewrite Hc.
Qed.

End LangFacts.

(** ** anonymize_mentors.py: the CamelCase pass *)

Module EntityFacts.

Import Re ReFacts LangFacts Mentors.

Lemma camel_case_two_capitals w :
  lang false camel_case_pattern w -> two_capitals w = true.
Proof.
  unfold camel_case_pattern. rewrite !lang_cat.
  intros (w0 & w' & -> & -> & (w1 & w'' & -> & (u & -> & Hu)
          & (w2 & w3 & -> & (ws & -> & Hws & Hlen & _)
          & (w4 & w5 & -> & (v & -> & Hv) & _)))).
  rewrite upper_set in Hu, Hv.
  destruct ws as [|l1 ws]; [simpl in Hlen; lia|].
  apply Forall_cons in Hws as [(l & -> & Hl) _]. rewrite lower_set in Hl.
  cbn [app concat two_capitals]. rewrite Hu, Hl. cbn [andb].
  rewrite existsb_app. cbn [existsb]. rewrite Hv.
  by rewrite orb_true_r.
Qed.

(** X1: a match of the CamelCase pattern has two upper-case letters with a
    lower-case letter after the first, so of the words the callback is
    written to keep only "PhD" can ever reach it: the pass replaces every
    match but "PhD", and its guard for the words of the placeholders never
    fires. *)
Theorem camel_case_pass_spares_only_PhD (s : string) :
  Py.re_sub_fn false camel_case_pattern replace_camel_case s
  = Py.re_sub_fn false camel_case_pattern
      (fun m => if String.eqb (Py.group0 m) "PhD" then "PhD"
                else "[Technology Company]") s.
Proof.
  unfold Py.re_sub_fn. f_equal. apply sub_fn_ext. intros m Hm. f_equal.
  apply finditer_sound in Hm as [Hm _]. apply camel_case_two_capitals in Hm.
  unfold replace_camel_case. set (e := Py.group0 m).
  assert (H : two_capitals (chars e) = true).
  { unfold e, Py.group0. by rewrite chars_text. }
  clearbody e. clear Hm. cbn [Py.member existsb].
  repeat match goal with
  | |- context [String.eqb e ?t] =>
      destruct (String.eqb_spec e t) as [->|_];
      [vm_compute in H; try discriminate H; reflexivity|]
  end.
  reflexivity.
Qed.

End EntityFacts.

(** ** anonymize_portfolio.py: the suffix that is kept *)

Module SuffixFacts.

Import Re ReFacts LangFacts Portfolio.

Lemma lang_dotted word w :
  lang true (dotted word) w ->
  lower_l w = lower_l (chars word)
  \/ lower_l w = lower_l (chars word) ++ ["."%char].
Proof.
  intros (w1 & w2 & -> & H1 & H2). apply lang_lit_ic in H1.
  apply lang_opt_ic in H2. unfold lower_l in *. rewrite map_app, H1.
  destruct H2 as [->| ->]; [left; by rewrite app_nil_r | by right].
Qed.

Lemma search_suffix r (name : string) m :
  Py.re_search true (Cat Bnd r) name = Some m ->
  lang true r (group0 m)
  /\ exists pre post, name = pre +:+ Py.group0 m +:+ post.
Proof.
  unfold Py.re_search, search. intros H.
  apply search_from_sound in H as [(w1 & w2 & E & -> & H2) (pre & post & Hs)].
  simpl in E. subst w2. split; [done|].
  exists (text pre), (text post). apply chars_inj.
  rewrite !chars_app, !chars_text. unfold Py.group0. by rewrite chars_text.
Qed.

Lemma first_match_found patterns (s x : string) :
  first_match patterns s = Some x ->
  exists p m, In p patterns /\ Py.re_search true p s = Some m /\ x = Py.group0 m.
Proof.
  induction patterns as [|p ps IH]; [done|]. cbn [first_match].
  destruct (Py.re_search true p s) as [m|] eqn:E.
  - intros [= <-]. exists p, m. split; [by left | done].
  - intros H. destruct (IH H) as (q & m & Hq & Hm & Hx). exists q, m.
    split; [by right | done].
Qed.

(** The lower-case spelling of what a suffix pattern finds. *)
Lemma suffix_match_lower p (name : string) m :
  In p suffixes -> Py.re_search true p name = Some m ->
  In (lower_l (group0 m)) (map chars suffix_forms).
Proof.
  intros Hp Hm. unfold suffixes in Hp. cbn [In] in Hp.
  repeat (destruct Hp as [<-|Hp];
          [ apply search_suffix in Hm as [Hm _];
            first [ apply lang_dotted in Hm; destruct Hm as [-> | ->]
                  | apply lang_lit_ic in Hm; rewrite Hm ];
            vm_compute; tauto |]).
  destruct Hp.
Qed.

Lemma preserve_suffix_truthy name sfx :
  preserve_suffix name = Some sfx -> Py.truthy sfx = true.
Proof.
  intros H. apply first_match_found in H as (p & m & Hp & Hm & ->).
  pose proof (suffix_match_lower p name m Hp Hm) as Hl.
  unfold Py.group0. destruct (group0 m); [|reflexivity].
  exfalso. vm_compute in Hl. repeat (destruct Hl as [Hl|Hl]; [discriminate Hl|]).
  destruct Hl.
Qed.

(** X2: for a name whose characters are all below U+0100, what
    [preserve_suffix] returns is a piece of the name as it is written
    there, and in lower case one of inc, llc, ltd, corp, co, gmbh and plc,
    the four abbreviations with or without their period.  (Beyond U+0100
    the pattern for Inc also takes U+0130 and U+0131 for its i.) *)
Theorem preserve_suffix_shape (original_name suffix : string) :
  preserve_suffix original_name = Some suffix ->
  Py.member (Py.lower suffix) suffix_forms = true
  /\ exists pre post, original_name = pre +:+ suffix +:+ post.
Proof.
  unfold preserve_suffix, suffixes. cbn [first_match].
  assert (D : forall word m, lang true (dotted word) (group0 m) ->
            Py.lower (Py.group0 m) = Py.lower word
            \/ Py.lower (Py.group0 m) = Py.lower word +:+ ".").
  { intros word m H. apply lang_dotted in H. unfold Py.lower, Py.group0.
    rewrite chars_text.
    destruct H as [->| ->]; [by left | right].
    apply chars_inj. by rewrite chars_app, !chars_text. }
  assert (L : forall word m, lang true (lit word) (group0 m) ->
            Py.lower (Py.group0 m) = Py.lower word).
  { intros word m H. apply lang_lit_ic in H. unfold Py.lower, Py.group0.
    by rewrite chars_text, H. }
  repeat match goal with
  | |- context [Py.re_search true (Cat Bnd ?r) original_name] =>
      let E := fresh "E" in
      destruct (Py.re_search true (Cat Bnd r) original_name) as [m|] eqn:E;
      [ intros [= <-]; apply search_suffix in E as [E Hin]; split; [|exact Hin];
        first [ apply D in E as [-> | ->] | apply L in E as -> ];
        reflexivity
      | clear E ]
  end.
  done.
Qed.

(** The theorem at the name "Acme, Inc.". *)
Lemma preserve_suffix_shape_witness :
  Py.member (Py.lower "Inc.") suffix_forms = true
  /\ exists pre post, "Acme, Inc." = pre +:+ "Inc." +:+ post.
Proof. apply (preserve_suffix_shape "Acme, Inc." "Inc."). reflexivity. Defined.

End SuffixFacts.

(** ** anonymize_mentors.py: names from the pools *)

Module PoolFacts.

Import Mentors Py NameFacts.

Section Fresh.
Variable rnd : nat -> N.

Lemma issue_fresh n : forall st x,
  In x (fst (issue rnd n st)) ->
  placeholder "Person " x \/ x ∉ used_names st.
Proof.
  induction n as [|n IH]; intros st x Hx; [done|].
  rewrite issue_succ in Hx.
  pose proof (generate_outcome rnd st) as Hgen.
  destruct (generate_random_name rnd st) as [[[f l] full] st1].
  specialize (IH st1 x).
  destruct (issue rnd n st1) as [rest st2]. cbn [fst] in *.
  destruct Hx as [<-|Hx].
  - destruct Hgen as [(_ & Hfresh & _)|[-> _]]; [by right | left].
    by eexists.
  - destruct (IH Hx) as [?|Hn]; [by left|]. right.
    destruct Hgen as [(_ & _ & Hu)|[_ Hu]]; rewrite Hu in Hn; [|done].
    by apply not_elem_of_union in Hn as [_ Hn].
Qed.

Lemma issue_repeat n : forall st i j name,
  i < j ->
  fst (issue rnd n st) !! i = Some name ->
  fst (issue rnd n st) !! j = Some name ->
  placeholder "Person " name.
Proof.
  induction n as [|n IH]; intros st i j name Hij Hi Hj; [done|].
  rewrite issue_succ in Hi, Hj.
  pose proof (generate_outcome rnd st) as Hgen.
  destruct (generate_random_name rnd st) as [[[f l] full] st1].
  pose proof (issue_fresh n st1) as Hfresh.
  specialize (IH st1).
  destruct (issue rnd n st1) as [rest st2]. cbn [fst] in *.
  destruct j as [|j]; [lia|]. destruct i as [|i].
  - simpl in Hi, Hj. injection Hi as ->.
    destruct Hgen as [(_ & _ & Hu)|[-> _]]; [|by eexists].
    destruct (Hfresh name) as [?|Hn]; [|done|].
    + apply list_elem_of_In. by eapply list_elem_of_lookup_2.
    + exfalso. apply Hn. rewrite Hu. apply elem_of_union_l.
      by apply elem_of_singleton.
  - simpl in Hi, Hj. apply (IH i j name); [lia | done | done].
Qed.
End Fresh.

Lemma placeholder_not_pool name :
  placeholder "Person " name -> ~ In name all_names.
Proof.
  intros [k ->] Hin.
  assert (H : forallb (fun x => negb (bool_decide
                 (is_Some (strip_prefix (chars "Person ") (chars x)))))
               all_names = true)
    by (vm_compute; reflexivity).
  rewrite forallb_forall in H. specialize (H _ Hin).
  rewrite chars_app in H. simpl in H. done.
Qed.

(** X3: a name that a run of calls of [generate_random_name] returns twice
    is a placeholder "Person n", and no name of the pools reads like one:
    the names drawn from the pools are all different. *)
Theorem pool_names_never_repeat (rnd : nat -> N) (n : nat) (st : state)
    (i j : nat) (name : string) :
  i < j ->
  fst (issue rnd n st) !! i = Some name ->
  fst (issue rnd n st) !! j = Some name ->
  (exists k : nat, name = "Person " +:+ str_of_nat k) /\ ~ In name all_names.
Proof.
  intros Hij Hi Hj.
  pose proof (issue_repeat rnd n st i j name Hij Hi Hj) as H.
  split; [exact H | by apply placeholder_not_pool].
Qed.

(** The theorem at three calls under a random source that always answers
    0: the first takes "Michael Smith", the next two run out of attempts. *)
Lemma pool_names_never_repeat_witness :
  (exists k : nat, "Person 2" = "Person " +:+ str_of_nat k)
  /\ ~ In "Person 2" all_names.
Proof.
  apply (pool_names_never_repeat (fun _ => 0%N) 3 (State 0 ∅) 1 2 "Person 2").
  - lia.
  - vm_compute. reflexivity.
  - vm_compute. reflexivity.
Defined.

End PoolFacts.

(** ** anonymize_mentors.py: honorifics *)

Module HonorificFacts.

Import Mentors Py NameFacts.

Lemma strip_prefix_Some p : forall s r,
  strip_prefix p s = Some r <-> s = p ++ r.
Proof.
  induction p as [|a p IH]; intros s r; simpl.
  - split; [by intros [= ->] | by intros ->].
  - destruct s as [|b s]; [done|].
    destruct (Ascii.eqb_spec a b) as [->|Hab].
    + rewrite IH. split; [by intros -> | by intros [= ->]].
    + split; [done | intros [= -> _]; done].
Qed.

Section Strip.
Variable p : ascii -> bool.

Lemma lstrip_fixed s :
  match head s with Some c => p c = false | None => True end ->
  lstrip_l p s = s.
Proof. destruct s as [|c s]; [done|]. simpl. by intros ->. Qed.

Lemma rstrip_fixed s :
  match last s with Some c => p c = false | None => True end ->
  rstrip_l p s = s.
Proof.
  intros H. unfold rstrip_l. rewrite lstrip_fixed.
  - apply reverse_involutive.
  - by rewrite head_reverse.
Qed.

Lemma strip_l_idemp s : strip_l p (strip_l p s) = strip_l p s.
Proof.
  unfold strip_l at 1. rewrite lstrip_fixed.
  - apply rstrip_fixed.
    destruct (last (strip_l p s)) as [c|] eqn:E; [|done].
    by apply (strip_last p s).
  - destruct (head (strip_l p s)) as [c|] eqn:E; [|done].
    by apply (strip_head p s).
Qed.
End Strip.

Lemma strip_idemp s : strip (strip s) = strip s.
Proof. unfold strip. by rewrite chars_text, strip_l_idemp. Qed.

Lemma extract_honorific_go name hs :
  let out :=
    (fix go (hs : list string) : option string * string :=
       match hs with
       | [] => (None, name)
       | honorific :: hs' =>
           match strip_prefix (chars honorific) (chars name) with
           | Some rest => (Some honorific, strip (text rest))
           | None => go hs'
           end
       end) hs in
  match out.1 with
  | Some honorific =>
      In honorific hs
      /\ exists tail, name = honorific +:+ tail /\ out.2 = strip tail
  | None =>
      out.2 = name
      /\ forall honorific tail, In honorific hs -> name <> honorific +:+ tail
  end.
Proof.
  induction hs as [|h hs IH]; cbv zeta.
  - by split.
  - destruct (strip_prefix (chars h) (chars name)) as [rest|] eqn:E.
    + cbn [fst snd]. split; [by left|]. exists (text rest). split; [|done].
      apply strip_prefix_Some in E. apply chars_inj.
      by rewrite chars_app, chars_text.
    + cbv zeta in IH. destruct (_ hs) as [[h'|] r] eqn:G; cbn [fst snd] in *.
      * destruct IH as [Hin Ht]. split; [by right | done].
      * destruct IH as [-> Hno]. split; [done|].
        intros h2 tail [<-|Hin] Heq; [|by apply (Hno h2 tail)].
        assert (strip_prefix (chars h) (chars name) = Some (chars tail)).
        { apply strip_prefix_Some. by rewrite Heq, chars_app. }
        congruence.
Qed.

(** X4: [extract_honorific] returns the first honorific of the list that
    the name starts with once white space is stripped from its ends,
    together with the rest of the name stripped again; without such an
    honorific it returns the stripped name; what it returns as the name has
    no white space at its ends. *)
Theorem extract_honorific_spec (name : string) :
  let '(honorific, rest) := extract_honorific name in
  strip rest = rest
  /\ match honorific with
     | Some h =>
         In h HONORIFICS
         /\ exists tail, strip name = h +:+ tail /\ rest = strip tail
     | None =>
         rest = strip name
         /\ forall h tail, In h HONORIFICS -> strip name <> h +:+ tail
     end.
Proof.
  pose proof (extract_honorific_go (strip name) HONORIFICS) as H.
  cbv zeta in H. unfold extract_honorific.
  destruct (_ HONORIFICS) as [[h|] rest]; cbn [fst snd] in H.
  - destruct H as [Hin (tail & Ht & ->)]. split; [apply strip_idemp|].
    split; [done|]. by exists tail.
  - destruct H as [-> Hno]. split; [apply strip_idemp | done].
Qed.

Section Rows.
Variable rnd : nat -> N.

Lemma honorific_truthy name h :
  (extract_honorific name).1 = Some h -> truthy h = true.
Proof.
  pose proof (extract_honorific_go (strip name) HONORIFICS) as H.
  cbv zeta in H. unfold extract_honorific.
  destruct (_ HONORIFICS) as [[h'|] rest]; cbn [fst snd] in *; [|done].
  intros [= ->]. destruct H as [Hin _].
  cbn in Hin. destruct Hin as [<-|[<-|[<-|[<-|[<-|[]]]]]]; done.
Qed.

Lemma anonymize_row_name (row : Csv.row) st rout st' :
  anonymize_row rnd row st = (Some rout, st') ->
  exists name full,
    default (Some "") (row !! "Full Name") = Some name
    /\ (In full all_names \/ placeholder "Person " full)
    /\ rout !! "Full Name" = Some (Some (with_honorific name full)).
Proof.
  unfold anonymize_row.
  destruct (default (Some "") (row !! "Full Name")) as [name|]; [|done].
  pose proof (honorific_truthy name) as Ht.
  destruct (extract_honorific name) as [honorific rest] eqn:E. cbn [fst] in *.
  unfold bind, ret.
  pose proof (generate_outcome rnd st) as Hgen.
  destruct (generate_random_name rnd st) as [[[new_first new_last] new_full] st1].
  set (shown := match honorific with Some _ => _ | None => _ end).
  assert (Hs : shown = with_honorific name new_full).
  { unfold shown, with_honorific. rewrite E. cbn [fst].
    destruct honorific as [h|]; [|done]. by rewrite (Ht h). }
  intros [= <- <-]. exists name, new_full. split; [done|]. split.
  { destruct Hgen as [(Hin & _)|[-> _]]; [by left | right]. by eexists. }
  rewrite <- Hs.
  destruct (<["Full Name" := Some shown]> row !! "Bio") as [bio|].
  - rewrite lookup_insert_ne by done. by rewrite lookup_insert_eq.
  - by rewrite lookup_insert_eq.
Qed.

End Rows.

(** X5: in every record a run writes, the field 'Full Name' is a name from
    [generate_random_name] (one of the pools, or a placeholder), behind the
    honorific of the name read and a space when that name starts with
    one. *)
Theorem mentors_csv_keeps_honorific (rnd : nat -> N) (fieldnames : list string)
    (records : list Csv.row) (st : state)
    (out : list string * list Csv.row) (st' : state)
    (i : nat) (rin : Csv.row) :
  anonymize_csv rnd fieldnames records st = (Some out, st') ->
  records !! i = Some rin ->
  exists rout full name,
    out.2 !! i = Some rout
    /\ default (Some "") (rin !! "Full Name") = Some name
    /\ (In full all_names \/ exists k : nat, full = "Person " +:+ str_of_nat k)
    /\ rout !! "Full Name"
       = Some (Some (match (extract_honorific name).1 with
                     | Some h => h +:+ " " +:+ full
                     | None => full
                     end)).
Proof.
  unfold anonymize_csv, bind, ret, fresh_used_names.
  pose proof (MentorsFacts.mentors_rows_Forall2 rnd _
                (anonymize_row_name rnd) records (State (draws st) ∅))
    as Hrows.
  destruct (anonymize_rows rnd records (State (draws st) ∅)) as [[rows|] st1];
    cbn [mbind option_bind]; [|done].
  specialize (Hrows rows st1 eq_refl). unfold Csv.write.
  destruct (forallb (Csv.writable fieldnames) rows); [|done].
  intros [= <- <-] Hi.
  destruct (Forall2_lookup_l _ _ _ _ _ Hrows Hi)
    as (rout & Hrout & name & full & Hname & Hf & Hn).
  by exists rout, full, name.
Qed.

(** The theorem on a file with one record. *)
Lemma mentors_csv_keeps_honorific_witness :
  exists rout full name,
    (default ([], [])
       (anonymize_csv (fun _ => 0%N) ["Full Name"; "Bio"]
          [ {["Full Name" := Some "Dr. Jane Carter";
              "Bio" := Some "Runs a lab"]} ]
          (State 0 ∅)).1).2 !! 0 = Some rout
    /\ default (Some "")
         (({["Full Name" := Some "Dr. Jane Carter"; "Bio" := Some "Runs a lab"]}
             : Csv.row) !! "Full Name") = Some name
    /\ (In full all_names \/ exists k : nat, full = "Person " +:+ str_of_nat k)
    /\ rout !! "Full Name"
       = Some (Some (match (extract_honorific name).1 with
                     | Some h => h +:+ " " +:+ full
                     | None => full
                     end)).
Proof.
  set (run := anonymize_csv (fun _ => 0%N) ["Full Name"; "Bio"]
              [ {["Full Name" := Some "Dr. Jane Carter";
                  "Bio" := Some "Runs a lab"]} ]
              (State 0 ∅)).
  apply (mentors_csv_keeps_honorific (fun _ => 0%N) ["Full Name"; "Bio"]
           [ {["Full Name" := Some "Dr. Jane Carter";
               "Bio" := Some "Runs a lab"]} ]
           (State 0 ∅) (default ([], []) run.1) run.2 0); [|reflexivity].
  apply (run_is_Some ([], []) run). vm_compute. reflexivity.
Defined.

End HonorificFacts.

(** ** anonymize_portfolio.py: names and links *)

Module CompanyFacts.

Import Portfolio Py ShuffleFacts SuffixFacts.

Section Company.
Variable rnd : nat -> N.

Lemma company_attempts_outcome k : forall st,
  match company_name_attempts rnd k st with
  | (Some name, st') =>
      In name all_company_names /\ (name ∉ used_names st)
      /\ used_names st' = {[name]} ∪ used_names st
  | (None, st') => used_names st' = used_names st
  end.
Proof.
  induction k as [|k IH]; intros st; [done|].
  cbn [company_name_attempts]. unfold bind at 1.
  destruct (NameFacts.choice_elem rnd "" ["prefix_suffix"; "standalone"] st)
    as [Hs Hu1]; [done|].
  destruct (Random.choice rnd "" ["prefix_suffix"; "standalone"] st) as [style st1].
  cbn [fst snd] in Hs, Hu1. unfold bind at 1.
  set (pick := if String.eqb style "prefix_suffix" then _ else _).
  assert (Hp : In (pick st1).1 all_company_names
               /\ used_names (pick st1).2 = used_names st).
  { unfold pick, all_company_names. destruct (String.eqb style "prefix_suffix").
    - unfold bind, ret.
      destruct (NameFacts.choice_elem rnd "" PREFIXES st1) as [Hpre Hu2]; [done|].
      destruct (Random.choice rnd "" PREFIXES st1) as [prefix st2].
      cbn [fst snd] in Hpre, Hu2.
      destruct (NameFacts.choice_elem rnd "" SUFFIXES st2) as [Hsuf Hu3]; [done|].
      destruct (Random.choice rnd "" SUFFIXES st2) as [suffix st3].
      cbn [fst snd] in Hsuf, Hu3 |- *.
      split; [|congruence]. apply in_or_app. left.
      apply in_flat_map. exists prefix. split; [done|].
      apply in_map_iff. by exists suffix.
    - destruct (NameFacts.choice_elem rnd "" STANDALONE_NAMES st1) as [Hn Hu2]; [done|].
      split; [|congruence]. apply in_or_app. by right. }
  destruct (pick st1) as [name st4]. cbn [fst snd] in Hp. destruct Hp as [Hin Hst].
  unfold bind at 1, name_in_use. cbn beta iota.
  destruct (bool_decide_reflect (name ∈ used_names st4)) as [Hused|Hnew].
  - specialize (IH st4). destruct (company_name_attempts rnd k st4) as [[n|] st5].
    + by rewrite <- Hst.
    + by rewrite <- Hst.
  - unfold bind, mark_used, ret. cbn [used_names]. by rewrite <- Hst.
Qed.

Lemma company_outcome st :
  let '(name, st') := generate_company_name rnd st in
  (In name all_company_names /\ (name ∉ used_names st)
   /\ used_names st' = {[name]} ∪ used_names st)
  \/ (name = "Company " +:+ str_of_nat (size (used_names st) + 1)
      /\ used_names st' = used_names st).
Proof.
  unfold generate_company_name, bind.
  pose proof (company_attempts_outcome max_attempts st) as H.
  destruct (company_name_attempts rnd max_attempts st) as [[name|] st1].
  - by left.
  - right. unfold count_used, ret. cbn. by rewrite H.
Qed.

End Company.

(** The new name as the loop body puts it together. *)
Lemma new_name_with_suffix original base :
  match preserve_suffix original with
  | Some sfx => if truthy sfx then base +:+ ", " +:+ sfx else base
  | None => base
  end = with_suffix original base.
Proof.
  unfold with_suffix. destruct (preserve_suffix original) as [sfx|] eqn:E; [|done].
  by rewrite (preserve_suffix_truthy _ _ E).
Qed.

Section Row.
Variable rnd : nat -> N.
Variable anonymize_description :
  string -> string -> string -> string -> nat -> string * nat.
Variables locations stages sales_models : list string.

Lemma anonymize_row_parts cur (row : Csv.row) st rout cur' st' :
  anonymize_row rnd anonymize_description locations stages sales_models
                cur row st = (Some (rout, cur'), st') ->
  exists original_name base,
    default (Some "") (row !! "Name") = Some original_name
    /\ (In base all_company_names \/ placeholder "Company " base)
    /\ let name := with_suffix original_name base in
       rout !! "Name" = Some (Some name)
       /\ rout !! "Website" = Some (Some (website_of name))
       /\ rout !! "Pitch" = Some (Some (pitch_of name)).
Proof.
  intros H. apply anonymize_row_Some in H
    as (original_name & Hname & _ & Hn & Hw & Hp & _).
  rewrite new_name_with_suffix in Hn, Hw, Hp.
  pose proof (company_outcome rnd st) as Hgen.
  destruct (generate_company_name rnd st) as [base st0]. cbn [fst] in *.
  exists original_name, base. split; [done|]. split; [|done].
  destruct Hgen as [(Hin & _)|[-> _]]; [by left | right]. by eexists.
Qed.

End Row.

(** X6: in every record the portfolio run writes, 'Name' is a name from
    [generate_company_name] (one of the pools, or a placeholder), followed
    by a comma, a space and the suffix [preserve_suffix] finds in the name
    read when it finds one, and 'Website' and 'Pitch' are the two links
    built from the slug of that new name. *)
Theorem portfolio_links_follow_name (rnd : nat -> N)
    (anonymize_description : string -> string -> string -> string -> nat -> string * nat)
    (fieldnames : list string) (records : list Csv.row) (st : state)
    (out : list string * list Csv.row) (st' : state)
    (i : nat) (rin : Csv.row) :
  anonymize_csv rnd anonymize_description fieldnames records st = (Some out, st') ->
  records !! i = Some rin ->
  exists rout base original_name name,
    out.2 !! i = Some rout
    /\ default (Some "") (rin !! "Name") = Some original_name
    /\ (In base all_company_names
        \/ exists k : nat, base = "Company " +:+ str_of_nat k)
    /\ name = match preserve_suffix original_name with
              | Some sfx => base +:+ ", " +:+ sfx
              | None => base
              end
    /\ rout !! "Name" = Some (Some name)
    /\ rout !! "Website"
       = Some (Some ("https://" +:+ normalize_to_slug name +:+ ".example"))
    /\ rout !! "Pitch"
       = Some (Some ("https://pitch.vc/companies/" +:+ normalize_to_slug name)).
Proof.
  unfold anonymize_csv, bind, ret, fresh_used_names.
  destruct (Random.shuffle rnd (collect "Location" records) st) as [locations st1].
  destruct (Random.shuffle rnd (collect "Stage" records) st1) as [stages st2].
  destruct (Random.shuffle rnd (collect "Sales Model" records) st2) as [sales st3].
  pose proof (portfolio_rows_Forall2 rnd anonymize_description locations
                stages sales _
                (fun cur row s rout cur' s' =>
                   anonymize_row_parts rnd anonymize_description locations
                     stages sales cur row s rout cur' s')
                records (Cursors 0 0 0) (State (draws st3) ∅)) as Hrows.
  destruct (anonymize_rows _ _ _ _ _ _ records _) as [[rows|] st4];
    cbn [mbind option_bind]; [|done].
  specialize (Hrows rows st4 eq_refl). unfold Csv.write.
  destruct (forallb (Csv.writable fieldnames) rows); [|done].
  intros [= <- <-] Hi.
  destruct (Forall2_lookup_l _ _ _ _ _ Hrows Hi)
    as (rout & Hrout & original_name & base & Hname & Hb & Hn & Hw & Hp).
  exists rout, base, original_name, (with_suffix original_name base).
  by repeat split.
Qed.

(** The theorem on a file with the one record "Acme, Inc.". *)
Lemma portfolio_links_follow_name_witness :
  exists rout base original_name name,
    (default ([], [])
       (anonymize_csv (fun _ => 0%N) (fun d _ _ _ n => (d, n))
          ["Name"; "Website"; "Pitch"]
          [ {["Name" := Some "Acme, Inc."; "Website" := Some "https://acme.test";
              "Pitch" := None]} ]
          (State 0 ∅)).1).2 !! 0 = Some rout
    /\ default (Some "")
         (({["Name" := Some "Acme, Inc."; "Website" := Some "https://acme.test";
             "Pitch" := None]} : Csv.row) !! "Name")
       = Some original_name
    /\ (In base all_company_names
        \/ exists k : nat, base = "Company " +:+ str_of_nat k)
    /\ name = match preserve_suffix original_name with
              | Some sfx => base +:+ ", " +:+ sfx
              | None => base
              end
    /\ rout !! "Name" = Some (Some name)
    /\ rout !! "Website"
       = Some (Some ("https://" +:+ normalize_to_slug name +:+ ".example"))
    /\ rout !! "Pitch"
       = Some (Some ("https://pitch.vc/companies/" +:+ normalize_to_slug name)).
Proof.
  set (run := anonymize_csv (fun _ => 0%N) (fun d _ _ _ n => (d, n))
              ["Name"; "Website"; "Pitch"]
              [ {["Name" := Some "Acme, Inc."; "Website" := Some "https://acme.test";
                  "Pitch" := None]} ]
              (State 0 ∅)).
  apply (portfolio_links_follow_name (fun _ => 0%N) (fun d _ _ _ n => (d, n))
           ["Name"; "Website"; "Pitch"]
           [ {["Name" := Some "Acme, Inc."; "Website" := Some "https://acme.test";
               "Pitch" := None]} ]
           (State 0 ∅) (default ([], []) run.1) run.2 0); [|reflexivity].
  apply (run_is_Some ([], []) run). vm_compute. reflexivity.
Defined.

End CompanyFacts.

(** ** What the writer accepts *)

Module WriterFacts.

Import Py.

(** X7: a run writes its output exactly when no record read is too short
    to have the field the name is read from ('Full Name' for the mentors,
    'Name' for the portfolio), every record read has its keys in the header,
    and the header has the columns the run adds: 'Full Name' for the
    mentors, 'Name', 'Website' and 'Pitch' for the portfolio.  Otherwise
    the run ends in an exception: on the [None] name in the loop, or in the
    writer.  A file that has only its header line is always written. *)
Theorem csv_written_iff (rnd : nat -> N)
    (anonymize_description : string -> string -> string -> string -> nat -> string * nat)
    (fieldnames : list string) (records : list Csv.row) (st : state) :
  (is_Some (Mentors.anonymize_csv rnd fieldnames records st).1
   <-> Forall (fun r : Csv.row =>
                 r !! "Full Name" <> Some None
                 /\ "Full Name" ∈ fieldnames
                 /\ dom r ⊆ list_to_set fieldnames)
              records)
  /\ (is_Some (Portfolio.anonymize_csv rnd anonymize_description fieldnames
                 records st).1
      <-> Forall (fun r : Csv.row =>
                    r !! "Name" <> Some None
                    /\ "Name" ∈ fieldnames /\ "Website" ∈ fieldnames
                    /\ "Pitch" ∈ fieldnames /\ dom r ⊆ list_to_set fieldnames)
                 records)
  /\ is_Some (Mentors.anonymize_csv rnd fieldnames [] st).1
  /\ is_Some (Portfolio.anonymize_csv rnd anonymize_description fieldnames
                [] st).1.
Proof.
  split; [apply MentorsFacts.mentors_csv_written|].
  split; [apply ShuffleFacts.portfolio_csv_written|].
  split.
  - apply MentorsFacts.mentors_csv_written. constructor.
  - apply ShuffleFacts.portfolio_csv_written. constructor.
Qed.

End WriterFacts.

(** ** anonymize_portfolio.py: the three shuffled columns *)

Module ColumnFacts.

Import Portfolio Py ShuffleFacts.

Lemma assign_length values : forall cells index,
  length (assign values index cells) = length cells.
Proof.
  induction cells as [|[v|] cells IH]; intros index; cbn [assign]; [done| |].
  - destruct (values !! index); simpl; by rewrite IH.
  - simpl. by rewrite IH.
Qed.

Lemma assign_absent values : forall cells index i,
  cells !! i = Some None -> assign values index cells !! i = Some None.
Proof.
  induction cells as [|c cells IH]; intros index i Hi; [done|].
  destruct i as [|i].
  - simpl in Hi. injection Hi as ->. done.
  - simpl in Hi. destruct c as [v|]; cbn [assign].
    + destruct (values !! index); simpl; by apply IH.
    + simpl. by apply IH.
Qed.

(** What a permutation of the collected values does to a column. *)
Lemma assign_shuffled key values (records : list Csv.row) :
  values ≡ₚ collect key records ->
  let cells := Csv.column key records in
  length (assign values 0 cells) = length records
  /\ (forall i, cells !! i = Some None -> assign values 0 cells !! i = Some None)
  /\ (Forall (fun r : Csv.row =>
                exists v, r !! key = Some (Some v) /\ truthy v = true)
             records ->
      assign values 0 cells ≡ₚ cells).
Proof.
  intros Hperm. cbv zeta. split; [|split].
  - rewrite assign_length. unfold Csv.column. by rewrite length_map.
  - intros i. apply assign_absent.
  - intros Hfull. rewrite (collect_filled _ _ Hfull).
    pose proof (Permutation_length Hperm) as Hlen.
    rewrite assign_filled by (rewrite Hlen; lia).
    rewrite drop_0, <- Hlen, firstn_all. by rewrite Hperm.
Qed.

(** X8: each of the columns 'Location', 'Stage' and 'Sales Model' that the
    portfolio run writes is the column read with its entries overwritten in
    order, as far as they go, by the non-empty values read in some order; an
    entry that is blank or [None] is overwritten like any other, and a
    record without the key is passed over.  So the run writes one entry per
    record read, leaves the key out of the records that did not have it,
    and, when every record read has a non-empty value there, writes the
    values read in another order. *)
Theorem shuffled_columns_keep_their_values (rnd : nat -> N)
    (anonymize_description : string -> string -> string -> string -> nat -> string * nat)
    (fieldnames : list string) (records : list Csv.row) (st : state)
    (out : list string * list Csv.row) (st' : state) :
  anonymize_csv rnd anonymize_description fieldnames records st = (Some out, st') ->
  column_kept "Location" records out.2
  /\ column_kept "Stage" records out.2
  /\ column_kept "Sales Model" records out.2.
Proof.
  unfold anonymize_csv, bind, ret, fresh_used_names.
  pose proof (shuffle_Permutation rnd (collect "Location" records) st) as HL.
  destruct (Random.shuffle rnd (collect "Location" records) st) as [locations st1].
  pose proof (shuffle_Permutation rnd (collect "Stage" records) st1) as HS.
  destruct (Random.shuffle rnd (collect "Stage" records) st1) as [stages st2].
  pose proof (shuffle_Permutation rnd (collect "Sales Model" records) st2) as HM.
  destruct (Random.shuffle rnd (collect "Sales Model" records) st2) as [sales st3].
  cbn [fst] in HL, HS, HM.
  pose proof (anonymize_rows_cells rnd anonymize_description locations
                stages sales records (Cursors 0 0 0) (State (draws st3) ∅)) as Hcol.
  destruct (anonymize_rows _ _ _ _ _ _ records _) as [[rows|] st4];
    cbn [mbind option_bind]; [|done].
  destruct (Hcol rows st4 eq_refl) as (CL & CS & CM).
  cbn [loc_index stage_index sales_index] in CL, CS, CM. unfold Csv.write.
  destruct (forallb (Csv.writable fieldnames) rows); [|done].
  intros [= <- <-]. cbn [snd]. unfold column_kept.
  split; [|split].
  - split; [by exists locations|]. rewrite CL. by apply assign_shuffled.
  - split; [by exists stages|]. rewrite CS. by apply assign_shuffled.
  - split; [by exists sales|]. rewrite CM. by apply assign_shuffled.
Qed.

(** The theorem on a file with two records, the second too short to have
    a 'Stage', and no 'Sales Model' column. *)
Lemma shuffled_columns_keep_their_values_witness :
  column_kept "Location"
    [ {["Name" := Some "Acme"; "Website" := Some ""; "Pitch" := Some "";
        "Location" := Some "Austin"; "Stage" := Some "Seed"]};
      {["Name" := Some "Bolt"; "Website" := Some ""; "Pitch" := Some "";
        "Location" := Some "Boston"; "Stage" := None]} ]
    (default ([], [])
       (anonymize_csv (fun n => N.of_nat n) (fun d _ _ _ n => (d, n))
          ["Name"; "Website"; "Pitch"; "Location"; "Stage"]
          [ {["Name" := Some "Acme"; "Website" := Some ""; "Pitch" := Some "";
              "Location" := Some "Austin"; "Stage" := Some "Seed"]};
            {["Name" := Some "Bolt"; "Website" := Some ""; "Pitch" := Some "";
              "Location" := Some "Boston"; "Stage" := None]} ]
          (State 0 ∅)).1).2
  /\ column_kept "Stage"
    [ {["Name" := Some "Acme"; "Website" := Some ""; "Pitch" := Some "";
        "Location" := Some "Austin"; "Stage" := Some "Seed"]};
      {["Name" := Some "Bolt"; "Website" := Some ""; "Pitch" := Some "";
        "Location" := Some "Boston"; "Stage" := None]} ]
    (default ([], [])
       (anonymize_csv (fun n => N.of_nat n) (fun d _ _ _ n => (d, n))
          ["Name"; "Website"; "Pitch"; "Location"; "Stage"]
          [ {["Name" := Some "Acme"; "Website" := Some ""; "Pitch" := Some "";
              "Location" := Some "Austin"; "Stage" := Some "Seed"]};
            {["Name" := Some "Bolt"; "Website" := Some ""; "Pitch" := Some "";
              "Location" := Some "Boston"; "Stage" := None]} ]
          (State 0 ∅)).1).2
  /\ column_kept "Sales Model"
    [ {["Name" := Some "Acme"; "Website" := Some ""; "Pitch" := Some "";
        "Location" := Some "Austin"; "Stage" := Some "Seed"]};
      {["Name" := Some "Bolt"; "Website" := Some ""; "Pitch" := Some "";
        "Location" := Some "Boston"; "Stage" := None]} ]
    (default ([], [])
       (anonymize_csv (fun n => N.of_nat n) (fun d _ _ _ n => (d, n))
          ["Name"; "Website"; "Pitch"; "Location"; "Stage"]
          [ {["Name" := Some "Acme"; "Website" := Some ""; "Pitch" := Some "";
              "Location" := Some "Austin"; "Stage" := Some "Seed"]};
            {["Name" := Some "Bolt"; "Website" := Some ""; "Pitch" := Some "";
              "Location" := Some "Boston"; "Stage" := None]} ]
          (State 0 ∅)).1).2.
Proof.
  set (run := anonymize_csv (fun n => N.of_nat n) (fun d _ _ _ n => (d, n))
          ["Name"; "Website"; "Pitch"; "Location"; "Stage"]
          [ {["Name" := Some "Acme"; "Website" := Some ""; "Pitch" := Some "";
              "Location" := Some "Austin"; "Stage" := Some "Seed"]};
            {["Name" := Some "Bolt"; "Website" := Some ""; "Pitch" := Some "";
              "Location" := Some "Boston"; "Stage" := None]} ]
          (State 0 ∅)).
  apply (shuffled_columns_keep_their_values (fun n => N.of_nat n)
           (fun d _ _ _ n => (d, n))
           ["Name"; "Website"; "Pitch"; "Location"; "Stage"]
           [ {["Name" := Some "Acme"; "Website" := Some ""; "Pitch" := Some "";
               "Location" := Some "Austin"; "Stage" := Some "Seed"]};
             {["Name" := Some "Bolt"; "Website" := Some ""; "Pitch" := Some "";
               "Location" := Some "Boston"; "Stage" := None]} ]
           (State 0 ∅) (default ([], []) run.1) run.2).
  apply (run_is_Some ([], []) run). vm_compute. reflexivity.
Defined.

End ColumnFacts.

(** ** anonymize_portfolio.py: funding rounds *)

Module RoundFacts.

Import Re ReFacts LangFacts Portfolio.

Lemma lower_lower c : Chr.lower (Chr.lower c) = Chr.lower c.
Proof. destruct c as [[] [] [] [] [] [] [] []]; reflexivity. Qed.

Lemma lower_l_idemp w : lower_l (lower_l w) = lower_l w.
Proof.
  unfold lower_l. rewrite map_map. apply map_ext. intros c. apply lower_lower.
Qed.

Lemma py_lower_idemp s : Py.lower (Py.lower s) = Py.lower s.
Proof. unfold Py.lower. by rewrite chars_text, lower_l_idemp. Qed.

Lemma round_index_lower names : forall k original,
  round_index k names original = round_index k names (Py.lower original).
Proof.
  induction names as [|n names IH]; intros k original; [done|].
  cbn [round_index]. rewrite py_lower_idemp.
  destruct (Py.contains _ _); [done | apply IH].
Qed.

Lemma upper_set_ic c :
  set_has true false [upper_az] c = true -> Chr.is_lower_az (Chr.lower c) = true.
Proof.
  destruct c as [[] [] [] [] [] [] [] []]; vm_compute; congruence.
Qed.

(** The rounds a match of the round pattern can stand for. *)
Lemma round_pattern_forms w :
  lang true round_pattern w ->
  In (lower_l w) (map chars ["angel"; "pre-seed"; "seed"])
  \/ exists c, Chr.is_lower_az c = true /\ lower_l w = chars "series " ++ [c].
Proof.
  unfold round_pattern. rewrite !lang_cat.
  intros (w0 & w' & -> & E0 & (w1 & w2 & -> & H & E2)).
  simpl in E0, E2. subst w0 w2.
  rewrite !app_nil_r. cbn [app]. cbn [lang alt] in H.
  destruct H as [H|[H|[H|H]]].
  - apply lang_lit_ic in H. left. rewrite H. by left.
  - apply lang_lit_ic in H. left. rewrite H. right. by left.
  - apply lang_lit_ic in H. left. rewrite H. right. right. by left.
  - destruct H as (a & b & -> & Ha & (c & -> & Hc)). apply lang_lit_ic in Ha.
    right. exists (Chr.lower c). split; [by apply upper_set_ic|].
    unfold lower_l in *. by rewrite map_app, Ha.
Qed.

Lemma series_index c :
  Chr.is_lower_az c = true ->
  round_index 0 rounds (text (chars "series " ++ [c]))
  = if Ascii.eqb c "a" then Some 3
    else if Ascii.eqb c "b" then Some 4
    else if Ascii.eqb c "c" then Some 5 else None.
Proof.
  destruct c as [[] [] [] [] [] [] [] []]; vm_compute; congruence.
Qed.

Section Rounds.
Variable rnd : nat -> N.

Lemma replace_round_some m st i :
  round_index 0 rounds (Py.group0 m) = Some i ->
  exists j, adjacent i j /\ j < length rounds
    /\ replace_round rnd m st
       = (chars (nth j rounds ""), State (S (draws st)) (used_names st)).
Proof.
  intros Hi. unfold replace_round. rewrite Hi.
  assert (Hb : i < length rounds).
  { clear -Hi. revert Hi. generalize (Py.group0 m). intros o.
    cbn [round_index rounds].
    repeat (destruct (Py.contains _ _); [intros [= <-]; simpl; lia|]). done. }
  unfold bind, ret.
  destruct (ValueFacts.randint_range rnd (-1) 1 st) as (r & -> & Hr); [lia|].
  change (length rounds) with 6 in *.
  exists (Z.to_nat (Z.max 0 (Z.min (Z.of_nat 6 - 1) (Z.of_nat i + r)))).
  split; [unfold adjacent; lia|]. split; [lia | done].
Qed.

Lemma replace_round_none m st :
  round_index 0 rounds (Py.group0 m) = None ->
  replace_round rnd m st = (group0 m, st).
Proof.
  intros Hi. unfold replace_round. rewrite Hi. unfold ret, Py.group0.
  by rewrite chars_text.
Qed.

End Rounds.

(** X9: in a text whose characters are all below U+0100, a match of the
    round pattern reads, in lower case, angel, pre-seed, seed or series and
    a letter.  For Angel, Pre-Seed, Seed and Series A to C the callback
    reads one number from the random source and returns the round at the
    same place of the list or next to it, never outside the list, in the
    spelling of the list; Series D to Series Z come back as they were
    written and nothing is read.  (Beyond U+0100 the pattern also takes
    U+017F for an s, and such a match comes back as it was written.) *)
Theorem funding_round_moves_one_step (rnd : nat -> N) (s : string)
    (m : rmatch) (st : state) :
  In m (finditer true round_pattern (chars s)) ->
  match round_index 0 rounds (Py.group0 m) with
  | Some i =>
      Py.lower (Py.group0 m) = Py.lower (nth i rounds "")
      /\ exists j,
           (j = i \/ j = S i \/ S j = i) /\ j < length rounds
           /\ replace_round rnd m st
              = (chars (nth j rounds ""), State (S (draws st)) (used_names st))
  | None =>
      (exists c, Py.lower (Py.group0 m) = "series " +:+ String c ""
                 /\ Chr.is_lower_az c = true
                 /\ c <> "a"%char /\ c <> "b"%char /\ c <> "c"%char)
      /\ replace_round rnd m st = (group0 m, st)
  end.
Proof.
  intros Hm. apply finditer_sound in Hm as [Hm _].
  apply round_pattern_forms in Hm.
  pose proof (replace_round_some rnd m st) as HS.
  pose proof (replace_round_none rnd m st) as HN.
  assert (HL : Py.lower (Py.group0 m) = text (lower_l (group0 m))).
  { unfold Py.lower, Py.group0. by rewrite chars_text. }
  rewrite (round_index_lower rounds 0 (Py.group0 m)) in HS, HN |- *.
  rewrite HL in HS, HN |- *. clear HL.
  destruct Hm as [Hm|(c & Hc & Hm)].
  - assert (R : exists i, i < 3 /\ round_index 0 rounds (text (lower_l (group0 m))) = Some i
                /\ text (lower_l (group0 m)) = Py.lower (nth i rounds "")).
    { destruct Hm as [<-|[<-|[<-|[]]]];
        [exists 0 | exists 1 | exists 2]; (split; [lia | split; reflexivity]). }
    destruct R as (i & _ & R & E). rewrite R. split; [exact E | by apply HS].
  - rewrite Hm in HS, HN |- *. rewrite series_index in HS, HN |- * by done.
    destruct (Ascii.eqb_spec c "a") as [->|Ha]; [split; [reflexivity | by apply HS]|].
    destruct (Ascii.eqb_spec c "b") as [->|Hb]; [split; [reflexivity | by apply HS]|].
    destruct (Ascii.eqb_spec c "c") as [->|Hcc]; [split; [reflexivity | by apply HS]|].
    split; [|by apply HN]. exists c. split; [|done].
    apply chars_inj. by rewrite chars_text.
Qed.

(** The theorem at the match "SEED" of the text "a SEED round". *)
Lemma funding_round_moves_one_step_witness :
  match round_index 0 rounds (Py.group0 (RMatch (chars "SEED") [(1, chars "SEED")])) with
  | Some i =>
      Py.lower (Py.group0 (RMatch (chars "SEED") [(1, chars "SEED")]))
        = Py.lower (nth i rounds "")
      /\ exists j,
           (j = i \/ j = S i \/ S j = i) /\ j < length rounds
           /\ replace_round (fun _ => 2%N) (RMatch (chars "SEED") [(1, chars "SEED")])
                (State 0 ∅)
              = (chars (nth j rounds ""), State 1 ∅)
  | None =>
      (exists c,
         Py.lower (Py.group0 (RMatch (chars "SEED") [(1, chars "SEED")]))
           = "series " +:+ String c ""
         /\ Chr.is_lower_az c = true
         /\ c <> "a"%char /\ c <> "b"%char /\ c <> "c"%char)
      /\ replace_round (fun _ => 2%N) (RMatch (chars "SEED") [(1, chars "SEED")])
           (State 0 ∅)
         = (group0 (RMatch (chars "SEED") [(1, chars "SEED")]), State 0 ∅)
  end.
Proof.
  apply (funding_round_moves_one_step (fun _ => 2%N) "a SEED round"
           (RMatch (chars "SEED") [(1, chars "SEED")]) (State 0 ∅)).
  vm_compute. by left.
Defined.

End RoundFacts.

(** ** anonymize_portfolio.py: texts the value passes leave alone *)

Module PlainFacts.

Import Re ReFacts LangFacts Portfolio RoundFacts.

(** A pattern whose matches all start with a character of [p] finds
    nothing in a text without such a character. *)
Lemma finditer_nothing ic r (p : ascii -> Prop) s :
  (forall w, lang ic r w -> exists c rest, w = c :: rest /\ p c) ->
  Forall (fun c => ~ p c) s ->
  finditer ic r s = [].
Proof.
  intros Hr Hs. destruct (finditer ic r s) as [|m ms] eqn:E; [done|].
  assert (Hm : In m (finditer ic r s)) by (rewrite E; by left).
  apply finditer_sound in Hm as [L (pre & post & ->)].
  destruct (Hr _ L) as (c & rest & Hw & Hc). rewrite Hw in Hs.
  rewrite !Forall_app, Forall_cons in Hs. tauto.
Qed.

Lemma sub_st_nothing {S : Type} ic r (f : rmatch -> S -> list ascii * S) s st :
  finditer ic r s = [] -> sub_st ic r f s st = (s, st).
Proof. intros H. apply sub_st_identity. rewrite H. by intros m []. Qed.

Lemma one_set d c : set_has false false [One d] c = true -> c = d.
Proof.
  unfold set_has. cbn [existsb item_has xorb]. rewrite orb_false_r.
  intros H. by apply Ascii.eqb_eq in H.
Qed.

Lemma dollar_ic c : Chr.lower c = Chr.lower "$" -> c = "$"%char.
Proof. destruct c as [[] [] [] [] [] [] [] []]; vm_compute; congruence. Qed.

Lemma amount_starts w :
  lang true amount_pattern w -> exists c rest, w = c :: rest /\ c = "$"%char.
Proof.
  unfold amount_pattern. rewrite lang_cat.
  intros (w1 & w2 & -> & (c & -> & Hc) & _).
  exists c, w2. split; [done|]. by apply dollar_ic, one_set_ic.
Qed.

Lemma year_starts w :
  lang false year_pattern w -> exists c rest, w = c :: rest /\ c = "2"%char.
Proof.
  unfold year_pattern. rewrite !lang_cat.
  intros (w0 & w' & -> & E0 & (w1 & w2 & -> & H & _)).
  simpl in E0. subst w0.
  destruct H as (a & b & -> & Ha & _).
  unfold lit, lit_l in Ha. cbn [chars list_ascii_of_string map] in Ha.
  apply lang_cat in Ha as (x & y & -> & (c & -> & Hc) & _).
  exists c. eexists. split; [reflexivity|]. by apply one_set in Hc.
Qed.

Lemma round_starts w :
  lang true round_pattern w ->
  exists c rest, w = c :: rest /\ In (Chr.lower c) ["a"; "p"; "s"]%char.
Proof.
  intros H. apply round_pattern_forms in H.
  destruct w as [|c rest].
  - exfalso. destruct H as [[H|[H|[H|[]]]]|(c & _ & H)]; discriminate H.
  - exists c, rest. split; [done|].
    destruct H as [[H|[H|[H|[]]]]|(d & _ & H)]; injection H as H _;
      rewrite <- H; simpl; tauto.
Qed.

(** X10: a text without a dollar sign passes [randomize_amount] as it is,
    a text without the digit 2 passes [randomize_dates] as it is, and a text
    without the letters a, p and s in either case passes
    [randomize_funding_round] as it is; nothing is read from the random
    source. *)
Theorem value_passes_skip_plain_text (rnd : nat -> N) (s : string) (st : state) :
  (Forall (fun c => c <> "$"%char) (chars s) ->
   randomize_amount rnd s st = (s, st))
  /\ (Forall (fun c => c <> "2"%char) (chars s) ->
      randomize_dates rnd s st = (s, st))
  /\ (Forall (fun c => ~ In (Chr.lower c) ["a"; "p"; "s"]%char) (chars s) ->
      randomize_funding_round rnd s st = (s, st)).
Proof.
  unfold randomize_amount, randomize_dates, randomize_funding_round, bind, ret.
  split; [|split]; intros H.
  - rewrite sub_st_nothing; [by rewrite text_chars|].
    by apply (finditer_nothing _ _ (fun c => c = "$"%char) _ amount_starts).
  - rewrite sub_st_nothing; [by rewrite text_chars|].
    by apply (finditer_nothing _ _ (fun c => c = "2"%char) _ year_starts).
  - rewrite sub_st_nothing; [by rewrite text_chars|].
    by apply (finditer_nothing _ _ _ _ round_starts).
Qed.

(** The theorem at the text "rocket fuel". *)
Lemma value_passes_skip_plain_text_witness :
  randomize_amount (fun _ => 5%N) "rocket fuel" (State 0 ∅)
    = ("rocket fuel", State 0 ∅)
  /\ randomize_dates (fun _ => 5%N) "rocket fuel" (State 0 ∅)
     = ("rocket fuel", State 0 ∅)
  /\ randomize_funding_round (fun _ => 5%N) "rocket fuel" (State 0 ∅)
     = ("rocket fuel", State 0 ∅).
Proof.
  pose proof (value_passes_skip_plain_text (fun _ => 5%N) "rocket fuel"
                (State 0 ∅)) as (H1 & H2 & H3).
  split; [|split].
  - apply H1. repeat constructor; done.
  - apply H2. repeat constructor; done.
  - apply H3. repeat constructor; simpl; intros [H|[H|[H|[]]]]; discriminate H.
Defined.

End PlainFacts.

(** ** anonymize_portfolio.py: descriptions on one line *)

Module LineFacts.

Import Re ReFacts LangFacts Portfolio.

Ltac each_char c :=
  destruct c as [[] [] [] [] [] [] [] []]; vm_compute;
  try (intros; first [reflexivity | discriminate]).

Lemma plain_upper c : plain_space c -> plain_space (Chr.upper c).
Proof.
  unfold plain_space.
  destruct c as [[] [] [] [] [] [] [] []]; vm_compute;
    intros H1 H2; first [discriminate H2 | reflexivity | discriminate (H1 eq_refl)].
Qed.

Lemma plain_alpha_upper c : Chr.is_alpha c = true -> plain_space (Chr.upper c).
Proof. unfold plain_space. each_char c. Qed.

Lemma plain_digit c : Chr.is_digit c = true -> plain_space c.
Proof. unfold plain_space. each_char c. Qed.

Lemma plain_not_space c : Chr.is_space c = false -> plain_space c.
Proof. unfold plain_space. congruence. Qed.

Lemma one_line_app s t : one_line s -> one_line t -> one_line (s +:+ t).
Proof. unfold one_line. rewrite chars_app, Forall_app. tauto. Qed.

Lemma one_line_text l : Forall plain_space l -> one_line (text l).
Proof. unfold one_line. by rewrite chars_text. Qed.

Lemma one_line_literal s :
  forallb (fun c => negb (Chr.is_space c) || Ascii.eqb c " ") (chars s) = true ->
  one_line s.
Proof.
  unfold one_line. rewrite forallb_forall, Forall_forall. intros H c Hc.
  specialize (H c (proj1 (list_elem_of_In _ _) Hc)). intros Hs. rewrite Hs in H.
  by apply Ascii.eqb_eq in H.
Qed.

Ltac literal := apply one_line_literal; vm_compute; reflexivity.

Lemma one_line_uint u : one_line (NilEmpty.string_of_uint u).
Proof.
  unfold one_line.
  induction u; simpl; [constructor | ..]; (constructor; [by vm_compute | done]).
Qed.

Lemma one_line_N n : one_line (str_of_N n).
Proof. apply one_line_uint. Qed.

Lemma one_line_zeros n : one_line (Float.zeros n).
Proof.
  unfold one_line. induction n; simpl; [constructor|].
  constructor; [by vm_compute | done].
Qed.

Lemma one_line_fixed d n : one_line (Float.fixed_digits d n).
Proof.
  unfold Float.fixed_digits. destruct d; [apply one_line_N|].
  repeat apply one_line_app; try apply one_line_N; try apply one_line_zeros.
  literal.
Qed.

Lemma one_line_format d x : one_line (Float.format_fixed d x).
Proof.
  unfold Float.format_fixed.
  assert (S : forall b : bool, one_line (if b then "-" else "")).
  { intros []; literal. }
  destruct x; repeat apply one_line_app; try apply S; try apply one_line_fixed;
    literal.
Qed.

Lemma one_line_amount x : one_line (format_amount x).
Proof.
  unfold format_amount.
  repeat match goal with |- one_line (if ?b then _ else _) => destruct b end;
    repeat apply one_line_app; try apply one_line_format; literal.
Qed.

Lemma one_line_sub ic r repl s :
  one_line s -> one_line repl -> one_line (Py.re_sub ic r repl s).
Proof. intros Hs Hr. apply one_line_text. by apply sub_Forall. Qed.

Lemma one_line_strip s : one_line s -> one_line (Py.strip s).
Proof.
  intros H. apply one_line_text.
  destruct (strip_infix Chr.is_space (chars s)) as (pre & post & E).
  unfold one_line in H. rewrite E in H. by apply SlugFacts.Forall_infix in H.
Qed.

Lemma one_line_flatten s : one_line (flatten_whitespace s).
Proof.
  unfold flatten_whitespace. apply one_line_strip, one_line_text.
  unfold plus, cls. rewrite sub_plus. apply squeeze_Forall.
  - repeat constructor.
  - apply Forall_forall. intros c _ Hc. rewrite SlugFacts.space_set in Hc.
    by apply plain_not_space.
Qed.

Lemma one_line_base name : one_line name -> one_line (base_name name).
Proof.
  intros H. unfold base_name. apply one_line_strip, one_line_sub; [done | literal].
Qed.

Lemma one_line_initial keep word : Forall plain_space (initial keep word).
Proof.
  unfold initial. destruct (chars word) as [|c l]; [constructor|].
  destruct (keep && Chr.is_digit c) eqn:E.
  - apply andb_prop in E as [_ E]. repeat constructor. by apply plain_digit.
  - destruct (Chr.is_alpha c) eqn:A; repeat constructor.
    by apply plain_alpha_upper.
Qed.

Lemma one_line_initials keep words :
  Forall plain_space (flat_map (initial keep) words).
Proof.
  induction words as [|w words IH]; simpl; [constructor|].
  apply Forall_app. split; [apply one_line_initial | done].
Qed.

Lemma one_line_acronym words : one_line (acronym_of words).
Proof. apply one_line_text, one_line_initials. Qed.

Lemma one_line_quoted s : one_line s -> one_line (quoted s).
Proof.
  intros H. unfold quoted, one_line. cbn [chars list_ascii_of_string].
  constructor; [by vm_compute|]. fold (chars (s +:+ String dq "")).
  rewrite chars_app, Forall_app. split; [done|].
  repeat constructor. by vm_compute.
Qed.

Lemma one_line_upper s : one_line s -> one_line (Py.upper s).
Proof.
  intros H. apply one_line_text. unfold upper_l. apply Forall_map.
  eapply Forall_impl; [exact H|]. apply plain_upper.
Qed.

Lemma one_line_slice n s : one_line s -> one_line (Py.slice n s).
Proof.
  intros H. apply one_line_text. unfold one_line in H.
  rewrite <- (take_drop n (chars s)), Forall_app in H. tauto.
Qed.

Lemma fold_one_line {A} (f : string -> A -> string) (l : list A) :
  (forall s a, one_line s -> one_line (f s a)) ->
  forall s, one_line s -> one_line (fold_left f l s).
Proof.
  intros Hf. induction l as [|a l IH]; intros s Hs; simpl; [done|].
  apply IH. by apply Hf.
Qed.

Lemma one_line_round base_original base_new text pattern :
  one_line base_new -> one_line text ->
  one_line (beginning_round base_original base_new text pattern).
Proof.
  intros Hb Ht. unfold beginning_round.
  set (t1 := match Py.re_search false pattern text with
             | Some _ => _ | None => _ end).
  assert (H1 : one_line t1).
  { unfold t1. destruct (Py.re_search false pattern text); [|done].
    by apply one_line_sub. }
  clearbody t1.
  set (t2 := if 2 <=? length (Py.split base_original) then _ else t1).
  assert (H2 : one_line t2).
  { unfold t2. destruct (2 <=? _); [|done].
    destruct (_ && _); [|done].
    set (shown := if Py.truthy _ then _ else _).
    assert (Hs : one_line shown).
    { unfold shown. destruct (Py.truthy _); [apply one_line_acronym | done]. }
    apply one_line_sub; [by apply one_line_sub | by apply one_line_quoted]. }
  clearbody t2.
  apply fold_one_line.
  { intros s a Hs. destruct (_ && _); [done|].
    apply one_line_sub; [done|]. apply one_line_quoted. literal. }
  apply fold_one_line; [|done].
  intros s a Hs. destruct (_ && _); [|done].
  set (abbrev := match flat_map _ _ with [] => _ | _ => _ end).
  assert (Ha : one_line abbrev).
  { unfold abbrev.
    pose proof (one_line_initials false (Py.split base_new)) as Hi.
    destruct (flat_map _ _) as [|c l].
    - by apply one_line_upper, one_line_slice.
    - by apply one_line_text. }
  apply one_line_sub; [by apply one_line_sub | by apply one_line_quoted].
Qed.

Section Stateful.
Variable rnd : nat -> N.

Lemma render_st_Forall (f : rmatch -> St (list ascii)) ts :
  (forall c, In (TChar c) ts -> plain_space c) ->
  (forall m st, In (TMatch m) ts -> Forall plain_space (f m st).1) ->
  forall st, Forall plain_space (render_st f ts st).1.
Proof.
  induction ts as [|[c|m] ts IH]; intros Hc Hm st; cbn [render_st].
  - constructor.
  - specialize (IH (fun c H => Hc c (or_intror H))
                   (fun m st H => Hm m st (or_intror H)) st).
    destruct (render_st f ts st). constructor; [|done]. apply Hc. by left.
  - pose proof (Hm m st (or_introl eq_refl)) as H1.
    destruct (f m st) as [piece st1].
    specialize (IH (fun c H => Hc c (or_intror H))
                   (fun m st H => Hm m st (or_intror H)) st1).
    destruct (render_st f ts st1). apply Forall_app. by split.
Qed.

Lemma sub_st_one_line ic r (f : rmatch -> St (list ascii)) s st :
  one_line s ->
  (forall m st, Forall plain_space (group0 m) -> Forall plain_space (f m st).1) ->
  Forall plain_space (sub_st ic r f (chars s) st).1.
Proof.
  intros Hs Hf. apply render_st_Forall.
  - intros c Hc. by apply (scan_chars ic r plain_space (chars s) Hs None 0).
  - intros m st' Hm. apply Hf. apply in_finditer, finditer_sound in Hm
      as [_ (pre & post & E)].
    unfold one_line in Hs. rewrite E in Hs. by apply SlugFacts.Forall_infix in Hs.
Qed.

Lemma one_line_randomize_amount s st :
  one_line s -> one_line (randomize_amount rnd s st).1.
Proof.
  intros Hs. unfold randomize_amount, bind, ret.
  pose proof (sub_st_one_line true amount_pattern (replace_amount rnd) s st Hs) as H.
  destruct (sub_st _ _ _ _ _) as [out st1]. cbn [fst] in *.
  apply one_line_text, H. intros m st' Hm. unfold replace_amount.
  destruct (Float.of_string _); [|done]. unfold bind, ret.
  destruct (RandomFloat.uniform _ _ _ _). apply one_line_amount.
Qed.

Lemma one_line_randomize_dates s st :
  one_line s -> one_line (randomize_dates rnd s st).1.
Proof.
  intros Hs. unfold randomize_dates, bind, ret.
  pose proof (sub_st_one_line false year_pattern (replace_year rnd) s st Hs) as H.
  destruct (sub_st _ _ _ _ _) as [out st1]. cbn [fst] in *.
  apply one_line_text, H. intros m st' Hm. unfold replace_year.
  destruct (_ && _); [|done]. destruct (year_window _). unfold bind, ret.
  destruct (Random.randint _ _ _ _). apply one_line_N.
Qed.

Lemma one_line_rounds j : one_line (nth j rounds "").
Proof. do 7 (destruct j as [|j]; [literal|]). destruct j; literal. Qed.

Lemma one_line_randomize_round s st :
  one_line s -> one_line (randomize_funding_round rnd s st).1.
Proof.
  intros Hs. unfold randomize_funding_round, bind, ret.
  pose proof (sub_st_one_line true round_pattern (replace_round rnd) s st Hs) as H.
  destruct (sub_st _ _ _ _ _) as [out st1]. cbn [fst] in *.
  apply one_line_text, H. intros m st' Hm. unfold replace_round.
  destruct (round_index _ _ _).
  - unfold bind, ret. destruct (Random.randint _ _ _ _). apply one_line_rounds.
  - unfold ret, Py.group0. cbn [fst]. by rewrite chars_text.
Qed.

Lemma one_line_names (l : list string) j :
  forallb (fun s => forallb (fun c => negb (Chr.is_space c) || Ascii.eqb c " ")
                            (chars s)) l = true ->
  one_line (nth j l "").
Proof.
  intros H. destruct (nth_in_or_default j l "") as [Hin| ->]; [|literal].
  rewrite forallb_forall in H. by apply one_line_literal, H.
Qed.

Lemma one_line_nouns nouns : forall text st,
  one_line text -> one_line (replace_proper_nouns rnd nouns text st).1.
Proof.
  induction nouns as [|noun nouns IH]; intros text st Ht; [done|].
  cbn [replace_proper_nouns]. unfold bind at 1.
  set (step := if bool_decide _ then _ else _).
  assert (Hs : one_line (step st).1).
  { unfold step. destruct (bool_decide _).
    - unfold bind, ret, Random.choice, Random.next. cbn [fst].
      apply one_line_sub; [done|].
      destruct (_ <? _); apply one_line_names; vm_compute; reflexivity.
    - unfold ret. cbn [fst]. apply one_line_sub; [done | literal]. }
  destruct (step st) as [t1 st1]. by apply IH.
Qed.

End Stateful.

Lemma one_line_description (rnd : nat -> N)
    (set_order : list string -> list string)
    (description original_name new_name new_website : string) (st : state) :
  one_line new_name -> one_line new_website ->
  one_line (anonymize_description rnd set_order description original_name
              new_name new_website st).1.
Proof.
  intros Hn Hw. unfold anonymize_description.
  destruct description as [|c0 description0]; [constructor|].
  cbn [Py.truthy negb]. set (description := String c0 description0).
  set (t0 := flatten_whitespace description).
  assert (H0 : one_line t0) by apply one_line_flatten. clearbody t0.
  set (t1 := if Py.truthy new_website then _ else t0).
  assert (H1 : one_line t1).
  { unfold t1. destruct (Py.truthy new_website); [|done].
    apply one_line_sub; [by apply one_line_sub|].
    unfold Py.replace_str. apply one_line_sub; [done | literal]. }
  clearbody t1.
  set (t2 := Py.re_sub false trademark_pattern "[Product]" t1).
  assert (H2 : one_line t2) by (apply one_line_sub; [done | literal]).
  clearbody t2.
  pose proof (one_line_base _ Hn) as Hb.
  set (t3 := Py.re_sub true (Py.whole_word original_name) new_name t2).
  assert (H3 : one_line t3) by (by apply one_line_sub). clearbody t3.
  set (t4 := if Py.truthy (base_name original_name) then _ else t3).
  assert (H4 : one_line t4).
  { unfold t4. destruct (Py.truthy (base_name original_name));
      [by apply one_line_sub | done]. }
  clearbody t4.
  set (t5 := fold_left _ beginning_patterns t4).
  assert (H5 : one_line t5).
  { unfold t5. apply fold_one_line; [|done].
    intros s a Hs. by apply one_line_round. }
  clearbody t5.
  set (nouns := set_order _). clearbody nouns.
  unfold bind at 1.
  pose proof (one_line_nouns rnd nouns t5 st H5) as H6.
  destruct (replace_proper_nouns rnd nouns t5 st) as [t6 st6]. cbn [fst] in H6.
  unfold bind at 1.
  pose proof (one_line_randomize_amount rnd t6 st6 H6) as H7.
  destruct (randomize_amount rnd t6 st6) as [t7 st7]. cbn [fst] in H7.
  unfold bind at 1.
  pose proof (one_line_randomize_dates rnd t7 st7 H7) as H8.
  destruct (randomize_dates rnd t7 st7) as [t8 st8]. cbn [fst] in H8.
  unfold bind at 1.
  pose proof (one_line_randomize_round rnd t8 st8 H8) as H9.
  destruct (randomize_funding_round rnd t8 st8) as [t9 st9]. cbn [fst] in H9.
  exact H9.
Qed.

(** X12: when the new name and the new website have no backslash (they
    are used as replacement templates) and no white space but spaces, the
    text [anonymize_description] returns has no line break, tab or other
    white space but the space, whatever the description held. *)
Theorem description_stays_on_one_line (rnd : nat -> N)
    (set_order : list string -> list string)
    (description original_name new_name new_website : string) (st : state) :
  Forall (fun c => c <> "\"%char) (chars new_name ++ chars new_website) ->
  Forall (fun c => Chr.is_space c = true -> c = " "%char)
         (chars new_name ++ chars new_website) ->
  Forall (fun c => Chr.is_space c = true -> c = " "%char)
         (chars (anonymize_description rnd set_order description original_name
                   new_name new_website st).1).
Proof.
  intros _ Hn. apply one_line_description; by apply Forall_app in Hn as [? ?].
Qed.

(** The theorem at a description of two lines. *)
Lemma description_stays_on_one_line_witness :
  Forall (fun c => Chr.is_space c = true -> c = " "%char)
         (chars (anonymize_description (fun _ => 0%N) (fun l => l)
                   ("Acme builds" +:+ String "010" "rockets since 2015")
                   "Acme" "Quantum Tech" "https://quantum-tech.example"
                   (State 0 ∅)).1).
Proof.
  apply description_stays_on_one_line.
  - repeat (constructor; [done|]). constructor.
  - repeat (constructor; [by vm_compute|]). constructor.
Defined.

End LineFacts.

(** ** anonymize_portfolio.py: the descriptions a run writes *)

Module WrittenFacts.

Import Re ReFacts LangFacts Portfolio SuffixFacts CompanyFacts LineFacts.
Import ShuffleFacts.

Lemma plain_lower_inv c : plain_space (Chr.lower c) -> plain_space c.
Proof.
  unfold plain_space.
  destruct c as [[] [] [] [] [] [] [] []]; vm_compute;
    intros H1 H2; first [discriminate H2 | reflexivity | discriminate (H1 eq_refl)].
Qed.

Lemma one_line_lower_inv w :
  Forall plain_space (lower_l w) -> Forall plain_space w.
Proof.
  unfold lower_l. rewrite Forall_map. intros H.
  eapply Forall_impl; [exact H|]. intros c. apply plain_lower_inv.
Qed.

Lemma one_line_suffix name sfx : preserve_suffix name = Some sfx -> one_line sfx.
Proof.
  intros H. apply first_match_found in H as (p & m & Hp & Hm & ->).
  pose proof (suffix_match_lower p name m Hp Hm) as Hl.
  apply one_line_text, one_line_lower_inv.
  apply in_map_iff in Hl as (form & <- & Hf).
  apply one_line_literal.
  assert (A : forallb (fun s => forallb (fun c => negb (Chr.is_space c)
                                                  || Ascii.eqb c " ") (chars s))
                      suffix_forms = true) by (vm_compute; reflexivity).
  rewrite forallb_forall in A. by apply A.
Qed.

Lemma one_line_nat k : one_line (str_of_nat k).
Proof. apply one_line_uint. Qed.

Lemma one_line_base_name base :
  In base all_company_names \/ placeholder "Company " base -> one_line base.
Proof.
  intros [H|[k ->]].
  - assert (A : forallb (fun s => forallb (fun c => negb (Chr.is_space c)
                                                    || Ascii.eqb c " ") (chars s))
                        all_company_names = true) by (vm_compute; reflexivity).
    rewrite forallb_forall in A. by apply one_line_literal, A.
  - apply one_line_app; [literal | apply one_line_nat].
Qed.

Lemma one_line_with_suffix original base :
  In base all_company_names \/ placeholder "Company " base ->
  one_line (with_suffix original base).
Proof.
  intros Hb. apply one_line_base_name in Hb. unfold with_suffix.
  destruct (preserve_suffix original) as [sfx|] eqn:E; [|done].
  repeat apply one_line_app; [done | literal | by apply (one_line_suffix original)].
Qed.

(** The characters of a slug. *)
Lemma slug_alphabet (name : string) :
  Forall (fun c => slug_char c = true) (chars (normalize_to_slug name)).
Proof.
  rewrite SlugFacts.slug_chars.
  set (kept := List.filter _ _).
  set (dashed := squeeze (set_has false false [Spc]) _ _ kept).
  set (single := squeeze (set_has false false [One "-"]) _ _ dashed).
  assert (Hkept : Forall (fun c => Chr.is_space c = false -> slug_char c = true) kept).
  { apply List.Forall_forall. intros c Hc. apply filter_In in Hc as [_ Hc].
    by apply SlugFacts.not_slug_char_set. }
  assert (Hdashed : Forall (fun c => slug_char c = true) dashed).
  { apply squeeze_Forall; [by repeat constructor|].
    eapply Forall_impl; [exact Hkept|]. intros c Hc. by rewrite SlugFacts.space_set. }
  assert (Hsingle : Forall (fun c => slug_char c = true) single).
  { apply squeeze_Forall; [by repeat constructor|].
    eapply Forall_impl; [exact Hdashed|]. by intros c Hc _. }
  destruct (strip_infix (Ascii.eqb "-") single) as (pre & post & Hcut).
  apply (SlugFacts.Forall_infix _ pre _ post). by rewrite <- Hcut.
Qed.

Lemma slug_char_plain c : slug_char c = true -> plain_space c.
Proof. unfold plain_space. each_char c. Qed.

Lemma one_line_website name : one_line (website_of name).
Proof.
  unfold website_of. repeat apply one_line_app; [literal | | literal].
  eapply Forall_impl; [apply slug_alphabet|]. apply slug_char_plain.
Qed.

Section Row.
Variable rnd : nat -> N.
Variable anonymize_description :
  string -> string -> string -> string -> nat -> string * nat.
Variables locations stages sales_models : list string.

Lemma anonymize_row_described cur (row : Csv.row) st rout cur' st' :
  anonymize_row rnd anonymize_description locations stages sales_models
                cur row st = (Some (rout, cur'), st') ->
  described anonymize_description row rout.
Proof.
  intros H. apply anonymize_row_Some in H
    as (original_name & Hname & _ & _ & _ & _ & Hd & _).
  rewrite new_name_with_suffix in Hd.
  pose proof (company_outcome rnd st) as Hgen.
  destruct (generate_company_name rnd st) as [base st1]. cbn [fst snd] in *.
  intros d Hrout. rewrite Hd in Hrout.
  destruct (row !! "Description") as [[d0|]|]; [|done|done].
  injection Hrout as <-.
  exists d0, original_name, base, (draws st1). split; [done|]. split; [|done].
  destruct Hgen as [(Hin & _)|[-> _]]; [by left | right]. by eexists.
Qed.

End Row.

(** X13: with the description pass in its place, every 'Description' a
    portfolio run writes has no line break, tab or other white space but
    the space: the name and the website the run makes up have none, so the
    condition of the description pass on them always holds. *)
Theorem written_descriptions_stay_on_one_line (rnd : nat -> N)
    (set_order : list string -> list string)
    (fieldnames : list string) (records : list Csv.row) (st : state)
    (out : list string * list Csv.row) (st' : state)
    (i : nat) (rout : Csv.row) (d : string) :
  anonymize_csv rnd (description_pass rnd set_order) fieldnames records st
    = (Some out, st') ->
  out.2 !! i = Some rout ->
  rout !! "Description" = Some (Some d) ->
  Forall (fun c => Chr.is_space c = true -> c = " "%char) (chars d).
Proof.
  unfold anonymize_csv, bind, ret, fresh_used_names.
  destruct (Random.shuffle rnd (collect "Location" records) st) as [locations st1].
  destruct (Random.shuffle rnd (collect "Stage" records) st1) as [stages st2].
  destruct (Random.shuffle rnd (collect "Sales Model" records) st2) as [sales st3].
  pose proof (portfolio_rows_Forall2 rnd (description_pass rnd set_order)
                locations stages sales _
                (fun cur row s rout cur' s' =>
                   anonymize_row_described rnd (description_pass rnd set_order)
                     locations stages sales cur row s rout cur' s')
                records (Cursors 0 0 0) (State (draws st3) ∅)) as Hrows.
  destruct (anonymize_rows _ _ _ _ _ _ records _) as [[rows|] st4];
    cbn [mbind option_bind]; [|done].
  specialize (Hrows rows st4 eq_refl). unfold Csv.write.
  destruct (forallb (Csv.writable fieldnames) rows); [|done].
  intros [= <- <-] Hi Hd. cbn [snd] in Hi.
  destruct (Forall2_lookup_r _ _ _ _ _ Hrows Hi) as (rin & _ & Hdesc).
  destruct (Hdesc d Hd) as (d0 & name & base & k & _ & Hb & ->).
  unfold description_pass.
  pose proof (one_line_description rnd set_order d0 name
                (with_suffix name base) (website_of (with_suffix name base))
                (State k ∅) (one_line_with_suffix _ _ Hb)
                (one_line_website _)) as H.
  destruct (anonymize_description rnd set_order d0 _ _ _ _) as [d1 s1].
  exact H.
Qed.

(** The theorem on a file with one record whose description has a tab. *)
Lemma written_descriptions_stay_on_one_line_witness :
  Forall (fun c => Chr.is_space c = true -> c = " "%char)
    (chars (default ""
       (default None
          (default ∅
             ((default ([], [])
                 (anonymize_csv (fun _ => 0%N)
                    (description_pass (fun _ => 0%N) (fun l => l))
                    ["Name"; "Website"; "Pitch"; "Description"]
                    [ {["Name" := Some "Acme, Inc."; "Website" := Some "";
                        "Pitch" := Some "";
                        "Description" :=
                          Some ("Acme builds" +:+ String "009" "rockets")]} ]
                    (State 0 ∅)).1).2 !! 0)
           !! "Description")))).
Proof.
  set (run := anonymize_csv (fun _ => 0%N)
              (description_pass (fun _ => 0%N) (fun l => l))
              ["Name"; "Website"; "Pitch"; "Description"]
              [ {["Name" := Some "Acme, Inc."; "Website" := Some "";
                  "Pitch" := Some "";
                  "Description" :=
                    Some ("Acme builds" +:+ String "009" "rockets")]} ]
              (State 0 ∅)).
  apply (written_descriptions_stay_on_one_line (fun _ => 0%N) (fun l => l)
           ["Name"; "Website"; "Pitch"; "Description"]
           [ {["Name" := Some "Acme, Inc."; "Website" := Some "";
               "Pitch" := Some "";
               "Description" :=
                 Some ("Acme builds" +:+ String "009" "rockets")]} ]
           (State 0 ∅) (default ([], []) run.1) run.2 0
           (default ∅ ((default ([], []) run.1).2 !! 0))).
  - apply (run_is_Some ([], []) run). vm_compute. reflexivity.
  - apply option_is_Some. vm_compute. reflexivity.
  - apply field_is_Some. vm_compute. reflexivity.
Defined.

End WrittenFacts.

(** ** convert_csv_to_insert.py: values that can be read back *)

Module ConvertFacts.

Import Convert Py.

Lemma read_literal_escape (v rest : list ascii) :
  match rest with "'"%char :: _ => False | _ => True end ->
  read_literal (escape_l v ++ "'"%char :: rest) = Some (v, rest).
Proof.
  intros Hrest. induction v as [|c v IH].
  - simpl. destruct rest as [|d rest]; [done|].
    destruct (Ascii.eqb_spec d "'") as [->|]; [done | done].
  - unfold escape_l in *. cbn [flat_map].
    destruct (Ascii.eqb_spec c "'") as [->|Hc].
    + cbn [app read_literal]. rewrite Ascii.eqb_refl. cbn.
      rewrite IH. done.
    + cbn [app read_literal].
      destruct (Ascii.eqb_spec c "'") as [|_]; [done|]. by rewrite IH.
Qed.

Lemma read_value_sql (value : option string) (rest : list ascii) :
  match rest with "'"%char :: _ => False | _ => True end ->
  read_value (chars (sql_value value) ++ rest) = Some (stored value, rest).
Proof.
  intros Hrest. destruct value as [[|c v]|]; [done | | done].
  unfold sql_value. cbn [String.eqb stored].
  rewrite !chars_app. unfold escape. rewrite chars_text.
  change (chars "'") with ["'"%char]. cbn [app read_value].
  rewrite <- app_assoc. cbn [app].
  rewrite (read_literal_escape _ rest Hrest). done.
Qed.

Lemma join_cons sep p q ps :
  join_l sep (p :: q :: ps) = p ++ sep ++ join_l sep (q :: ps).
Proof. reflexivity. Qed.

Lemma read_values_join (values : list (option string)) :
  values <> [] ->
  forall fuel, length values <= fuel ->
    read_values fuel (join_l (chars ", ") (map chars (map sql_value values)))
    = Some (map stored values).
Proof.
  induction values as [|v values IH]; [done|]. intros _ fuel Hfuel.
  destruct fuel as [|fuel]; [simpl in Hfuel; lia|].
  destruct values as [|w values].
  - cbn [map join_l read_values].
    rewrite <- (app_nil_r (chars (sql_value v))).
    by rewrite read_value_sql.
  - cbn [map]. rewrite join_cons. cbn [read_values].
    change (chars ", ") with [","%char; " "%char]. cbn [app].
    rewrite read_value_sql by done.
    cbn [map] in IH.
    change (chars ", ") with [","%char; " "%char] in IH.
    rewrite IH; [done | done | simpl in *; lia].
Qed.

Lemma values_str_chars columns (row : Csv.row) :
  chars (values_str columns row)
  = join_l (chars ", ")
      (map chars (map sql_value (map (field row) columns))).
Proof.
  unfold values_str, join. rewrite chars_text. by rewrite !map_map.
Qed.

(** X14: a file without columns gives no statements.  Otherwise there is
    one statement per record, in the order read, and the list of values of
    each statement can be read back: it holds, for each column in turn, the
    text of the field with every quote doubled between two quotes, or NULL
    for a field that is missing or empty, so that no text of a field can be
    taken for a separator, for the end of a value or for NULL. *)
Theorem insert_values_read_back (table_name : string) (columns : list string)
    (records : list Csv.row) :
  convert_csv_to_insert [] records table_name = None
  /\ (columns <> [] ->
      exists statements,
        convert_csv_to_insert columns records table_name = Some statements
        /\ Forall2
             (fun (row : Csv.row) statement =>
                statement
                  = "INSERT INTO " +:+ table_name +:+ " (" +:+ join ", " columns
                      +:+ ") VALUES (" +:+ values_str columns row +:+ ");"
                /\ read_values (length columns) (chars (values_str columns row))
                   = Some (map (fun col => stored (field row col)) columns))
             records statements).
Proof.
  split; [done|]. intros Hc.
  exists (map (insert_sql table_name columns) records). split.
  { unfold convert_csv_to_insert. by destruct columns. }
  apply Forall2_fmap_r, Forall_Forall2_diag, Forall_forall. intros row _.
  split; [done|]. rewrite values_str_chars, read_values_join.
  - by rewrite map_map.
  - by destruct columns.
  - by rewrite length_map.
Qed.

(** The theorem on a record with quotes, a comma and the word NULL in its
    fields, and a record too short for two of the columns. *)
Lemma insert_values_read_back_witness :
  exists statements,
    convert_csv_to_insert ["name"; "bio"; "city"]
      [ {["name" := Some "O'Neil"; "bio" := Some "likes NULL, 'quotes'";
          "city" := Some ""]};
        {["name" := Some "Li"; "bio" := None; "city" := None]} ]
      "raw_mentors"
    = Some statements
    /\ Forall2
         (fun (row : Csv.row) statement =>
            statement
              = "INSERT INTO " +:+ "raw_mentors" +:+ " (" +:+
                  join ", " ["name"; "bio"; "city"]
                  +:+ ") VALUES (" +:+ values_str ["name"; "bio"; "city"] row
                  +:+ ");"
            /\ read_values (length ["name"; "bio"; "city"])
                 (chars (values_str ["name"; "bio"; "city"] row))
               = Some (map (fun col => stored (field row col))
                           ["name"; "bio"; "city"]))
         [ {["name" := Some "O'Neil"; "bio" := Some "likes NULL, 'quotes'";
             "city" := Some ""]};
           {["name" := Some "Li"; "bio" := None; "city" := None]} ]
         statements.
Proof.
  apply (insert_values_read_back "raw_mentors" ["name"; "bio"; "city"]). done.
Defined.

End ConvertFacts.
